(** * PorePy: the degree-of-freedom manager and the forward-mode AD arrays

    A shallow embedding of
      - [porepy/numerics/mixed_dim/dof_manager.py]  (class [DofManager]),
      - [porepy/numerics/ad/forward_mode.py]        ([initAdArrays], [Ad_array]),
      - [porepy/numerics/ad/functions.py]           ([maximum] and friends),
    together with the properties of the specification that concern them.

    Conventions.
      - Python exceptions are the constructors of [exn]; a Python call that may
        raise returns a [res].  [Unmodelled] is no Python exception: it marks
        the operand types and the numeric functions that the model leaves
        out (negative and fractional powers, logarithms), and the calls of
        helpers that are not among the files at hand where nothing says
        what they do.
      - Array entries are exact integers ([Z]): the properties below only move
        entries around, or combine them with [+], [*], negation, comparison and
        powers with a non-negative integer exponent.
      - Counts of cells, faces and nodes, block widths and positions in the
        global vector are [nat]; an index handed in by a caller is a [Z],
        since Python lets it be negative. *)

From Stdlib Require Import ZArith Lia.
From stdpp Require Import gmap strings list fin_maps.

Set Default Proof Using "Type".

(** ** Python results *)

Inductive exn : Set :=
| KeyError | ValueError | IndexError | TypeError | AttributeError
| UnboundLocalError | NotImplementedError | AssertionError | RuntimeError
| Unmodelled.

Inductive res (A : Type) : Type :=
| Ok (a : A)
| Raise (e : exn).
Arguments Ok {A} a.
Arguments Raise {A} e.

Definition bind {A B} (m : res A) (k : A → res B) : res B :=
  match m with
  | Ok a => k a
  | Raise e => Raise e
  end.

Notation "'let!' x ':=' m 'in' k" := (bind m (fun x => k))
  (at level 10, x pattern, m at level 100, k at level 200).

Definition of_option {A} (e : exn) (o : option A) : res A :=
  match o with
  | Some a => Ok a
  | None => Raise e
  end.

(** A [for] loop whose body may raise: the state is threaded through the
    iterations and the first exception ends the loop. *)
Fixpoint for_each {S X} (body : S → X → res S) (xs : list X) (s : S) : res S :=
  match xs with
  | [] => Ok s
  | x :: xs' => let! s' := body s x in for_each body xs' s'
  end.

(** ** Python dictionaries that remember insertion order

    [d[k] = v] overwrites the value of a key that is present, in place, and
    appends a new key at the end; iteration follows insertion order. *)
Section Dict.
Context {K V : Type} `{EqDecision K}.

Fixpoint dict_set (k : K) (v : V) (d : list (K * V)) : list (K * V) :=
  match d with
  | [] => [(k, v)]
  | (k', v') :: d' =>
      if decide (k = k') then (k, v) :: d' else (k', v') :: dict_set k v d'
  end.

Fixpoint dict_get (k : K) (d : list (K * V)) : option V :=
  match d with
  | [] => None
  | (k', v') :: d' => if decide (k = k') then Some v' else dict_get k d'
  end.

Definition dict_mem (k : K) (d : list (K * V)) : bool :=
  match dict_get k d with Some _ => true | None => false end.
End Dict.

(** [itertools.product(xs, ys)]: the first component varies slowest. *)
Definition product {A B} (xs : list A) (ys : list B) : list (A * B) :=
  flat_map (fun x => map (fun y => (x, y)) ys) xs.

(** ** numpy helpers on one-dimensional arrays *)

(** [np.cumsum] *)
Fixpoint cumsum_from (acc : nat) (l : list nat) : list nat :=
  match l with
  | [] => []
  | x :: l' => (acc + x) :: cumsum_from (acc + x) l'
  end.
Definition cumsum (l : list nat) : list nat := cumsum_from 0 l.

(** [np.arange(a, b)] *)
Definition arange (a b : nat) : list nat := seq a (b - a).

(** [np.argmax] of a boolean array: the first [True], and 0 when there is none. *)
Fixpoint argmax (l : list bool) : nat :=
  match l with
  | [] => 0
  | b :: l' => if b then 0 else
                 if existsb id l' then S (argmax l') else 0
  end.

(** [values[inds]], an [IndexError] when an index is out of bounds. *)
Fixpoint take_inds (values : list Z) (inds : list nat) : res (list Z) :=
  match inds with
  | [] => Ok []
  | i :: inds' =>
      let! x := of_option IndexError (values !! i) in
      let! xs := take_inds values inds' in
      Ok (x :: xs)
  end.

(** Broadcasting a one-dimensional array to length [n]. *)
Definition broadcast_to (n : nat) (a : list Z) : res (list Z) :=
  if decide (length a = n) then Ok a
  else match a with
       | [x] => Ok (replicate n x)
       | _ => Raise ValueError
       end.

(** [values[inds] = a] *)
Fixpoint put_all (values : list Z) (inds : list nat) (a : list Z) : res (list Z) :=
  match inds, a with
  | i :: inds', x :: a' =>
      if decide (i < length values)
      then put_all (<[i := x]> values) inds' a'
      else Raise IndexError
  | _, _ => Ok values
  end.

Definition set_inds (values : list Z) (inds : list nat) (a : list Z) : res (list Z) :=
  let! a' := broadcast_to (length inds) a in
  put_all values inds a'.

(** [a + b] on arrays *)
Definition np_add (a b : list Z) : res (list Z) :=
  if decide (length a = length b) then Ok (zip_with Z.add a b)
  else match a, b with
       | [x], _ => Ok (map (Z.add x) b)
       | _, [y] => Ok (map (fun x => Z.add x y) a)
       | _, _ => Raise ValueError
       end.

(** ** Grids, variable declarations and the per-grid data dictionaries *)

(** A subdomain grid and an interface (mortar) grid.  Python compares grid
    objects by identity, which the [_id] fields stand for. *)
Record Grid : Set := mkGrid
  { g_id : nat; num_cells : nat; num_faces : nat; num_nodes : nat }.
Record MortarGrid : Set := mkMortarGrid
  { m_id : nat; m_num_cells : nat }.

Inductive GridLike : Set :=
| Sd (g : Grid)
| Intf (m : MortarGrid).

#[global] Instance Grid_eq_dec : EqDecision Grid.
Proof. solve_decision. Defined.
#[global] Instance MortarGrid_eq_dec : EqDecision MortarGrid.
Proof. solve_decision. Defined.
#[global] Instance GridLike_eq_dec : EqDecision GridLike.
Proof. solve_decision. Defined.

(** What a state dictionary holds under a key: an array, or (under
    [pp.ITERATE]) the dictionary of iterates. *)
Inductive stored : Type :=
| Arr (a : list Z)
| Dict (d : gmap string (list Z)).

(** Modelled from the spec: the keywords [pp.PRIMARY_VARIABLES], [pp.STATE]
    and [pp.ITERATE] are defined outside the files at hand; [pp.STATE] and
    [pp.PRIMARY_VARIABLES] select the two fields of [data] below, and
    [pp.ITERATE] is the key of the iterate store inside the state. *)
Definition ITERATE : string := "iterate".

(** The data dictionary of one grid: the declared variables with their
    numbers of dofs per cell, face and node, in declaration order, and the
    state; either key may be missing. *)
Record data : Type := mkData
  { primary_variables : option (list (string * gmap string nat));
    state : option (gmap string stored) }.

(** Modelled from the spec: the mixed-dimensional grid is an external
    collaborator; it lists its subdomains, then its interfaces, each with
    its data dictionary, and hands out the dictionary of a grid
    ([subdomain_data], [interface_data]; a [KeyError] for a foreign grid). *)
Record MixedDimensionalGrid : Type := mkMdg
  { subdomains : list (Grid * data);
    interfaces : list (MortarGrid * data) }.

Definition subdomain_data (mdg : MixedDimensionalGrid) (g : Grid) : res data :=
  of_option KeyError (dict_get g (subdomains mdg)).
Definition interface_data (mdg : MixedDimensionalGrid) (m : MortarGrid) : res data :=
  of_option KeyError (dict_get m (interfaces mdg)).

(** The dictionaries are shared with the grid: a change made through the
    reference that [subdomain_data] returned is a change of the grid's own
    dictionary. *)
Definition update_data (mdg : MixedDimensionalGrid) (g : GridLike) (d : data)
  : MixedDimensionalGrid :=
  match g with
  | Sd sd => mkMdg (dict_set sd d (subdomains mdg)) (interfaces mdg)
  | Intf intf => mkMdg (subdomains mdg) (dict_set intf d (interfaces mdg))
  end.

(** ** The class [DofManager] *)

Record DofManager : Type := mkDofManager
  { block_dof : list ((GridLike * string) * nat);
    full_dof : list nat }.

(** [local_dofs.get(key, 0)] *)
Definition get0 (local_dofs : gmap string nat) (key : string) : nat :=
  default 0 (local_dofs !! key).

(** The number of dofs of one variable on a subdomain, and on an interface,
    which carries cell dofs only. *)
Definition total_local_dofs_sd (sd : Grid) (local_dofs : gmap string nat) : nat :=
  num_cells sd * get0 local_dofs "cells"
  + num_faces sd * get0 local_dofs "faces"
  + num_nodes sd * get0 local_dofs "nodes".
Definition total_local_dofs_intf (intf : MortarGrid)
    (local_dofs : gmap string nat) : nat :=
  m_num_cells intf * get0 local_dofs "cells".

(** The three loop variables of [__init__]. *)
Record init_state : Type := mkInit
  { i_block_dof : list ((GridLike * string) * nat);
    i_counter : nat;
    i_full_dof : list nat }.

Definition init_var (g : GridLike) (total_local_dofs : gmap string nat → nat)
    (s : init_state) (item : string * gmap string nat) : init_state :=
  let '(local_var, local_dofs) := item in
  mkInit (dict_set (g, local_var) (i_counter s) (i_block_dof s))
         (i_counter s + 1)
         (i_full_dof s ++ [total_local_dofs local_dofs]).

Definition init_sd (s : init_state) (entry : Grid * data) : init_state :=
  let '(sd, dat) := entry in
  match primary_variables dat with
  | None => s
  | Some vars =>
      fold_left (init_var (Sd sd) (total_local_dofs_sd sd)) vars s
  end.

Definition init_intf (s : init_state) (entry : MortarGrid * data) : init_state :=
  let '(intf, dat) := entry in
  match primary_variables dat with
  | None => s
  | Some vars =>
      fold_left (init_var (Intf intf) (total_local_dofs_intf intf)) vars s
  end.

(** [DofManager.__init__] *)
Definition init (mdg : MixedDimensionalGrid) : DofManager :=
  let s0 := mkInit [] 0 [] in
  let s1 := fold_left init_sd (subdomains mdg) s0 in
  let s2 := fold_left init_intf (interfaces mdg) s1 in
  mkDofManager (i_block_dof s2) (i_full_dof s2).

(** [np.hstack((0, np.cumsum(self.full_dof)))] *)
Definition dof_start (dm : DofManager) : list nat := 0 :: cumsum (full_dof dm).

(** [DofManager.grid_and_variable_to_dofs] *)
Definition grid_and_variable_to_dofs (dm : DofManager) (grid : GridLike)
    (variable : string) : res (list nat) :=
  let! block_ind := of_option KeyError (dict_get (grid, variable) (block_dof dm)) in
  let! a := of_option IndexError (dof_start dm !! block_ind) in
  let! b := of_option IndexError (dof_start dm !! (block_ind + 1)) in
  Ok (arange a b).

(** A numpy scalar that holds a whole number: an integer, or a float.
    Where a natural number is asked for, a scalar stands for the number it
    holds. *)
Inductive np_scalar : Set :=
| np_int (n : nat)
| np_float (n : nat).

Definition scalar_value (s : np_scalar) : nat :=
  match s with
  | np_int n | np_float n => n
  end.
Coercion scalar_value : np_scalar >-> nat.

(** [np.sum(np.array(l))] for a list [l] of Python integers: the array of a
    list with an entry holds integers and so does its sum; [np.array([])]
    holds floats, and its sum is the float [0.0]. *)
Definition np_sum (l : list nat) : np_scalar :=
  match l with
  | [] => np_float 0
  | _ :: _ => np_int (sum_list l)
  end.

(** A size handed to numpy or scipy: a [TypeError] for a float. *)
Definition as_size (s : np_scalar) : res nat :=
  match s with
  | np_int n => Ok n
  | np_float _ => Raise TypeError
  end.

(** [np.zeros(n)] *)
Definition np_zeros (n : np_scalar) : res (list Z) :=
  let! n := as_size n in Ok (replicate n 0%Z).

(** [DofManager.num_dofs]: [np.sum(self.full_dof)], where [__init__] has
    set [self.full_dof = np.array(full_dof)]. *)
Definition num_dofs (dm : DofManager) : np_scalar := np_sum (full_dof dm).

(** [{v: k for k, v in self.block_dof.items()}] *)
Definition inv_block_dof (dm : DofManager) : list (Z * (GridLike * string)) :=
  fold_left (fun d '(k, v) => dict_set (Z.of_nat v) k d) (block_dof dm) [].

(** [DofManager.dof_to_grid_and_variable] *)
Definition dof_to_grid_and_variable (dm : DofManager) (ind : Z)
  : res (GridLike * string) :=
  let ds := dof_start dm in
  if (Z.of_nat (List.last ds 0%nat) <=? ind)%Z then Raise ValueError
  else if (ind <? 0)%Z then Raise ValueError
  else
    let block_ind :=
      (Z.of_nat (argmax (map (fun s => (ind <? Z.of_nat s)%Z) ds)) - 1)%Z in
    of_option KeyError (dict_get block_ind (inv_block_dof dm)).

(** The dictionary of a grid, picked as the scatter and gather loops do:
    [interface_data] if [isinstance(g, pp.MortarGrid)], else [subdomain_data]. *)
Definition grid_data (mdg : MixedDimensionalGrid) (g : GridLike) : res data :=
  match g with
  | Intf intf => interface_data mdg intf
  | Sd sd => subdomain_data mdg sd
  end.

(** [data[pp.STATE][pp.ITERATE]], to be indexed by a variable name next. *)
Definition get_iterate (st : gmap string stored) : res (gmap string (list Z)) :=
  match st !! ITERATE with
  | None => Raise KeyError
  | Some (Dict d) => Ok d
  | Some (Arr _) => Raise IndexError
  end.

(** [data[pp.STATE][var]], to be used as an array next. *)
Definition get_state_array (st : gmap string stored) (var : string) : res (list Z) :=
  match st !! var with
  | None => Raise KeyError
  | Some (Arr a) => Ok a
  | Some (Dict _) => Raise TypeError
  end.

(** The selections [grids=None] and [variables=None]:
    [list(set([key[0] for key in self.block_dof]))] and the same with
    [key[1]].  Python leaves the order of a set open; the model lists the
    elements in the order of their first registration. *)
Definition all_grids (dm : DofManager) : list GridLike :=
  remove_dups (map (fun kv => fst (fst kv)) (block_dof dm)).
Definition all_variables (dm : DofManager) : list string :=
  remove_dups (map (fun kv => snd (fst kv)) (block_dof dm)).

(** One turn of the loop of [distribute_variable]. *)
Definition distribute_body (dm : DofManager) (values : list Z)
    (additive to_iterate : bool) (mdg : MixedDimensionalGrid)
    (p : GridLike * string) : res MixedDimensionalGrid :=
  let '(g, var) := p in
  if negb (dict_mem (g, var) (block_dof dm)) then Ok mdg
  else
    let! dof_ind := grid_and_variable_to_dofs dm g var in
    let! dat := grid_data mdg g in
    let st := default ∅ (state dat) in
    let st :=
      if to_iterate && bool_decide (st !! ITERATE = None)
      then <[ITERATE := Dict ∅]> st else st in
    let! vals := take_inds values dof_ind in
    let! st' :=
      if additive then
        if to_iterate then
          let! it := get_iterate st in
          let! old := of_option KeyError (it !! var) in
          let! new := np_add old vals in
          Ok (<[ITERATE := Dict (<[var := new]> it)]> st)
        else
          let! old := get_state_array st var in
          let! new := np_add old vals in
          Ok (<[var := Arr new]> st)
      else
        if to_iterate then
          let! it := get_iterate st in
          Ok (<[ITERATE := Dict (<[var := vals]> it)]> st)
        else
          Ok (<[var := Arr vals]> st)
    in
    Ok (update_data mdg g (mkData (primary_variables dat) (Some st'))).

(** [DofManager.distribute_variable]; the grid's dictionaries are the state. *)
Definition distribute_variable (dm : DofManager) (values : list Z)
    (grids : option (list GridLike)) (variables : option (list string))
    (additive to_iterate : bool) (mdg : MixedDimensionalGrid)
  : res MixedDimensionalGrid :=
  let grids := default (all_grids dm) grids in
  let variables := default (all_variables dm) variables in
  for_each (distribute_body dm values additive to_iterate)
           (product grids variables) mdg.

(** One turn of the loop of [assemble_variable]. *)
Definition assemble_body (dm : DofManager) (from_iterate : bool)
    (mdg : MixedDimensionalGrid) (values : list Z) (p : GridLike * string)
  : res (list Z) :=
  let '(g, var) := p in
  if negb (dict_mem (g, var) (block_dof dm)) then Ok values
  else
    let! dof_ind := grid_and_variable_to_dofs dm g var in
    let! dat := grid_data mdg g in
    let! st := of_option KeyError (state dat) in
    let! a :=
      if from_iterate then
        let! it := get_iterate st in of_option KeyError (it !! var)
      else get_state_array st var in
    set_inds values dof_ind a.

(** [DofManager.assemble_variable] *)
Definition assemble_variable (dm : DofManager)
    (grids : option (list GridLike)) (variables : option (list string))
    (from_iterate : bool) (mdg : MixedDimensionalGrid) : res (list Z) :=
  let grids := default (all_grids dm) grids in
  let variables := default (all_variables dm) variables in
  let! values := np_zeros (num_dofs dm) in
  for_each (assemble_body dm from_iterate mdg)
           (product grids variables) values.

(** The Python objects that the loop variables of [get_variable_values]
    can be bound to. *)
Inductive pyval : Type :=
| PGrid (g : Grid)
| PMortarGrid (m : MortarGrid)
| PTuple (k : GridLike * string)
| PStr (s : string)
| PInt (n : nat).

(** [d[name]] on a dictionary with string keys. *)
Definition lookup_py {V} (d : gmap string V) (name : pyval) : option V :=
  match name with
  | PStr s => d !! s
  | _ => None
  end.

(** The [try] block of [get_variable_values]: the expression
    [data[pp.STATE][pp.ITERATE][name].copy()], respectively
    [data[pp.STATE][name].copy()]; [None] stands for the [KeyError] that the
    [except] clause catches. *)
Definition stored_values (dat : data) (from_iterate : bool) (name : pyval)
  : res (option (list Z)) :=
  match state dat with
  | None => Ok None
  | Some st =>
      if from_iterate then
        match st !! ITERATE with
        | None => Ok None
        | Some (Dict d) => Ok (lookup_py d name)
        | Some (Arr _) => Raise IndexError
        end
      else
        match lookup_py st name with
        | None => Ok None
        | Some (Arr a) => Ok (Some a)
        | Some (Dict d) => Raise TypeError
        end
  end.

(** One turn of the loop [for grid, name in self.block_dof.items()]: an item
    of the dictionary is a pair of a key and a block index, so [grid] is
    bound to the key, a tuple, and [name] to the block index.  The local
    variable [data] is assigned under the two [isinstance] tests only; it is
    [None] here as long as it is unbound. *)
Definition get_variable_values_body (mdg : MixedDimensionalGrid)
    (from_iterate : bool) (s : option data * list (list Z))
    (item : (GridLike * string) * nat) : res (option data * list (list Z)) :=
  let '(dat, values) := s in
  let grid := PTuple (fst item) in
  let name := PInt (snd item) in
  let! dat :=
    match grid with
    | PGrid g => let! d := subdomain_data mdg g in Ok (Some d)
    | PMortarGrid m => let! d := interface_data mdg m in Ok (Some d)
    | _ => Ok dat
    end in
  match dat with
  | None => Raise UnboundLocalError
  | Some d =>
      let! o := stored_values d from_iterate name in
      match o with
      | None => Raise KeyError
      | Some a => Ok (Some d, values ++ [a])
      end
  end.

(** [DofManager.get_variable_values] with [variables=None];
    [np.concatenate] of no arrays is replaced by the empty array. *)
Definition get_variable_values (dm : DofManager) (from_iterate : bool)
    (mdg : MixedDimensionalGrid) : res (list Z) :=
  let! s := for_each (get_variable_values_body mdg from_iterate)
                     (block_dof dm) (None, []) in
  Ok (concat (snd s)).

(** What the specification says of [get_variable_values]: the stored values
    of all registered blocks, in block order, and a [KeyError] when a block
    has none. *)
Definition get_variable_values_spec (dm : DofManager) (from_iterate : bool)
    (mdg : MixedDimensionalGrid) : res (list Z) :=
  let! blocks :=
    for_each (fun values '((g, var), _) =>
        match grid_data mdg g with
        | Ok dat =>
            let! o := stored_values dat from_iterate (PStr var) in
            match o with
            | None => Raise KeyError
            | Some a => Ok (values ++ [a])
            end
        | Raise e => Raise e
        end) (block_dof dm) [] in
  Ok (concat blocks).

(** ** The scenario of the specification: two grids with one cell variable *)
Module Scenario.
Definition E1 : Grid := mkGrid 1 3 0 0.
Definition E2 : Grid := mkGrid 2 2 0 0.
Definition p_decl : data :=
  mkData (Some [("p", {["cells" := 1]})]) None.
Definition mdg : MixedDimensionalGrid :=
  mkMdg [(E1, p_decl); (E2, p_decl)] [].
Definition dm : DofManager := init mdg.
End Scenario.

(** ** What a grid declares

    The (grid, variable) pairs that [__init__] meets, in the order in which
    it meets them, each with its number of dofs. *)
Definition declared_vars (g : GridLike) (width : gmap string nat → nat)
    (dat : data) : list ((GridLike * string) * nat) :=
  match primary_variables dat with
  | None => []
  | Some vars => map (fun item => ((g, fst item), width (snd item))) vars
  end.

Definition declared (mdg : MixedDimensionalGrid) : list ((GridLike * string) * nat) :=
  flat_map (fun e => declared_vars (Sd (fst e)) (total_local_dofs_sd (fst e)) (snd e))
           (subdomains mdg)
  ++ flat_map (fun e => declared_vars (Intf (fst e)) (total_local_dofs_intf (fst e)) (snd e))
              (interfaces mdg).

(** The grid lists no subdomain and no interface twice, and no dictionary of
    variables has a name twice: no pair is declared twice. *)
Definition wf_mdg (mdg : MixedDimensionalGrid) : Prop :=
  NoDup (map fst (declared mdg)).

(** The first dof of block [j], and the values of block [j] in a global vector. *)
Definition block_start (dm : DofManager) (j : nat) : nat :=
  sum_list (take j (full_dof dm)).
Definition block_values (dm : DofManager) (v : list Z) (j : nat) : list Z :=
  take (default 0 (full_dof dm !! j)) (drop (block_start dm j) v).

(** The array stored for a variable on a grid, in the state. *)
Definition slot (mdg : MixedDimensionalGrid) (g : GridLike) (var : string)
  : option stored :=
  match grid_data mdg g with
  | Ok dat => match state dat with Some st => st !! var | None => None end
  | Raise _ => None
  end.

(** One registration: what a turn of the inner loops of [__init__] does. *)
Definition register (s : init_state) (item : (GridLike * string) * nat) : init_state :=
  mkInit (dict_set (fst item) (i_counter s) (i_block_dof s))
         (i_counter s + 1)
         (i_full_dof s ++ [snd item]).

(** Every registered grid has a data dictionary. *)
Definition all_have_data (dm : DofManager) (mdg : MixedDimensionalGrid) : Prop :=
  ∀ g var j, dict_get (g, var) (block_dof dm) = Some j →
             ∃ d, grid_data mdg g = Ok d.

(** Position [i] lies in the block of a registered pair of [ps]. *)
Definition covered (dm : DofManager) (ps : list (GridLike * string)) (i : nat)
  : Prop :=
  ∃ g var j w, (g, var) ∈ ps
    ∧ dict_get (g, var) (block_dof dm) = Some j
    ∧ full_dof dm !! j = Some w
    ∧ block_start dm j ≤ i < block_start dm j + w.

(** * Forward-mode AD: numpy and scipy values

    The arrays and matrices that [forward_mode.py] and [functions.py] hand
    to numpy and scipy.  A matrix is the list of its rows together with its
    number of columns (a matrix without rows still has a width). *)

Record matrix : Set := mkMat { ncols : nat; rows : list (list Z) }.

Definition nrows (m : matrix) : nat := length (rows m).

#[global] Instance matrix_eq_dec : EqDecision matrix.
Proof. solve_decision. Defined.

(** Every row has [ncols] entries. *)
Definition mat_wf (m : matrix) : Prop :=
  Forall (fun r => length r = ncols m) (rows m).

(** Entry [(i, j)], zero outside the matrix. *)
Definition entry (m : matrix) (i j : nat) : Z :=
  default 0%Z (default [] (rows m !! i) !! j).

(** [sps.csc_matrix((n, m))] and [sps.csr_matrix((n, m))]: no entry stored. *)
Definition zero_matrix (n m : nat) : matrix :=
  mkMat m (replicate n (replicate m 0%Z)).

(** [sps.diags(a)] for a one-dimensional array [a]. *)
Definition diags (a : list Z) : matrix :=
  mkMat (length a) (imap (fun i x => <[i := x]> (replicate (length a) 0%Z)) a).

(** [np.ones(n)] *)
Definition ones (n : nat) : list Z := replicate n 1%Z.

Definition vec_add (u v : list Z) : list Z := zip_with Z.add u v.
Definition vec_scale (c : Z) (v : list Z) : list Z := map (Z.mul c) v.

(** [-A], [c * A] and [A * c] for a number [c]. *)
Definition mneg (A : matrix) : matrix :=
  mkMat (ncols A) (map (map Z.opp) (rows A)).
Definition mscale (c : Z) (A : matrix) : matrix :=
  mkMat (ncols A) (map (vec_scale c) (rows A)).

(** [A + B]; scipy refuses operands of different shapes. *)
Definition madd (A B : matrix) : res matrix :=
  if decide (nrows A = nrows B ∧ ncols A = ncols B)
  then Ok (mkMat (ncols A) (zip_with vec_add (rows A) (rows B)))
  else Raise ValueError.

(** A row vector times a matrix with [n] columns. *)
Definition row_mul (n : nat) (r : list Z) (B : list (list Z)) : list Z :=
  foldr (fun '(x, b) acc => vec_add (vec_scale x b) acc)
        (replicate n 0%Z) (zip r B).

(** [A * B] on sparse matrices: the matrix product. *)
Definition matmul (A B : matrix) : res matrix :=
  if decide (ncols A = nrows B)
  then Ok (mkMat (ncols B) (map (fun r => row_mul (ncols B) r (rows B)) (rows A)))
  else Raise ValueError.

(** [A * v] for a one-dimensional array [v]: the matrix-vector product. *)
Definition matvec (A : matrix) (v : list Z) : res (list Z) :=
  if decide (ncols A = length v)
  then Ok (map (fun r => foldr Z.add 0%Z (zip_with Z.mul r v)) (rows A))
  else Raise ValueError.

(** [sps.bmat([blocks])]: the blocks side by side. *)
Definition bmat_row (blocks : list matrix) : res matrix :=
  match blocks with
  | [] => Raise ValueError
  | b :: _ =>
      if forallb (fun b' => bool_decide (nrows b' = nrows b)) blocks
      then Ok (mkMat (sum_list (map ncols blocks))
                 (imap (fun i _ => concat (map (fun b' => default [] (rows b' !! i)) blocks))
                       (rows b)))
      else Raise ValueError
  end.

(** numpy broadcasting of an elementwise operation on two arrays. *)
Definition broadcast2 (f : Z → Z → Z) (u v : list Z) : res (list Z) :=
  if decide (length u = length v) then Ok (zip_with f u v)
  else match u, v with
       | [x], _ => Ok (map (f x) v)
       | _, [y] => Ok (map (fun x => f x y) u)
       | _, _ => Raise ValueError
       end.

Definition broadcast2b (f : Z → Z → bool) (u v : list Z) : res (list bool) :=
  if decide (length u = length v) then Ok (zip_with f u v)
  else match u, v with
       | [x], _ => Ok (map (f x) v)
       | _, [y] => Ok (map (fun x => f x y) u)
       | _, _ => Raise ValueError
       end.

(** * Forward-mode AD: Python objects

    Python passes references.  The objects live in a heap, a reference is a
    position in it, and a method is a function on heaps that also returns a
    value or raises; what it did to the heap before raising stays done. *)

Abbreviation addr := nat.

Inductive obj : Type :=
| ONum (x : Z)              (** a Python number *)
| OVec (a : list Z)         (** a numeric [np.ndarray] of one dimension *)
| OBools (b : list bool)    (** a boolean [np.ndarray] *)
| OMat (m : matrix)         (** a scipy sparse matrix *)
| OArr (cs : list addr)     (** an [np.ndarray] of objects: numbers or
                                matrices, never arrays *)
| OList (items : list addr) (** a Python list *)
| OAd (val jac : addr).     (** an [Ad_array] with its two attributes *)

Abbreviation heap := (list obj).

Definition M (A : Type) : Type := heap → res A * heap.

Definition ret {A} (a : A) : M A := fun h => (Ok a, h).
Definition raise {A} (e : exn) : M A := fun h => (Raise e, h).
Definition hbind {A B} (m : M A) (k : A → M B) : M B :=
  fun h => match m h with
           | (Ok a, h') => k a h'
           | (Raise e, h') => (Raise e, h')
           end.

Notation "'let*' x ':=' m 'in' k" := (hbind m (fun x => k))
  (at level 10, x pattern, m at level 100, k at level 200).

(** The result of a library call that does not touch the heap. *)
Definition lift {A} (r : res A) : M A := fun h => (r, h).

#[global] Instance exn_eq_dec : EqDecision exn.
Proof. solve_decision. Defined.

(** [try: m  except e: handler] *)
Definition try_except {A} (e : exn) (m handler : M A) : M A :=
  fun h => match m h with
           | (Raise e', h') => if decide (e' = e) then handler h' else (Raise e', h')
           | r => r
           end.

(** A new object, the object behind a reference, and a change in place. *)
Definition alloc (o : obj) : M addr := fun h => (Ok (length h), h ++ [o]).
Definition load (a : addr) : M obj := fun h => (of_option Unmodelled (h !! a), h).
Definition store (a : addr) (o : obj) : M unit := fun h => (Ok tt, <[a := o]> h).

(** A list comprehension whose body is a call. *)
Fixpoint for_list {A B} (f : A → M B) (l : list A) : M (list B) :=
  match l with
  | [] => ret []
  | x :: l' => let* y := f x in let* ys := for_list f l' in ret (y :: ys)
  end.

(** [isinstance] *)
Definition is_Ad (o : obj) : bool :=
  match o with OAd _ _ => true | _ => false end.
Definition is_ndarray (o : obj) : bool :=
  match o with OVec _ | OBools _ | OArr _ => true | _ => false end.
Definition is_number (o : obj) : bool :=
  match o with ONum _ => true | _ => false end.
Definition is_list (o : obj) : bool :=
  match o with OList _ => true | _ => false end.
Definition is_spmatrix (o : obj) : bool :=
  match o with OMat _ => true | _ => false end.

(** ** numpy and scipy on objects without references *)

(** [-x] *)
Definition neg_leaf (x : obj) : res obj :=
  match x with
  | ONum a => Ok (ONum (- a))
  | OVec v => Ok (OVec (map Z.opp v))
  | OMat A => Ok (OMat (mneg A))
  | OBools _ | OList _ => Raise TypeError
  | _ => Raise Unmodelled
  end.

(** [x + y]; a sparse matrix takes the number zero only. *)
Definition add_leaf (x y : obj) : res obj :=
  match x, y with
  | ONum a, ONum b => Ok (ONum (a + b))
  | ONum a, OVec v => Ok (OVec (map (Z.add a) v))
  | OVec v, ONum b => Ok (OVec (map (fun x => x + b)%Z v))
  | OVec u, OVec v => let! w := broadcast2 Z.add u v in Ok (OVec w)
  | OMat A, OMat B => let! C := madd A B in Ok (OMat C)
  | OMat A, ONum c | ONum c, OMat A =>
      if decide (c = 0%Z) then Ok (OMat A) else Raise NotImplementedError
  | _, _ => Raise Unmodelled
  end.

(** [x - y] on numbers and numeric arrays. *)
Definition sub_leaf (x y : obj) : res obj :=
  match x, y with
  | ONum a, ONum b => Ok (ONum (a - b))
  | ONum a, OVec v => Ok (OVec (map (Z.sub a) v))
  | OVec v, ONum b => Ok (OVec (map (fun x => x - b)%Z v))
  | OVec u, OVec v => let! w := broadcast2 Z.sub u v in Ok (OVec w)
  | _, _ => Raise Unmodelled
  end.

(** [x * y]: elementwise on numbers and arrays, the matrix product on
    sparse matrices. *)
Definition mul_leaf (x y : obj) : res obj :=
  match x, y with
  | ONum a, ONum b => Ok (ONum (a * b))
  | ONum a, OVec v => Ok (OVec (map (Z.mul a) v))
  | OVec v, ONum b => Ok (OVec (map (fun x => x * b)%Z v))
  | OVec u, OVec v => let! w := broadcast2 Z.mul u v in Ok (OVec w)
  | OMat A, OMat B => let! C := matmul A B in Ok (OMat C)
  | OMat A, ONum c | ONum c, OMat A => Ok (OMat (mscale c A))
  | OMat A, OVec v => let! w := matvec A v in Ok (OVec w)
  | _, _ => Raise Unmodelled
  end.

(** [x ** e] for exponents that are natural numbers. *)
Definition zpow (x e : Z) : Z := Z.pow x e.
Definition pow_leaf (x y : obj) : res obj :=
  match x, y with
  | ONum a, ONum e =>
      if decide (0 ≤ e)%Z then Ok (ONum (zpow a e)) else Raise Unmodelled
  | OVec v, ONum e =>
      if decide (0 ≤ e)%Z then Ok (OVec (map (fun x => zpow x e) v))
      else Raise Unmodelled
  | ONum a, OVec es =>
      if decide (Forall (fun e => 0 ≤ e)%Z es) then Ok (OVec (map (zpow a) es))
      else Raise Unmodelled
  | OVec v, OVec es =>
      if decide (Forall (fun e => 0 ≤ e)%Z es)
      then let! w := broadcast2 zpow v es in Ok (OVec w)
      else Raise Unmodelled
  | _, _ => Raise Unmodelled
  end.

(** [x < y] and the other comparisons, on numeric arrays. *)
Definition cmp_leaf (f : Z → Z → bool) (x y : obj) : res obj :=
  match x, y with
  | ONum a, OVec v => Ok (OBools (map (f a) v))
  | OVec v, ONum b => Ok (OBools (map (fun x => f x b) v))
  | OVec u, OVec v => let! w := broadcast2b f u v in Ok (OBools w)
  | _, _ => Raise Unmodelled
  end.

(** [np.f(x)] for a function [f] that numpy applies entry by entry. *)
Definition map_leaf (f : Z → Z) (x : obj) : res obj :=
  match x with
  | ONum a => Ok (ONum (f a))
  | OVec v => Ok (OVec (map f v))
  | _ => Raise Unmodelled
  end.

(** ** numpy and scipy on references: every call returns a new object *)

Definition unop (f : obj → res obj) (x : addr) : M addr :=
  let* ox := load x in
  let* o := lift (f ox) in
  alloc o.

Definition binop (f : obj → obj → res obj) (x y : addr) : M addr :=
  let* ox := load x in
  let* oy := load y in
  let* o := lift (f ox oy) in
  alloc o.

(** The components of an array of objects, each with a number or matrix. *)
Definition binop_arr (f : obj → obj → res obj) (cs : list addr) (y : obj)
  : M addr :=
  let* out := for_list (fun c =>
      let* oc := load c in
      let* o := lift (f oc y) in
      alloc o) cs in
  alloc (OArr out).

(** [-x]; on an array of objects numpy negates each component. *)
Definition py_neg (x : addr) : M addr :=
  let* ox := load x in
  match ox with
  | OArr cs => let* out := for_list (unop neg_leaf) cs in alloc (OArr out)
  | _ => unop neg_leaf x
  end.

(** [x + y]; an array of objects takes a number, added to each component. *)
Definition py_add (x y : addr) : M addr :=
  let* ox := load x in
  let* oy := load y in
  match ox, oy with
  | OArr cs, ONum _ => binop_arr add_leaf cs oy
  | OArr cs, OArr ds =>
      if decide (length cs = length ds)
      then let* out := for_list (fun cd => binop add_leaf (fst cd) (snd cd)) (zip cs ds) in
           alloc (OArr out)
      else raise Unmodelled
  | _, _ => binop add_leaf x y
  end.

Definition py_sub (x y : addr) : M addr := binop sub_leaf x y.

(** [x * y]; an array of objects takes a number or a matrix on its left,
    multiplied with each component. *)
Definition py_mul (x y : addr) : M addr :=
  let* ox := load x in
  let* oy := load y in
  match ox, oy with
  | OArr cs, ONum _ => binop_arr mul_leaf cs oy
  | ONum _, OArr cs => binop_arr (fun c n => mul_leaf n c) cs ox
  | _, _ => binop mul_leaf x y
  end.

Definition py_pow (x y : addr) : M addr := binop pow_leaf x y.
Definition py_cmp (f : Z → Z → bool) (x y : addr) : M addr := binop (cmp_leaf f) x y.
Definition np_map (f : Z → Z) (x : addr) : M addr := unop (map_leaf f) x.

(** [x.copy()]: a Python number has no such method, an array of objects is
    copied without its components, and so is a list. *)
Definition py_copy (x : addr) : M addr :=
  let* ox := load x in
  match ox with
  | ONum _ => raise AttributeError
  | OAd _ _ => raise Unmodelled
  | _ => alloc ox
  end.

(** [x.size]; a sparse matrix counts its stored entries, which the model
    does not keep. *)
Definition py_size (x : addr) : M nat :=
  let* ox := load x in
  match ox with
  | OVec a => ret (length a)
  | OBools b => ret (length b)
  | OArr cs => ret (length cs)
  | OMat _ => raise Unmodelled
  | _ => raise AttributeError
  end.

(** [sps.diags(a)]: a [TypeError] for what has no length. *)
Definition sps_diags (a : addr) : M addr :=
  let* oa := load a in
  match oa with
  | OVec v => alloc (OMat (diags v))
  | ONum _ | OMat _ | OAd _ _ => raise TypeError
  | _ => raise Unmodelled
  end.

(** ** [forward_mode.py] *)
Module forward_mode.

(** [Ad_array(val, jac)], [Ad_array(val)] and [Ad_array()]: the
    constructor keeps the references it is given; the defaults are the
    numbers 1.0 and 0.0. *)
Definition Ad_array (val jac : addr) : M addr := alloc (OAd val jac).
Definition Ad_array_1 (val : addr) : M addr :=
  let* jac := alloc (ONum 0) in Ad_array val jac.
Definition Ad_array_0 : M addr :=
  let* val := alloc (ONum 1) in Ad_array_1 val.

(** [self.val], [self.jac], [self.val = x] and [self.jac = x] *)
Definition get_val (self : addr) : M addr :=
  let* o := load self in
  match o with OAd v _ => ret v | _ => raise AttributeError end.
Definition get_jac (self : addr) : M addr :=
  let* o := load self in
  match o with OAd _ j => ret j | _ => raise AttributeError end.
Definition set_val (self x : addr) : M unit :=
  let* o := load self in
  match o with OAd _ j => store self (OAd x j) | _ => raise AttributeError end.
Definition set_jac (self x : addr) : M unit :=
  let* o := load self in
  match o with OAd v _ => store self (OAd v x) | _ => raise AttributeError end.

(** [_cast] *)
Definition _cast (variables : addr) : M addr :=
  let* o := load variables in
  match o with
  | OList items =>
      let* out_var := for_list (fun var =>
          let* ov := load var in
          if is_Ad ov then ret var else Ad_array_1 var) items in
      alloc (OList out_var)
  | OAd _ _ => ret variables
  | _ => Ad_array_1 variables
  end.

(** [Ad_array.copy] *)
Definition copy (self : addr) : M addr :=
  let* b := Ad_array_0 in
  let* sv := get_val self in
  let* v := try_except AttributeError (py_copy sv) (ret sv) in
  let* _ := set_val b v in
  let* sj := get_jac self in
  let* j := try_except AttributeError (py_copy sj) (ret sj) in
  let* _ := set_jac b j in
  ret b.

(** [Ad_array.__add__] and [Ad_array.__radd__] *)
Definition __add__ (self other : addr) : M addr :=
  let* b := _cast other in
  let* c := Ad_array_0 in
  let* sv := get_val self in
  let* bv := get_val b in
  let* v := py_add sv bv in
  let* _ := set_val c v in
  let* sj := get_jac self in
  let* bj := get_jac b in
  let* j := py_add sj bj in
  let* _ := set_jac c j in
  ret c.

Definition __radd__ (self other : addr) : M addr := __add__ self other.

(** [Ad_array.__neg__] *)
Definition __neg__ (self : addr) : M addr :=
  let* b := copy self in
  let* bv := get_val b in
  let* v := py_neg bv in
  let* _ := set_val b v in
  let* bj := get_jac b in
  let* j := py_neg bj in
  let* _ := set_jac b j in
  ret b.

(** [Ad_array.__sub__] and [Ad_array.__rsub__] *)
Definition __sub__ (self other : addr) : M addr :=
  let* b0 := _cast other in
  let* ob := load b0 in
  let* b := (if is_Ad ob then copy b0 else py_copy b0) in
  let* bv := get_val b in
  let* v := py_neg bv in
  let* _ := set_val b v in
  let* bj := get_jac b in
  let* j := py_neg bj in
  let* _ := set_jac b j in
  __add__ self b.

Definition __rsub__ (self other : addr) : M addr :=
  let* d := __sub__ self other in
  __neg__ d.

(** The comparisons [__lt__], [__le__], [__gt__], [__ge__], [__eq__] for
    the order [f]: the values only. *)
Definition compare (f : Z → Z → bool) (self other : addr) : M addr :=
  let* sv := get_val self in
  let* b := _cast other in
  let* bv := get_val b in
  py_cmp f sv bv.

(** [Ad_array.diagvec_mul_jac] *)
Definition diagvec_mul_jac (self a : addr) : M addr :=
  let* A := try_except TypeError (sps_diags a) (ret a) in
  let* sj := get_jac self in
  let* oj := load sj in
  if is_ndarray oj then
    match oj with
    | OArr cs =>
        let* out := for_list (fun J => binop mul_leaf A J) cs in
        alloc (OArr out)
    | _ => raise Unmodelled
    end
  else py_mul A sj.

(** [Ad_array._jac_mul_other] and [Ad_array._other_mul_jac] *)
Definition _jac_mul_other (self other : addr) : M addr :=
  let* sj := get_jac self in py_mul sj other.
Definition _other_mul_jac (self other : addr) : M addr :=
  let* sj := get_jac self in py_mul other sj.

(** [Ad_array.__mul__] *)
Definition __mul__ (self other : addr) : M addr :=
  let* oo := load other in
  if negb (is_Ad oo) then
    let* sv := get_val self in
    let* val := py_mul sv other in
    let* jac := (if is_ndarray oo then diagvec_mul_jac self other
                 else _jac_mul_other self other) in
    Ad_array val jac
  else
    let* sv := get_val self in
    let* ov := get_val other in
    let* val := py_mul sv ov in
    let* j1 := diagvec_mul_jac self ov in
    let* j2 := diagvec_mul_jac other sv in
    let* jac := py_add j1 j2 in
    Ad_array val jac.

(** [Ad_array.__rmul__] *)
Definition __rmul__ (self other : addr) : M addr :=
  let* oo := load other in
  if is_Ad oo then raise RuntimeError
  else
    let* sv := get_val self in
    let* val := py_mul other sv in
    let* jac := _other_mul_jac self other in
    Ad_array val jac.

(** [Ad_array.__pow__] for an exponent that is a number or an array.  Its
    three branches differ in how they turn the exponent into a float,
    which exact numbers do not show; the branches for an [Ad_array]
    exponent need a logarithm. *)
Definition __pow__ (self other : addr) : M addr :=
  let* oo := load other in
  if negb (is_Ad oo) then
    let* sv := get_val self in
    let* val := py_pow sv other in
    let* one := alloc (ONum 1) in
    let* e := py_sub other one in
    let* p := py_pow sv e in
    let* d := py_mul other p in
    let* jac := diagvec_mul_jac self d in
    Ad_array val jac
  else raise Unmodelled.

(** [Ad_array.__len__] *)
Definition __len__ (self : addr) : M nat :=
  let* sv := get_val self in
  let* o := load sv in
  match o with
  | OVec a => ret (length a)
  | OBools b => ret (length b)
  | OArr cs => ret (length cs)
  | OList l => ret (length l)
  | ONum _ => raise TypeError
  | _ => raise Unmodelled
  end.

(** [Ad_array.full_jac] *)
Definition full_jac (self : addr) : M addr := get_jac self.

(** The Jacobian of the [i]-th variable among variables of the sizes
    [num_val]: [jac = [sps.csc_matrix((n, m)) for m in num_val]], then
    [jac[i] = sps.diags(np.ones(num_val[i])).tocsc()], and
    [sps.bmat([jac])]. *)
Definition seed_jac (num_val : list nat) (i n : nat) : res matrix :=
  let jac := map (zero_matrix n) num_val in
  bmat_row (<[i := diags (ones n)]> jac).

(** [initAdArrays] *)
Definition initAdArrays (variables : addr) : M addr :=
  let* o := load variables in
  match o with
  | OList items =>
      let* num_val := for_list py_size items in
      let* ad_arrays := for_list (fun '(i, val) =>
          let* n := lift (of_option IndexError (num_val !! i)) in
          let* J := lift (seed_jac num_val i n) in
          let* jac := alloc (OMat J) in
          Ad_array val jac) (imap (fun i val => (i, val)) items) in
      alloc (OList ad_arrays)
  | _ =>
      let* num_val := try_except AttributeError (py_size variables) (ret 1) in
      let* jac := alloc (OMat (diags (ones num_val))) in
      Ad_array variables jac
  end.

End forward_mode.

(** ** [functions.py] *)
Module functions.
Import forward_mode.

(** The functions [exp], [log], [sin], [cos], [tan], [arcsin], [arccos],
    [arctan], [sinh], [cosh], [tanh], [arcsinh], [arccosh], [arctanh] and
    [heaviside_smooth] have one body: with [f] the numpy function and [g]
    the multiplier of the derivative,
    [val = f(var.val); jac = var.diagvec_mul_jac(g(var.val))] on an
    [Ad_array], and [f(var)] on anything else. *)
Definition elementary (f g : Z → Z) (var : addr) : M addr :=
  let* o := load var in
  if is_Ad o then
    let* sv := get_val var in
    let* val := np_map f sv in
    let* d := np_map g sv in
    let* jac := diagvec_mul_jac var d in
    Ad_array val jac
  else np_map f var.

(** [sign] *)
Definition sign (var : addr) : M addr :=
  let* o := load var in
  if negb (is_Ad o) then np_map Z.sgn var
  else let* sv := get_val var in np_map Z.sgn sv.

(** [abs] *)
Definition abs (var : addr) : M addr :=
  let* o := load var in
  if is_Ad o then
    let* sv := get_val var in
    let* val := np_map Z.abs sv in
    let* d := sign var in
    let* jac := diagvec_mul_jac var d in
    Ad_array val jac
  else np_map Z.abs var.

(** [heaviside]: a plain array in both cases. *)
Definition np_heaviside (zerovalue x : Z) : Z :=
  if (x <? 0)%Z then 0%Z else if (x =? 0)%Z then zerovalue else 1%Z.
Definition heaviside (var : addr) (zerovalue : Z) : M addr :=
  let* o := load var in
  if is_Ad o then let* sv := get_val var in np_map (np_heaviside zerovalue) sv
  else np_map (np_heaviside zerovalue) var.

(** [x.shape] of a sparse matrix *)
Definition shape (x : addr) : M (nat * nat) :=
  let* o := load x in
  match o with
  | OMat m => ret (nrows m, ncols m)
  | ONum _ | OList _ | OAd _ _ => raise AttributeError
  | _ => raise Unmodelled
  end.

(** [sps.csr_matrix(x.jac.shape)] *)
Definition zero_like_jac (x : addr) : M addr :=
  let* j := get_jac x in
  let* sh := shape j in
  alloc (OMat (zero_matrix (fst sh) (snd sh))).

(** [np.ones_like(x)] *)
Definition ones_like_leaf (x : obj) : res obj :=
  match x with
  | ONum _ => Ok (ONum 1)
  | OVec a => Ok (OVec (ones (length a)))
  | _ => Raise Unmodelled
  end.

(** [np.maximum(x, y)] and [np.max([x, y])] *)
Definition max_leaf (x y : obj) : res obj :=
  match x, y with
  | ONum a, ONum b => Ok (ONum (Z.max a b))
  | ONum a, OVec v => Ok (OVec (map (Z.max a) v))
  | OVec v, ONum b => Ok (OVec (map (fun x => Z.max x b) v))
  | OVec u, OVec v => let! w := broadcast2 Z.max u v in Ok (OVec w)
  | _, _ => Raise Unmodelled
  end.

(** [a[inds] = b[inds]] for a boolean array [inds] *)
Definition mask_assign (a : list Z) (inds : list bool) (b : list Z)
  : res (list Z) :=
  if decide (length inds = length a ∧ length inds = length b)
  then Ok (zip_with (fun (i : bool) (xy : Z * Z) => if i then snd xy else fst xy)
             inds (zip a b))
  else Raise IndexError.

Definition set_mask (a inds b : addr) : M unit :=
  let* oa := load a in
  let* oi := load inds in
  let* ob := load b in
  match oa, oi, ob with
  | OVec x, OBools i, OVec y =>
      let* z := lift (mask_assign x i y) in store a (OVec z)
  | _, _, _ => raise Unmodelled
  end.

(** [inds.nonzero()[0]] *)
Definition nonzero (inds : list bool) : list nat :=
  omap (fun '(i, b) => if b : bool then Some i else None)
       (imap (fun i b => (i, b)) inds).

(** Modelled from the spec: [pp.matrix_operations.slice_mat(A, ind)] is
    not among the files at hand; it returns the rows [ind] of [A]. *)
Definition slice_mat (A : matrix) (ind : list nat) : res matrix :=
  let! picked := of_option IndexError (mapM (fun i => rows A !! i) ind) in
  Ok (mkMat (ncols A) picked).

(** Modelled from the spec: [pp.matrix_operations.merge_matrices(A, B,
    lines, matrix_format)] is not among the files at hand.  With the
    format ["csr"], storage by rows, it replaces, in place, the rows
    [lines] of [A] by the rows of [B]: this is the selection of rows that
    the specification and the docstring of [maximum] describe.  What it
    does with the format ["csc"], storage by columns, is written nowhere;
    the model leaves that call out. *)
Fixpoint replace_rows (A : list (list Z)) (lines : list nat)
    (B : list (list Z)) : res (list (list Z)) :=
  match lines, B with
  | i :: lines', b :: B' =>
      if decide (i < length A) then replace_rows (<[i := b]> A) lines' B'
      else Raise IndexError
  | [], [] => Ok A
  | _, _ => Raise ValueError
  end.
Definition merge_matrices_rows (A B : matrix) (lines : list nat) : res matrix :=
  if decide (ncols A = ncols B)
  then let! r := replace_rows (rows A) lines (rows B) in Ok (mkMat (ncols A) r)
  else Raise ValueError.
Definition merge_matrices (A B : addr) (lines : list nat)
    (matrix_format : string) : M unit :=
  let* oa := load A in
  let* ob := load B in
  match oa, ob with
  | OMat a, OMat b =>
      if decide (matrix_format = "csr") then
        let* m := lift (merge_matrices_rows a b lines) in store A (OMat m)
      else raise Unmodelled
  | _, _ => raise Unmodelled
  end.

(** [x.tocsr()] for a sparse matrix [x] that is stored in the format
    [format]: the matrix itself when it is stored as csr, and a new matrix
    with the same entries else. *)
Definition tocsr (format : string) (x : addr) : M addr :=
  let* ox := load x in
  match ox with
  | OMat A => if decide (format = "csr") then ret x else alloc (OMat A)
  | ONum _ | OVec _ | OBools _ | OArr _ | OList _ | OAd _ _ =>
      raise AttributeError
  end.

(** [maximum].  The heap keeps the entries of a sparse matrix and not its
    storage format: [getformat j] is the format in which the matrix at
    [j], the Jacobian of an operand, is stored when the call is made.  The
    fall-back [zero_jac] is a [csr_matrix], [copy] keeps the format, and
    [max_jac.getformat()] in the call of [merge_matrices] is ["csc"] for
    a Jacobian stored as csc and ["csr"] after [tocsr] else. *)
Definition maximum (getformat : addr → string) (var_0 var_1 : addr) : M addr :=
  let* o0 := load var_0 in
  let* o1 := load var_1 in
  if negb (is_Ad o0) && negb (is_Ad o1) then binop max_leaf var_0 var_1
  else
    let* zero_jac :=
      (if is_Ad o0 then zero_like_jac var_0
       else if is_Ad o1 then zero_like_jac var_1
       else alloc (ONum 0)) in
    let* v0 := (if is_Ad o0 then get_val var_0 else ret var_0) in
    let* j0 := (if is_Ad o0 then get_jac var_0 else ret zero_jac) in
    let* v1 := (if is_Ad o1 then get_val var_1 else ret var_1) in
    let* j1 := (if is_Ad o1 then get_jac var_1 else ret zero_jac) in
    let* ov0 := load v0 in
    let* ov1 := load v1 in
    if is_number ov0 && is_number ov1 then
      let* val := binop max_leaf v0 v1 in
      let* z := alloc (ONum 0) in
      Ad_array val z
    else
      let* v0 := (if is_number ov0 then ret v0
                  else let* e := unop ones_like_leaf v1 in py_mul e v0) in
      let* v1 := (if is_number ov1
                  then let* e := unop ones_like_leaf v0 in py_mul e v1
                  else ret v1) in
      let* inds := py_cmp Z.geb v1 v0 in
      let* max_val := py_copy v0 in
      let* _ := set_mask max_val inds v1 in
      let* oj0 := load j0 in
      match oj0 with
      | ONum c =>
          let* oj1 := load j1 in
          match oj1 with
          | ONum d =>
              if decide (c = 0 ∧ d = 0)%Z
              then let* z := alloc (ONum 0) in Ad_array max_val z
              else raise AssertionError
          | _ => raise Unmodelled
          end
      | _ =>
          let* max_jac := py_copy j0 in
          let format_0 := if is_Ad o0 then getformat j0 else "csr" in
          let format_1 := if is_Ad o1 then getformat j1 else "csr" in
          let* om := load max_jac in
          let* oi := load inds in
          match om, oi with
          | OMat _, OBools i =>
              let* max_jac :=
                (if negb (bool_decide (format_0 = "csc"))
                 then tocsr format_0 max_jac else ret max_jac) in
              let format :=
                if bool_decide (format_0 = "csc") then "csc" else "csr" in
              let* j1_csr := tocsr format_1 j1 in
              let* oj1 := load j1_csr in
              match oj1 with
              | OMat B =>
                  let* L := lift (slice_mat B (nonzero i)) in
                  let* lines := alloc (OMat L) in
                  let* _ := merge_matrices max_jac lines (nonzero i) format in
                  Ad_array max_val max_jac
              | _ => raise Unmodelled
              end
          | _, _ => raise Unmodelled
          end
      end.

(** [characteristic_function] *)
Definition characteristic_function (tol : Z) (var : addr) : M addr :=
  let* sv := get_val var in
  let* o := load sv in
  match o with
  | OVec x =>
      let* vals := alloc (OVec (replicate (length x) 0%Z)) in
      let zero_inds := map (fun x => (Z.abs x <=? tol)%Z) x in
      let* _ := store vals (OVec (map (fun i : bool => if i then 1%Z else 0%Z) zero_inds)) in
      let* jac := zero_like_jac var in
      Ad_array vals jac
  | _ => raise Unmodelled
  end.

End functions.

(** ** What it means for a call to have gone well

    [wp m Q E h]: from the heap [h], the call [m] returns a value and a heap
    that satisfy [Q], or raises and leaves a heap that satisfies [E]. *)
Definition wp {A} (m : M A) (Q : A → heap → Prop) (E : heap → Prop) (h : heap)
  : Prop :=
  match m h with
  | (Ok a, h') => Q a h'
  | (Raise _, h') => E h'
  end.

(** An object that is no array of objects. *)
Definition plain (o : obj) : Prop :=
  match o with OArr _ => False | _ => True end.

(** A heap with one seeded [Ad_array], at address 2. *)
Definition mul_heap : heap :=
  [OVec [3; 5]%Z; OMat (diags (ones 2)); OAd 0 1].

(** The heaps of the seeding scenario: the list of two one-entry arrays
    [3] and [4] and the exponent 2; and the list of the two Python
    numbers 3 and 4. *)
Definition seed_heap : heap :=
  [OVec [3]%Z; OVec [4]%Z; OList [0; 1]; ONum 2].
Definition seed_heap_numbers : heap :=
  [ONum 3; ONum 4; OList [0; 1]; ONum 2].

(** [y = x ** 2] for the first array [x] that [initAdArrays] returns. *)
Definition seed_and_square (variables exponent : addr) : M (addr * addr) :=
  let* l := forward_mode.initAdArrays variables in
  let* ol := load l in
  match ol with
  | OList (x :: _) => let* y := forward_mode.__pow__ x exponent in ret (x, y)
  | _ => raise TypeError
  end.

(** The value and the Jacobian of an [Ad_array], read from the heap. *)
Definition read_ad (h : heap) (a : addr) : option (obj * obj) :=
  match h !! a with
  | Some (OAd v j) =>
      match h !! v, h !! j with
      | Some ov, Some oj => Some (ov, oj)
      | _, _ => None
      end
  | _ => None
  end.

(** Row [r] of the Jacobian that seeds variable [i] of size [n]: zero but
    for a one at column [r] of the block of the variable. *)
Definition seed_row (num_val : list nat) (i n r : nat) : list Z :=
  replicate (sum_list (take i num_val)) 0%Z
  ++ <[r := 1%Z]> (replicate n 0%Z)
  ++ replicate (sum_list (drop (S i) num_val)) 0%Z.

(** A heap with an [Ad_array], at address 3, whose Jacobian is an array of
    one component matrix, at address 1; and another matrix, at address 4. *)
Definition copy_heap : heap :=
  [OVec [1]%Z; OMat (mkMat 1 [[5]%Z]); OArr [1]; OAd 0 2; OMat (mkMat 1 [[7]%Z])].

(** [b = a.copy()], then the first component of [b.jac] is changed in
    place: its rows [lines] are replaced by those of the matrix [B], as
    [merge_matrices] does it for matrices that are stored as csr. *)
Definition copy_then_change (a B : addr) (lines : list nat) : M addr :=
  let* b := forward_mode.copy a in
  let* bj := forward_mode.get_jac b in
  let* o := load bj in
  match o with
  | OArr (c :: _) => let* _ := functions.merge_matrices c B lines "csr" in ret c
  | _ => raise TypeError
  end.


Fixpoint picked {X} (inds : list bool) (B : list X) : list X :=
  match inds, B with
  | b :: inds', x :: B' => if b then x :: picked inds' B' else picked inds' B'
  | _, _ => []
  end.



(** ** Storage that a call has made itself *)

(** A number, a numeric or boolean array, a matrix: no reference inside. *)
Definition is_leaf (o : obj) : bool :=
  match o with
  | ONum _ | OVec _ | OBools _ | OMat _ => true
  | _ => false
  end.

(** [a] holds a value or a Jacobian none of whose storage was there when
    the heap had [n] objects: an object without references at an address
    from [n] on, or an array at such an address whose components are such
    objects. *)
Definition fresh_field (n : nat) (h : heap) (a : addr) : Prop :=
  n ≤ a ∧ ∃ o, h !! a = Some o ∧
    match o with
    | OArr cs =>
        Forall (fun c => n ≤ c ∧ ∃ oc, h !! c = Some oc ∧ is_leaf oc = true) cs
    | OList _ | OAd _ _ => False
    | _ => True
    end.

(** The result of an operator: such a value, or an [Ad_array] at an
    address from [n] on whose value and Jacobian are such. *)
Definition fresh_result (n : nat) (h : heap) (r : addr) : Prop :=
  fresh_field n h r
  ∨ (n ≤ r ∧ ∃ v j, h !! r = Some (OAd v j)
             ∧ fresh_field n h v ∧ fresh_field n h j).

(** The operators of [Ad_array] and the functions of [functions.py], with
    their operands. *)
Inductive call : Type :=
| Add (self other : addr)
| Radd (self other : addr)
| Sub (self other : addr)
| Rsub (self other : addr)
| Neg (self : addr)
| Mul (self other : addr)
| Rmul (self other : addr)
| Pow (self other : addr)
| Compare (f : Z → Z → bool) (self other : addr)
| Elementary (f g : Z → Z) (var : addr)
| Sign (var : addr)
| Abs (var : addr)
| Heaviside (var : addr) (zerovalue : Z)
| Maximum (getformat : addr → string) (var_0 var_1 : addr)
| Characteristic (tol : Z) (var : addr).

Definition run (c : call) : M addr :=
  match c with
  | Add self other => forward_mode.__add__ self other
  | Radd self other => forward_mode.__radd__ self other
  | Sub self other => forward_mode.__sub__ self other
  | Rsub self other => forward_mode.__rsub__ self other
  | Neg self => forward_mode.__neg__ self
  | Mul self other => forward_mode.__mul__ self other
  | Rmul self other => forward_mode.__rmul__ self other
  | Pow self other => forward_mode.__pow__ self other
  | Compare f self other => forward_mode.compare f self other
  | Elementary f g var => functions.elementary f g var
  | Sign var => functions.sign var
  | Abs var => functions.abs var
  | Heaviside var zerovalue => functions.heaviside var zerovalue
  | Maximum getformat var_0 var_1 => functions.maximum getformat var_0 var_1
  | Characteristic tol var => functions.characteristic_function tol var
  end.

(** A call that only adds objects to the heap, whatever it returns; and one
    that returns a new [Ad_array]. *)
Definition grows {A} (m : M A) : Prop :=
  ∀ h, wp m (fun _ h' => h `prefix_of` h') (fun h' => h `prefix_of` h') h.

(** A heap with two [Ad_array]s, [a] at address 2 and [b] at address 5. *)
Definition sub_heap : heap :=
  [OVec [3; 5]%Z; OMat (diags (ones 2)); OAd 0 1;
   OVec [1; 2]%Z; OMat (diags [2; 2]%Z); OAd 3 4].

(** ** More of [DofManager] *)

(** [DofManager._block_range_from_grid_and_var] *)
Definition _block_range_from_grid_and_var (dm : DofManager) (g : GridLike)
    (variable : string) : res (nat * nat) :=
  let! block_ind := of_option KeyError (dict_get (g, variable) (block_dof dm)) in
  let! a := of_option IndexError (dof_start dm !! block_ind) in
  let! b := of_option IndexError (dof_start dm !! (block_ind + 1)) in
  Ok (a, b).

(** [DofManager._dof_range_from_grid_and_var] *)
Definition _dof_range_from_grid_and_var (dm : DofManager) (g : GridLike)
    (variable : string) : res (list nat) :=
  let! block_range := _block_range_from_grid_and_var dm g variable in
  Ok (arange (fst block_range) (snd block_range)).

(** The dofs of the blocks of the keys [keys], one block after the other. *)
Definition blocks_in_order (dm : DofManager) (keys : list (GridLike * string))
  : res (list nat) :=
  for_each (fun dofs '(g, var) =>
      let! d := grid_and_variable_to_dofs dm g var in Ok (dofs ++ d)) keys [].

(** Modelled from the spec: [pp.ad.Variable] is defined outside the files
    at hand.  Of an argument [dofs_of] asks whether it is a [Variable], and
    of a [Variable] it reads [domain] and [name]. *)
Inductive pyarg : Type :=
| AdVariable (domain : GridLike) (name : string)
| NoVariable.

Definition is_Variable (v : pyarg) : bool :=
  match v with AdVariable _ _ => true | NoVariable => false end.

(** [DofManager.dofs_of] *)
Definition dofs_of (dm : DofManager) (variables : list pyarg) : res (list nat) :=
  if negb (forallb is_Variable variables) then Raise ValueError
  else
    let! dofs := for_each (fun dofs v =>
        match v with
        | AdVariable domain name =>
            let! d := grid_and_variable_to_dofs dm domain name in
            Ok (dofs ++ [d])
        | NoVariable => Raise AttributeError
        end) variables [] in
    if decide (0 < length dofs) then Ok (concat dofs) else Ok [].

(** [matrix_format((data, (row, col)), shape=(n, m))], the constructor of
    a sparse matrix from its entries: entries at one position are summed;
    scipy refuses lists of different lengths and a position outside the
    shape. *)
Definition coo_entry (data : list Z) (row col : list nat) (i j : nat) : Z :=
  foldr Z.add 0%Z
    (map (fun e => if decide (e.2.1 = i ∧ e.2.2 = j) then e.1 else 0%Z)
         (zip data (zip row col))).

Definition coo_matrix (data : list Z) (row col : list nat) (n m : nat)
  : res matrix :=
  if decide (length row = length data ∧ length col = length data) then
    if forallb (fun i => bool_decide (i < n)) row
       && forallb (fun j => bool_decide (j < m)) col
    then Ok (mkMat m (map (fun i => map (coo_entry data row col i) (seq 0 m))
                          (seq 0 n)))
    else Raise ValueError
  else Raise ValueError.

(** The grids of [dof_var]:
    [[sd for sd in self.mdg.subdomains()] + [intf for intf in self.mdg.interfaces()]] *)
Definition mdg_grids (mdg : MixedDimensionalGrid) : list GridLike :=
  map (fun e => Sd (fst e)) (subdomains mdg)
  ++ map (fun e => Intf (fst e)) (interfaces mdg).

(** One turn of the inner loop of [dof_var]; [dof_start] is computed once,
    before the loops. *)
Definition dof_var_body (dm : DofManager) (dofs : list nat)
    (p : GridLike * string) : res (list nat) :=
  let '(g, v) := p in
  if dict_mem (g, v) (block_dof dm) then
    let! block_ind := of_option KeyError (dict_get (g, v) (block_dof dm)) in
    let! a := of_option IndexError (dof_start dm !! block_ind) in
    let! b := of_option IndexError (dof_start dm !! (block_ind + 1)) in
    Ok (dofs ++ arange a b)
  else Ok dofs.

(** [DofManager.dof_var]; [var] is a name or a list of names, and the
    projection is built on request, with the shape
    [(dofs.size, np.sum(self.full_dof))].  The storage format of the
    projection is not kept. *)
Definition dof_var (dm : DofManager) (mdg : MixedDimensionalGrid)
    (var : string + list string) (return_projection : bool)
  : res (list nat * option matrix) :=
  let var := match var with inl name => [name] | inr names => names end in
  let! dofs := for_each (dof_var_body dm) (product (mdg_grids mdg) var) [] in
  if return_projection then
    let! m := as_size (np_sum (full_dof dm)) in
    let! projection :=
      coo_matrix (ones (length dofs)) (arange 0 (length dofs)) dofs
                 (length dofs) m in
    Ok (dofs, Some projection)
  else Ok (dofs, None).

(** What [grid_and_variable_block_range] returns for [return_str=False]:
    a dictionary whose keys depend on [sort_by]. *)
Inductive block_ranges : Type :=
| ByGrid (pairs : list (GridLike * list (string * (nat * nat))))
| ByVariable (pairs : list (string * list (GridLike * (nat * nat))))
| Unsorted (pairs : list ((GridLike * string) * (nat * nat))).

(** [DofManager.grid_and_variable_block_range] with [return_str=False];
    the text that [return_str=True] builds from the dictionary is left
    out. *)
Definition grid_and_variable_block_range (dm : DofManager)
    (grids : option (list GridLike)) (variables : option (list string))
    (sort_by : string) : res block_ranges :=
  let grids := default (all_grids dm) grids in
  let variables := default (all_variables dm) variables in
  if decide (sort_by = "grids") then
    let! pairs := for_each (fun pairs g =>
        let! this_g := for_each (fun this_g var =>
            if dict_mem (g, var) (block_dof dm) then
              let! r := _block_range_from_grid_and_var dm g var in
              Ok (dict_set var r this_g)
            else Ok this_g) variables [] in
        Ok (dict_set g this_g pairs)) grids [] in
    Ok (ByGrid pairs)
  else if decide (sort_by = "variables") then
    let! pairs := for_each (fun pairs var =>
        let! this_var := for_each (fun this_var g =>
            if dict_mem (g, var) (block_dof dm) then
              let! r := _block_range_from_grid_and_var dm g var in
              Ok (dict_set g r this_var)
            else Ok this_var) grids [] in
        Ok (dict_set var this_var pairs)) variables [] in
    Ok (ByVariable pairs)
  else if decide (sort_by = "") then
    let! pairs := for_each (fun pairs '(g, var) =>
        if dict_mem (g, var) (block_dof dm) then
          let! r := _block_range_from_grid_and_var dm g var in
          Ok (dict_set (g, var) r pairs)
        else Ok pairs) (product grids variables) [] in
    Ok (Unsorted pairs)
  else Raise ValueError.

(** The range of the block of a pair, if the pair is registered. *)
Definition block_range (dm : DofManager) (g : GridLike) (var : string)
  : option (nat * nat) :=
  match dict_get (g, var) (block_dof dm) with
  | Some j => Some (block_start dm j, block_start dm (S j))
  | None => None
  end.

(** What [__init__] reads of a grid: its subdomains and interfaces, in
    order, each with its declared variables. *)
Definition declarations (mdg : MixedDimensionalGrid)
  : list (Grid * option (list (string * gmap string nat)))
    * list (MortarGrid * option (list (string * gmap string nat))) :=
  (map (fun e => (fst e, primary_variables (snd e))) (subdomains mdg),
   map (fun e => (fst e, primary_variables (snd e))) (interfaces mdg)).

(** No grid has a state yet. *)
Definition no_state (mdg : MixedDimensionalGrid) : Prop :=
  ∀ g dat, grid_data mdg g = Ok dat → state dat = None.

(** The iterates stored on a grid, [data[pp.STATE][pp.ITERATE]]; empty
    when there are none. *)
Definition iterate_of (mdg : MixedDimensionalGrid) (g : GridLike)
  : gmap string (list Z) :=
  match slot mdg g ITERATE with
  | Some (Dict d) => d
  | _ => ∅
  end.

(** No grid stores an array under the key of the iterates. *)
Definition iterate_free (mdg : MixedDimensionalGrid) : Prop :=
  ∀ g a, slot mdg g ITERATE ≠ Some (Arr a).

(** A heap with one seeded [Ad_array], at address 2, and the number 2, at
    address 3. *)
Definition seed_heap_scaled : heap :=
  [OVec [3; 5]%Z; OMat (diags (ones 2)); OAd 0 1; ONum 2].

(** [RegularizedHeaviside.__call__]; [regularization] is the function the
    object was built with.  [np.heaviside] needs two arguments, so that
    the call [np.heaviside(var)] of the second branch is a [TypeError]. *)
Definition RegularizedHeaviside (regularization : addr → M addr)
    (var : addr) (zerovalue : Z) : M addr :=
  let* o := load var in
  if is_Ad o then
    let* sv := forward_mode.get_val var in
    let* val := np_map (functions.np_heaviside 0) sv in
    let* regularization := regularization var in
    let* jac := forward_mode.get_jac regularization in
    forward_mode.Ad_array val jac
  else raise TypeError.

(** A heap with the number 4, at address 0, and an [Ad_array], at
    address 3. *)
Definition number_heap : heap :=
  [ONum 4; OVec [3; 5]%Z; OMat (diags (ones 2)); OAd 1 2].

(** [Ad_array.jac_mul_diagvec] *)
Definition jac_mul_diagvec (self a : addr) : M addr :=
  let* A := try_except TypeError (sps_diags a) (ret a) in
  let* sj := forward_mode.get_jac self in
  let* oj := load sj in
  if is_ndarray oj then
    match oj with
    | OArr cs =>
        let* out := for_list (fun J => binop mul_leaf J A) cs in
        alloc (OArr out)
    | _ => raise Unmodelled
    end
  else py_mul sj A.

(** * Properties *)

(** ** Results and loops *)

Lemma for_each_app {S X} (body : S → X → res S) (xs ys : list X) (s : S) :
  for_each body (xs ++ ys) s
  = let! s' := for_each body xs s in for_each body ys s'.
Proof.
  revert s. induction xs as [|x xs IH]; intros s; simpl; [done|].
  destruct (body s x); simpl; auto.
Qed.

Lemma bind_Ok {A B} (a : A) (k : A → res B) : bind (Ok a) k = k a.
Proof. done. Qed.

Lemma for_each_snoc {S X} (body : S → X → res S) (xs : list X) (x : X) (s : S) :
  for_each body (xs ++ [x]) s = let! s' := for_each body xs s in body s' x.
Proof.
  rewrite for_each_app. destruct (for_each body xs s) as [s'|]; simpl; [|done].
  by destruct (body s' x).
Qed.

(** A loop keeps an invariant that each turn keeps, and then returns. *)
Lemma for_each_inv {S X} (body : S → X → res S) (I : S → Prop) (P : X → Prop)
    (xs : list X) (s : S) :
  (∀ s x, I s → P x → ∃ s', body s x = Ok s' ∧ I s') →
  Forall P xs → I s → ∃ s', for_each body xs s = Ok s' ∧ I s'.
Proof.
  intros Hstep HP. revert s.
  induction HP as [|x xs Hx _ IH]; intros s Hs; simpl; [eauto|].
  destruct (Hstep s x Hs Hx) as (s' & -> & Hs'). simpl. auto.
Qed.

(** ** Dictionaries *)
Section DictFacts.
Context {K V : Type} `{EqDecision K}.
Implicit Types (k : K) (v : V) (d : list (K * V)).

Lemma dict_get_set_eq k v d : dict_get k (dict_set k v d) = Some v.
Proof.
  induction d as [|[k' v'] d IH]; simpl.
  - by rewrite decide_True.
  - destruct (decide (k = k')) as [->|Hne]; simpl.
    + by rewrite decide_True.
    + by rewrite decide_False.
Qed.

Lemma dict_get_set_ne k k' v d :
  k ≠ k' → dict_get k' (dict_set k v d) = dict_get k' d.
Proof.
  intros Hne. induction d as [|[k0 v0] d IH]; simpl.
  - rewrite decide_False; [done | congruence].
  - destruct (decide (k = k0)) as [->|Hne0]; simpl.
    + rewrite !decide_False; [done | congruence | congruence].
    + destruct (decide (k' = k0)); [done | apply IH].
Qed.

Lemma dict_get_None k d : dict_get k d = None ↔ k ∉ map fst d.
Proof.
  induction d as [|[k' v'] d IH]; simpl.
  - split; [intros _; apply not_elem_of_nil | done].
  - rewrite not_elem_of_cons. destruct (decide (k = k')) as [->|Hne].
    + split; [done | intros [? _]; done].
    + rewrite IH. tauto.
Qed.

Lemma dict_get_Some_elem k v d : dict_get k d = Some v → (k, v) ∈ d.
Proof.
  induction d as [|[k' v'] d IH]; simpl; [done|].
  destruct (decide (k = k')) as [->|Hne].
  - intros [= ->]. apply elem_of_cons; auto.
  - intros H'. apply elem_of_cons; auto.
Qed.

Lemma dict_set_fresh k v d : dict_get k d = None → dict_set k v d = d ++ [(k, v)].
Proof.
  induction d as [|[k' v'] d IH]; simpl; [done|].
  destruct (decide (k = k')); [done|]. intros H'. by rewrite IH.
Qed.

Lemma dict_set_keys k v d :
  is_Some (dict_get k d) → map fst (dict_set k v d) = map fst d.
Proof.
  induction d as [|[k' v'] d IH]; simpl.
  - intros [? ?]; done.
  - destruct (decide (k = k')) as [->|Hne]; simpl; [done|].
    intros H'. by rewrite IH.
Qed.

Lemma dict_get_app k d1 d2 :
  dict_get k (d1 ++ d2)
  = match dict_get k d1 with Some v => Some v | None => dict_get k d2 end.
Proof.
  induction d1 as [|[k' v'] d1 IH]; simpl; [done|].
  destruct (decide (k = k')); [done | apply IH].
Qed.

Lemma dict_mem_true k d : dict_mem k d = true ↔ is_Some (dict_get k d).
Proof.
  unfold dict_mem. destruct (dict_get k d); split; eauto.
  - done.
  - intros [? ?]; done.
Qed.
End DictFacts.

(** The dictionary that numbers distinct keys from [a] on. *)
Lemma dict_get_zip_seq {K} `{EqDecision K} (keys : list K) (a j : nat) (k : K) :
  NoDup keys → keys !! j = Some k →
  dict_get k (zip keys (seq a (length keys))) = Some (a + j).
Proof.
  intros Hnd. revert a j. induction Hnd as [|k0 keys Hnotin Hnd IH]; intros a j Hj.
  - done.
  - simpl. destruct j as [|j]; simpl in Hj.
    + injection Hj as ->. rewrite decide_True; [f_equal; lia | done].
    + rewrite decide_False.
      * rewrite (IH (S a) j Hj). f_equal; lia.
      * intros ->. apply Hnotin. eapply list_elem_of_lookup_2; eauto.
Qed.

Lemma dict_get_zip_seq_inv {K} `{EqDecision K} (keys : list K) (a m : nat) (k : K) :
  dict_get k (zip keys (seq a (length keys))) = Some m →
  ∃ j, m = a + j ∧ keys !! j = Some k.
Proof.
  revert a. induction keys as [|k0 keys IH]; intros a; simpl; [done|].
  destruct (decide (k = k0)) as [->|Hne].
  - intros [= <-]. exists 0. split; [lia | done].
  - intros H'. destruct (IH _ H') as (j & -> & Hj). exists (S j). split; [lia | done].
Qed.

(** ** Registration *)

Lemma init_var_register g width vars s :
  fold_left (init_var g width) vars s
  = fold_left register (map (fun item => ((g, fst item), width (snd item))) vars) s.
Proof.
  revert s. induction vars as [|[x ld] vars IH]; intros s; simpl; [done|].
  by rewrite IH.
Qed.

Lemma init_register mdg :
  init mdg =
  let s := fold_left register (declared mdg) (mkInit [] 0 []) in
  mkDofManager (i_block_dof s) (i_full_dof s).
Proof.
  unfold init, declared. simpl. rewrite fold_left_app.
  assert (Hsd : ∀ l s, fold_left init_sd l s
    = fold_left register (flat_map (fun e =>
        declared_vars (Sd (fst e)) (total_local_dofs_sd (fst e)) (snd e)) l) s).
  { induction l as [|[sd dat] l IH]; intros s; simpl; [done|].
    rewrite fold_left_app, IH. f_equal. unfold declared_vars. simpl.
    destruct (primary_variables dat); [apply init_var_register | done]. }
  assert (Hintf : ∀ l s, fold_left init_intf l s
    = fold_left register (flat_map (fun e =>
        declared_vars (Intf (fst e)) (total_local_dofs_intf (fst e)) (snd e)) l) s).
  { induction l as [|[m dat] l IH]; intros s; simpl; [done|].
    rewrite fold_left_app, IH. f_equal. unfold declared_vars. simpl.
    destruct (primary_variables dat); [apply init_var_register | done]. }
  by rewrite Hsd, Hintf.
Qed.

Lemma register_all items : ∀ keys0 fd0,
  length fd0 = length keys0 →
  NoDup (keys0 ++ map fst items) →
  fold_left register items
    (mkInit (zip keys0 (seq 0 (length keys0))) (length keys0) fd0)
  = mkInit (zip (keys0 ++ map fst items) (seq 0 (length (keys0 ++ map fst items))))
           (length (keys0 ++ map fst items)) (fd0 ++ map snd items).
Proof.
  induction items as [|[k w] items IH]; intros keys0 fd0 Hlen Hnd; simpl.
  - by rewrite !app_nil_r.
  - unfold register at 2. simpl.
    assert (Hfresh : dict_get k (zip keys0 (seq 0 (length keys0))) = None).
    { apply dict_get_None. rewrite fst_zip by (rewrite length_seq; lia).
      apply NoDup_app in Hnd as (_ & Hdisj & _). intros Hin.
      apply (Hdisj k Hin). simpl. apply elem_of_cons; auto. }
    rewrite (dict_set_fresh _ _ _ Hfresh).
    replace (zip keys0 (seq 0 (length keys0)) ++ [(k, length keys0)])
      with (zip (keys0 ++ [k]) (seq 0 (length (keys0 ++ [k])))).
    2:{ rewrite length_app. simpl. rewrite seq_app. simpl.
        rewrite zip_with_app; [done | by rewrite length_seq]. }
    replace (length keys0 + 1) with (length (keys0 ++ [k]))
      by (rewrite length_app; simpl; lia).
    rewrite IH.
    + rewrite <- !app_assoc. simpl. done.
    + rewrite !length_app. simpl. lia.
    + rewrite <- app_assoc. simpl. done.
Qed.

(** A manager whose blocks are numbered in the order of their keys. *)
Record wf_dm (dm : DofManager) : Prop := mk_wf_dm
  { wf_nodup : NoDup (map fst (block_dof dm));
    wf_len : length (block_dof dm) = length (full_dof dm);
    wf_zip : block_dof dm
             = zip (map fst (block_dof dm)) (seq 0 (length (full_dof dm))) }.

Lemma init_block_dof mdg :
  wf_mdg mdg →
  block_dof (init mdg)
  = zip (map fst (declared mdg)) (seq 0 (length (declared mdg))).
Proof.
  intros Hwf. rewrite init_register.
  pose proof (register_all (declared mdg) [] [] eq_refl Hwf) as Hreg.
  simpl in Hreg. simpl. rewrite Hreg. simpl. by rewrite length_map.
Qed.

Lemma init_full_dof mdg : wf_mdg mdg → full_dof (init mdg) = map snd (declared mdg).
Proof.
  intros Hwf. rewrite init_register.
  pose proof (register_all (declared mdg) [] [] eq_refl Hwf) as Hreg.
  simpl in Hreg. simpl. by rewrite Hreg.
Qed.

Lemma init_wf mdg : wf_mdg mdg → wf_dm (init mdg).
Proof.
  intros Hwf.
  assert (Hk : map fst (block_dof (init mdg)) = map fst (declared mdg)).
  { rewrite init_block_dof by done.
    apply fst_zip. rewrite length_seq, length_map. lia. }
  split.
  - by rewrite Hk.
  - rewrite init_block_dof, init_full_dof by done.
    rewrite length_zip, !length_map, length_seq. lia.
  - rewrite Hk, init_full_dof, length_map by done. by apply init_block_dof.
Qed.

(** ** Block boundaries *)

Lemma sum_list_snoc (l : list nat) x : sum_list (l ++ [x]) = sum_list l + x.
Proof. induction l as [|y l IH]; simpl; lia. Qed.

Lemma cumsum_from_lookup (l : list nat) : ∀ acc j,
  j < length l → cumsum_from acc l !! j = Some (acc + sum_list (take (S j) l)).
Proof.
  induction l as [|x l IH]; intros acc j Hj; simpl in *; [lia|].
  destruct j as [|j]; simpl.
  - destruct l; simpl; f_equal; lia.
  - rewrite IH by lia. simpl. f_equal. lia.
Qed.

Lemma length_cumsum_from (l : list nat) acc : length (cumsum_from acc l) = length l.
Proof. revert acc. induction l; intros; simpl; auto. Qed.

Lemma dof_start_lookup dm j :
  j ≤ length (full_dof dm) → dof_start dm !! j = Some (block_start dm j).
Proof.
  intros Hj. unfold dof_start, block_start, cumsum. destruct j as [|j]; simpl.
  - done.
  - rewrite cumsum_from_lookup by lia. done.
Qed.

Lemma length_dof_start dm : length (dof_start dm) = S (length (full_dof dm)).
Proof. unfold dof_start, cumsum. simpl. by rewrite length_cumsum_from. Qed.

Lemma block_start_S dm j w :
  full_dof dm !! j = Some w → block_start dm (S j) = block_start dm j + w.
Proof.
  intros Hw. unfold block_start. by rewrite (take_S_r _ _ _ Hw), sum_list_snoc.
Qed.

(** The number that [num_dofs()] holds, and the vector of zeros that
    [np.zeros] makes of it: a registry without a block has a float. *)
Lemma num_dofs_sum dm : scalar_value (num_dofs dm) = sum_list (full_dof dm).
Proof. unfold num_dofs, np_sum. by destruct (full_dof dm). Qed.

Lemma np_zeros_num_dofs dm :
  full_dof dm ≠ [] → np_zeros (num_dofs dm) = Ok (replicate (num_dofs dm) 0%Z).
Proof. unfold num_dofs, np_sum. by destruct (full_dof dm). Qed.

Lemma np_zeros_no_block dm :
  full_dof dm = [] → np_zeros (num_dofs dm) = Raise TypeError.
Proof. unfold num_dofs. by intros ->. Qed.

Lemma block_start_all dm : block_start dm (length (full_dof dm)) = num_dofs dm.
Proof. rewrite num_dofs_sum. unfold block_start. by rewrite firstn_all. Qed.

Lemma block_start_mono dm j k : j ≤ k → block_start dm j ≤ block_start dm k.
Proof.
  unfold block_start. generalize (full_dof dm). intros l. revert j k.
  induction l as [|x l IH]; intros j k Hjk.
  - by rewrite !take_nil.
  - destruct j as [|j]; simpl; [lia|].
    destruct k as [|k]; [lia|]. simpl. specialize (IH j k). lia.
Qed.

Lemma last_dof_start dm : List.last (dof_start dm) 0 = num_dofs dm.
Proof.
  pose proof (length_dof_start dm) as Hlen.
  pose proof (dof_start_lookup dm (length (full_dof dm)) (le_n _)) as Hl.
  rewrite block_start_all in Hl.
  destruct (dof_start dm) as [|d ds] using rev_ind; [done|].
  rewrite List.last_last. rewrite length_app in Hlen. simpl in Hlen.
  rewrite lookup_app_r in Hl by lia.
  replace (length (full_dof dm) - length ds) with 0 in Hl by lia.
  simpl in Hl. congruence.
Qed.

(** Every position of the global vector lies in exactly one block. *)
Lemma locate_block dm i :
  i < num_dofs dm →
  ∃ j w, full_dof dm !! j = Some w
         ∧ block_start dm j ≤ i < block_start dm j + w.
Proof.
  rewrite num_dofs_sum. unfold block_start.
  generalize (full_dof dm). intros l. revert i.
  induction l as [|x l IH]; intros i Hi; simpl in Hi; [lia|].
  destruct (decide (i < x)) as [Hlt|Hge].
  - exists 0, x. simpl. split; [done | lia].
  - destruct (IH (i - x)) as (j & w & Hw & Hr); [lia|].
    exists (S j), w. simpl. split; [done | lia].
Qed.

Lemma argmax_first (bs : list bool) k :
  bs !! k = Some true → (∀ k', k' < k → bs !! k' = Some false) → argmax bs = k.
Proof.
  revert k. induction bs as [|b bs IH]; intros k Hk Hlt; [done|].
  destruct k as [|k]; simpl in *.
  - by injection Hk as ->.
  - pose proof (Hlt 0 ltac:(lia)) as H0. simpl in H0. injection H0 as ->.
    assert (Hex : existsb id bs = true).
    { apply existsb_exists. exists true. split; [|done].
      apply list_elem_of_In. eapply list_elem_of_lookup_2; eauto. }
    rewrite Hex. f_equal. apply IH; [done|].
    intros k' Hk'. apply (Hlt (S k')). lia.
Qed.

(** ** Looking blocks up *)

Lemma block_key_index dm g var j :
  wf_dm dm →
  dict_get (g, var) (block_dof dm) = Some j ↔
  map fst (block_dof dm) !! j = Some (g, var).
Proof.
  intros [Hnd Hlen Hzip].
  assert (Hl : length (full_dof dm) = length (map fst (block_dof dm)))
    by (rewrite length_map; lia).
  rewrite Hzip at 1. rewrite Hl. split.
  - intros H'. apply dict_get_zip_seq_inv in H' as (j' & -> & H'). done.
  - intros H'. by rewrite (dict_get_zip_seq _ 0 j _ Hnd H').
Qed.

Lemma grid_and_variable_to_dofs_block dm g var j :
  wf_dm dm → dict_get (g, var) (block_dof dm) = Some j →
  ∃ w, full_dof dm !! j = Some w
       ∧ grid_and_variable_to_dofs dm g var = Ok (seq (block_start dm j) w).
Proof.
  intros Hwf Hj. pose proof Hwf as [Hnd Hlen Hzip].
  apply (block_key_index dm g var j Hwf) in Hj as Hk.
  apply lookup_lt_Some in Hk. rewrite length_map, Hlen in Hk.
  destruct (lookup_lt_is_Some_2 (full_dof dm) j Hk) as [w Hw].
  exists w. split; [done|].
  unfold grid_and_variable_to_dofs. rewrite Hj. simpl.
  rewrite dof_start_lookup by lia. simpl.
  rewrite dof_start_lookup by lia. simpl.
  replace (j + 1) with (S j) by lia. rewrite (block_start_S _ _ _ Hw).
  unfold arange. do 2 f_equal. lia.
Qed.

Lemma inv_fold (l : list ((GridLike * string) * nat)) : ∀ d0,
  (∀ kv, kv ∈ l → dict_get (Z.of_nat (snd kv)) d0 = None) →
  NoDup (map snd l) →
  fold_left (fun d '(k, v) => dict_set (Z.of_nat v) k d) l d0
  = d0 ++ map (fun kv => (Z.of_nat (snd kv), fst kv)) l.
Proof.
  induction l as [|[k v] l IH]; intros d0 Hfresh Hnd; simpl.
  - by rewrite app_nil_r.
  - apply NoDup_cons in Hnd as [Hv Hnd].
    rewrite dict_set_fresh by (apply (Hfresh (k, v)), elem_of_cons; auto).
    rewrite IH; [by rewrite <- app_assoc | | done].
    intros [k' v'] Hin. rewrite dict_get_app.
    rewrite (Hfresh (k', v')) by (apply elem_of_cons; auto). simpl.
    rewrite decide_False; [done|].
    intros Heq. apply Nat2Z.inj in Heq. subst v'. apply Hv.
    apply list_elem_of_fmap. exists (k', v). done.
Qed.

Lemma dict_get_inv_zip (keys : list (GridLike * string)) : ∀ a j,
  dict_get (Z.of_nat (a + j))
    (map (fun kv => (Z.of_nat (snd kv), fst kv)) (zip keys (seq a (length keys))))
  = keys !! j.
Proof.
  induction keys as [|k keys IH]; intros a j; simpl; [done|].
  destruct j as [|j].
  - rewrite decide_True; [done | f_equal; lia].
  - rewrite decide_False by lia. simpl.
    replace (a + S j) with (S a + j) by lia. apply IH.
Qed.

Lemma inv_block_dof_lookup dm j :
  wf_dm dm →
  dict_get (Z.of_nat j) (inv_block_dof dm) = map fst (block_dof dm) !! j.
Proof.
  intros [Hnd Hlen Hzip]. unfold inv_block_dof.
  assert (Hl : length (full_dof dm) = length (map fst (block_dof dm)))
    by (rewrite length_map; lia).
  rewrite inv_fold.
  - simpl. rewrite Hzip at 1. rewrite Hl. apply (dict_get_inv_zip _ 0 j).
  - done.
  - rewrite Hzip. rewrite snd_zip by (rewrite length_seq; lia). apply NoDup_seq.
Qed.

(** ** The inverse lookup *)

Lemma dof_to_grid_and_variable_in_range dm (i : nat) :
  wf_dm dm → i < num_dofs dm →
  ∃ g var j w,
    dof_to_grid_and_variable dm (Z.of_nat i) = Ok (g, var)
    ∧ dict_get (g, var) (block_dof dm) = Some j
    ∧ full_dof dm !! j = Some w
    ∧ block_start dm j ≤ i < block_start dm j + w.
Proof.
  intros Hwf Hi. destruct (locate_block dm i Hi) as (j & w & Hw & Hr).
  pose proof (lookup_lt_Some _ _ _ Hw) as Hj.
  pose proof Hwf as [Hnd Hlen Hzip].
  destruct (lookup_lt_is_Some_2 (map fst (block_dof dm)) j) as [[g var] Hk].
  { rewrite length_map. lia. }
  exists g, var, j, w. split; [|split; [|done]].
  2:{ by apply block_key_index. }
  unfold dof_to_grid_and_variable. rewrite last_dof_start.
  destruct (Z.leb_spec (Z.of_nat (num_dofs dm)) (Z.of_nat i)); [lia|].
  destruct (Z.ltb_spec (Z.of_nat i) 0); [lia|].
  rewrite (argmax_first _ (S j)).
  - replace (Z.of_nat (S j) - 1)%Z with (Z.of_nat j) by lia.
    rewrite inv_block_dof_lookup by done. by rewrite Hk.
  - rewrite list_lookup_fmap, dof_start_lookup by lia. simpl. f_equal.
    rewrite (block_start_S _ _ _ Hw). apply Z.ltb_lt. lia.
  - intros k' Hk'. rewrite list_lookup_fmap, dof_start_lookup by lia.
    simpl. f_equal. apply Z.ltb_ge.
    pose proof (block_start_mono dm k' j ltac:(lia)). lia.
Qed.

(** C6: [dof_to_grid_and_variable] is a right inverse of the block lookup.
    On a manager built from a grid that declares no pair twice, a global
    index [ind] with [0 <= ind < num_dofs()] is mapped to a registered pair
    whose dofs, as [grid_and_variable_to_dofs] lists them, contain [ind];
    a negative index and an index from [num_dofs()] on raise [ValueError]. *)
Theorem dof_to_grid_and_variable_right_inverse
    (mdg : MixedDimensionalGrid) (ind : Z) :
  wf_mdg mdg →
  ((0 ≤ ind < Z.of_nat (num_dofs (init mdg)))%Z →
   ∃ g var dofs,
     dof_to_grid_and_variable (init mdg) ind = Ok (g, var)
     ∧ dict_mem (g, var) (block_dof (init mdg)) = true
     ∧ grid_and_variable_to_dofs (init mdg) g var = Ok dofs
     ∧ Z.to_nat ind ∈ dofs)
  ∧ ((ind < 0 ∨ Z.of_nat (num_dofs (init mdg)) ≤ ind)%Z →
     dof_to_grid_and_variable (init mdg) ind = Raise ValueError).
Proof.
  intros Hwf. apply init_wf in Hwf. split.
  - intros Hr.
    destruct (dof_to_grid_and_variable_in_range (init mdg) (Z.to_nat ind) Hwf)
      as (g & var & j & w & Hd & Hj & Hw & Hb); [lia|].
    rewrite Z2Nat.id in Hd by lia.
    destruct (grid_and_variable_to_dofs_block _ g var j Hwf Hj) as (w' & Hw' & Hdofs).
    assert (w' = w) as -> by congruence.
    exists g, var, (seq (block_start (init mdg) j) w).
    repeat split; try done.
    + apply dict_mem_true. by rewrite Hj.
    + apply elem_of_seq. lia.
  - intros Hout. unfold dof_to_grid_and_variable. rewrite last_dof_start.
    destruct (Z.leb_spec (Z.of_nat (num_dofs (init mdg))) ind); [done|].
    destruct (Z.ltb_spec ind 0); [done | lia].
Qed.

Lemma scenario_wf : wf_mdg Scenario.mdg.
Proof. apply (bool_decide_unpack _). vm_compute. exact I. Defined.

Lemma dof_to_grid_and_variable_right_inverse_witness :
  (∃ g var dofs,
     dof_to_grid_and_variable Scenario.dm 4 = Ok (g, var)
     ∧ dict_mem (g, var) (block_dof Scenario.dm) = true
     ∧ grid_and_variable_to_dofs Scenario.dm g var = Ok dofs
     ∧ Z.to_nat 4 ∈ dofs)
  ∧ dof_to_grid_and_variable Scenario.dm 5 = Raise ValueError.
Proof.
  split.
  - apply (dof_to_grid_and_variable_right_inverse Scenario.mdg 4 scenario_wf).
    vm_compute. split; congruence.
  - apply (dof_to_grid_and_variable_right_inverse Scenario.mdg 5 scenario_wf).
    right. vm_compute. congruence.
Defined.

(** ** Reading and writing a block of an array *)

Lemma take_inds_seq (v : list Z) : ∀ w s,
  s + w ≤ length v → take_inds v (seq s w) = Ok (take w (drop s v)).
Proof.
  induction w as [|w IH]; intros s Hs; simpl; [done|].
  destruct (lookup_lt_is_Some_2 v s ltac:(lia)) as [x Hx].
  rewrite Hx. simpl. rewrite IH by lia. simpl.
  rewrite (drop_S _ _ _ Hx). done.
Qed.

Lemma put_all_seq (a : list Z) : ∀ s vals,
  s + length a ≤ length vals →
  put_all vals (seq s (length a)) a
  = Ok (take s vals ++ a ++ drop (s + length a) vals).
Proof.
  induction a as [|x a IH]; intros s vals Hs; simpl in *.
  - by rewrite Nat.add_0_r, take_drop.
  - rewrite decide_True by lia.
    rewrite IH by (rewrite length_insert; lia).
    rewrite drop_insert_lt by lia.
    rewrite (take_S_r (<[s:=x]> vals) s x) by (apply list_lookup_insert_eq; lia).
    rewrite take_insert_ge by lia.
    rewrite <- app_assoc. simpl.
    by replace (s + S (length a)) with (S (s + length a)) by lia.
Qed.

Lemma set_inds_seq (vals a : list Z) s :
  s + length a ≤ length vals →
  set_inds vals (seq s (length a)) a
  = Ok (take s vals ++ a ++ drop (s + length a) vals).
Proof.
  intros Hs. unfold set_inds, broadcast_to.
  rewrite length_seq, decide_True by done. simpl. by apply put_all_seq.
Qed.

(** ** The data dictionaries *)

Lemma grid_data_update_eq mdg g d : grid_data (update_data mdg g d) g = Ok d.
Proof.
  destruct g; simpl; unfold subdomain_data, interface_data; simpl;
    by rewrite dict_get_set_eq.
Qed.

Lemma grid_data_update_ne mdg g g' d :
  g ≠ g' → grid_data (update_data mdg g d) g' = grid_data mdg g'.
Proof.
  intros Hne. destruct g, g'; simpl; unfold subdomain_data, interface_data;
    simpl; try done; rewrite dict_get_set_ne; congruence.
Qed.

Lemma slot_update_eq mdg g pv st var :
  slot (update_data mdg g (mkData pv (Some st))) g var = st !! var.
Proof. unfold slot. by rewrite grid_data_update_eq. Qed.

Lemma slot_update_ne mdg g g' d var :
  g ≠ g' → slot (update_data mdg g d) g' var = slot mdg g' var.
Proof. intros Hne. unfold slot. by rewrite grid_data_update_ne. Qed.

Lemma declared_has_data mdg g var w :
  ((g, var), w) ∈ declared mdg → ∃ d, grid_data mdg g = Ok d.
Proof.
  unfold declared. rewrite elem_of_app, !list_elem_of_In, !in_flat_map.
  intros [([sd dat] & Hin & Hd) | ([m dat] & Hin & Hd)]; simpl in Hd;
    unfold declared_vars in Hd; destruct (primary_variables dat); try done;
    apply in_map_iff in Hd as (item & [= <- _ _] & _); simpl.
  - unfold subdomain_data.
    destruct (dict_get sd (subdomains mdg)) eqn:Hg; [eauto|].
    apply dict_get_None in Hg. exfalso. apply Hg.
    apply list_elem_of_fmap. exists (sd, dat). split; [done|].
    by apply list_elem_of_In.
  - unfold interface_data.
    destruct (dict_get m (interfaces mdg)) eqn:Hg; [eauto|].
    apply dict_get_None in Hg. exfalso. apply Hg.
    apply list_elem_of_fmap. exists (m, dat). split; [done|].
    by apply list_elem_of_In.
Qed.

Lemma init_registered_has_data mdg g var j :
  wf_mdg mdg → dict_get (g, var) (block_dof (init mdg)) = Some j →
  ∃ d, grid_data mdg g = Ok d.
Proof.
  intros Hwf Hj. apply dict_get_Some_elem in Hj.
  rewrite init_block_dof in Hj by done.
  apply (list_elem_of_fmap_2 fst) in Hj.
  rewrite fst_zip in Hj by (rewrite length_seq, length_map; lia).
  apply list_elem_of_fmap in Hj as ([k w] & Hk & Hin). simpl in Hk. subst k.
  by eapply declared_has_data.
Qed.

Lemma elem_of_product {A B} (xs : list A) (ys : list B) x y :
  (x, y) ∈ product xs ys ↔ x ∈ xs ∧ y ∈ ys.
Proof.
  unfold product. rewrite !list_elem_of_In, in_flat_map. split.
  - intros (x' & Hx & Hy). apply in_map_iff in Hy as (y' & [= -> ->] & Hy). done.
  - intros [Hx Hy]. exists x. split; [done|]. apply in_map_iff. eauto.
Qed.

(** ** Blocks of a global vector *)

Lemma block_bound dm j w :
  full_dof dm !! j = Some w → block_start dm j + w ≤ num_dofs dm.
Proof.
  intros Hw. rewrite <- (block_start_S _ _ _ Hw), <- block_start_all.
  apply block_start_mono. apply lookup_lt_Some in Hw. lia.
Qed.

Lemma length_block_values dm v j w :
  length v = num_dofs dm → full_dof dm !! j = Some w →
  length (block_values dm v j) = w.
Proof.
  intros Hv Hw. unfold block_values. rewrite Hw. simpl.
  rewrite length_take, length_drop. pose proof (block_bound dm j w Hw). lia.
Qed.

Lemma block_values_lookup dm v j w i :
  full_dof dm !! j = Some w →
  block_start dm j ≤ i < block_start dm j + w →
  block_values dm v j !! (i - block_start dm j) = v !! i.
Proof.
  intros Hw Hi. unfold block_values. rewrite Hw. simpl.
  rewrite lookup_take, decide_True by lia. rewrite lookup_drop. f_equal. lia.
Qed.

(** ** Scatter, then gather *)

Section RoundTrip.
Variable dm : DofManager.
Variable v : list Z.
Hypothesis Hwf : wf_dm dm.
Hypothesis Hv : length v = num_dofs dm.

Lemma distribute_body_unregistered values additive to_iterate mdg g var :
  dict_get (g, var) (block_dof dm) = None →
  distribute_body dm values additive to_iterate mdg (g, var) = Ok mdg.
Proof. intros Hn. unfold distribute_body, dict_mem. by rewrite Hn. Qed.

Lemma distribute_body_registered mdg g var j dat :
  dict_get (g, var) (block_dof dm) = Some j →
  grid_data mdg g = Ok dat →
  distribute_body dm v false false mdg (g, var)
  = Ok (update_data mdg g
          (mkData (primary_variables dat)
             (Some (<[var := Arr (block_values dm v j)]>
                      (default ∅ (state dat)))))).
Proof using Hwf Hv.
  intros Hj Hdat. unfold distribute_body, dict_mem. rewrite Hj. simpl.
  destruct (grid_and_variable_to_dofs_block dm g var j Hwf Hj) as (w & Hw & ->).
  simpl. rewrite Hdat. simpl.
  pose proof (block_bound dm j w Hw).
  rewrite take_inds_seq by lia. simpl.
  unfold block_values. by rewrite Hw.
Qed.

Lemma distribute_loop ps : ∀ mdg,
  all_have_data dm mdg →
  ∃ mdg', for_each (distribute_body dm v false false) ps mdg = Ok mdg'
    ∧ all_have_data dm mdg'
    ∧ ∀ g var j, (g, var) ∈ ps →
        dict_get (g, var) (block_dof dm) = Some j →
        slot mdg' g var = Some (Arr (block_values dm v j)).
Proof using Hwf Hv.
  induction ps as [|[g var] ps IH] using rev_ind; intros mdg Hdata.
  - exists mdg. repeat split; [done|]. intros ??? Hin.
    by apply elem_of_nil in Hin.
  - destruct (IH mdg Hdata) as (mdg1 & Hrun & Hdata1 & Hslots).
    rewrite for_each_snoc, Hrun, bind_Ok.
    destruct (dict_get (g, var) (block_dof dm)) as [j|] eqn:Hj.
    + destruct (Hdata1 g var j Hj) as [dat Hdat].
      rewrite (distribute_body_registered mdg1 g var j dat Hj Hdat).
      eexists. split; [done|]. split.
      * intros g0 var0 j0 Hj0. destruct (decide (g = g0)) as [<-|Hne].
        -- rewrite grid_data_update_eq. eauto.
        -- rewrite grid_data_update_ne by done. eauto.
      * intros g0 var0 j0 Hin Hj0.
        destruct (decide (g = g0)) as [<-|Hne].
        -- rewrite slot_update_eq.
           destruct (decide (var = var0)) as [<-|Hnv].
           ++ rewrite lookup_insert_eq. congruence.
           ++ rewrite lookup_insert_ne by done.
              apply elem_of_app in Hin as [Hin|Hin].
              ** rewrite <- (Hslots g var0 j0 Hin Hj0). unfold slot.
                 rewrite Hdat. by destruct (state dat).
              ** apply list_elem_of_singleton in Hin. congruence.
        -- rewrite slot_update_ne by done.
           apply elem_of_app in Hin as [Hin|Hin]; [by apply Hslots|].
           apply list_elem_of_singleton in Hin. congruence.
    + rewrite distribute_body_unregistered by done.
      exists mdg1. repeat split; [done|].
      intros g0 var0 j0 Hin Hj0.
      apply elem_of_app in Hin as [Hin|Hin]; [by apply Hslots|].
      apply list_elem_of_singleton in Hin. congruence.
Qed.

Lemma assemble_body_registered mdg vals g var j w :
  length vals = num_dofs dm →
  dict_get (g, var) (block_dof dm) = Some j →
  full_dof dm !! j = Some w →
  slot mdg g var = Some (Arr (block_values dm v j)) →
  assemble_body dm false mdg vals (g, var)
  = Ok (take (block_start dm j) vals ++ block_values dm v j
        ++ drop (block_start dm j + w) vals).
Proof using Hwf Hv.
  intros Hvals Hj Hw Hslot. unfold assemble_body, dict_mem. rewrite Hj. simpl.
  destruct (grid_and_variable_to_dofs_block dm g var j Hwf Hj) as (w' & Hw' & ->).
  assert (w' = w) as -> by congruence. simpl.
  unfold slot in Hslot.
  destruct (grid_data mdg g) as [dat|]; [|done]. simpl.
  destruct (state dat) as [st|]; [|done]. simpl.
  unfold get_state_array. rewrite Hslot. simpl.
  pose proof (length_block_values dm v j w Hv Hw) as Hlen.
  pose proof (block_bound dm j w Hw).
  rewrite <- Hlen. apply set_inds_seq. lia.
Qed.

Lemma assemble_loop mdg ps :
  (∀ g var j, (g, var) ∈ ps →
     dict_get (g, var) (block_dof dm) = Some j →
     slot mdg g var = Some (Arr (block_values dm v j))) →
  ∃ vals, for_each (assemble_body dm false mdg) ps
            (replicate (num_dofs dm) 0%Z) = Ok vals
    ∧ length vals = num_dofs dm
    ∧ ∀ i, covered dm ps i → vals !! i = v !! i.
Proof using Hwf Hv.
  induction ps as [|[g var] ps IH] using rev_ind; intros Hslots.
  - eexists. split; [done|]. split; [by rewrite length_replicate|].
    intros i (? & ? & ? & ? & Hin & _). by apply elem_of_nil in Hin.
  - destruct IH as (vals & Hrun & Hlen & Hcov).
    { intros g0 var0 j0 Hin. apply Hslots, elem_of_app. auto. }
    rewrite for_each_snoc, Hrun, bind_Ok.
    destruct (dict_get (g, var) (block_dof dm)) as [j|] eqn:Hj.
    + destruct (grid_and_variable_to_dofs_block dm g var j Hwf Hj) as (w & Hw & _).
      assert (Hslot : slot mdg g var = Some (Arr (block_values dm v j))).
      { apply Hslots; [|done]. apply elem_of_app. right.
        by apply list_elem_of_singleton. }
      rewrite (assemble_body_registered mdg vals g var j w Hlen Hj Hw Hslot).
      pose proof (length_block_values dm v j w Hv Hw) as Hbl.
      pose proof (block_bound dm j w Hw) as Hb.
      eexists. split; [done|]. split.
      * rewrite !length_app, length_take, length_drop. lia.
      * intros i Hi.
        destruct (decide (block_start dm j ≤ i < block_start dm j + w)) as [Hin|Hout].
        -- rewrite lookup_app_r by (rewrite length_take; lia).
           rewrite length_take, Nat.min_l by lia.
           rewrite lookup_app_l by lia.
           by apply block_values_lookup with (w := w).
        -- assert (Hold : vals !! i = v !! i).
           { apply Hcov. destruct Hi as (g0 & var0 & j0 & w0 & Hin & Hj0 & Hw0 & Hr).
             exists g0, var0, j0, w0. repeat split; try done; try lia.
             apply elem_of_app in Hin as [Hin|Hin]; [done|].
             apply list_elem_of_singleton in Hin.
             injection Hin as -> ->. assert (j0 = j) as -> by congruence.
             assert (w0 = w) as -> by congruence. lia. }
           rewrite <- Hold.
           destruct (decide (i < block_start dm j)) as [Hlt|Hge].
           ++ rewrite lookup_app_l by (rewrite length_take; lia).
              by rewrite lookup_take, decide_True by lia.
           ++ rewrite lookup_app_r by (rewrite length_take; lia).
              rewrite length_take, Nat.min_l by lia.
              rewrite lookup_app_r by lia.
              rewrite lookup_drop. f_equal. lia.
    + unfold assemble_body at 1, dict_mem. rewrite Hj. simpl.
      exists vals. repeat split; [done|].
      intros i (g0 & var0 & j0 & w0 & Hin & Hj0 & Hw0 & Hr).
      apply Hcov. exists g0, var0, j0, w0. repeat split; try done; try lia.
      apply elem_of_app in Hin as [Hin|Hin]; [done|].
      apply list_elem_of_singleton in Hin. congruence.
Qed.

(** Scattering [v] over a selection that reaches every block and gathering
    over the same selection gives [v] back. *)
Lemma round_trip_selection mdg grids variables :
  full_dof dm ≠ [] →
  all_have_data dm mdg →
  (∀ g var j, dict_get (g, var) (block_dof dm) = Some j →
              g ∈ grids ∧ var ∈ variables) →
  ∃ mdg',
    distribute_variable dm v (Some grids) (Some variables) false false mdg
      = Ok mdg'
    ∧ assemble_variable dm (Some grids) (Some variables) false mdg' = Ok v.
Proof using Hwf Hv.
  intros Hne Hdata Hsel. unfold distribute_variable, assemble_variable. simpl.
  destruct (distribute_loop (product grids variables) mdg Hdata)
    as (mdg' & Hrun & _ & Hslots).
  exists mdg'. split; [done|].
  destruct (assemble_loop mdg' (product grids variables) Hslots)
    as (vals & Hrun' & Hlen & Hcov).
  rewrite (np_zeros_num_dofs dm Hne), bind_Ok, Hrun'. f_equal. apply list_eq. intros i.
  destruct (decide (i < num_dofs dm)) as [Hi|Hi].
  - apply Hcov.
    destruct (dof_to_grid_and_variable_in_range dm i Hwf Hi)
      as (g & var & j & w & _ & Hj & Hw & Hr).
    exists g, var, j, w. repeat split; try done; try lia.
    apply elem_of_product. eauto.
  - rewrite !lookup_ge_None_2; [done | lia | lia].
Qed.
End RoundTrip.

Lemma all_selected dm g var j :
  dict_get (g, var) (block_dof dm) = Some j →
  g ∈ all_grids dm ∧ var ∈ all_variables dm.
Proof.
  intros Hj. apply dict_get_Some_elem in Hj.
  unfold all_grids, all_variables. rewrite !elem_of_remove_dups. split.
  - apply list_elem_of_fmap. by exists ((g, var), j).
  - apply list_elem_of_fmap. by exists ((g, var), j).
Qed.

(** A manager has a block exactly when it has a number of dofs to go with
    it. *)
Lemma no_block_full_dof mdg :
  wf_mdg mdg → block_dof (init mdg) = [] ↔ full_dof (init mdg) = [].
Proof.
  intros Hwf. pose proof (init_wf mdg Hwf) as [_ Hlen _].
  split; intros H; rewrite H in Hlen; simpl in Hlen.
  - by apply length_zero_iff_nil.
  - apply length_zero_iff_nil. by rewrite <- Hlen.
Qed.

(** C1: the round trip.  For a manager built from a grid that declares no
    pair twice and a global vector [v] of length [num_dofs()],
    [distribute_variable(v, additive=False, to_iterate=False)] returns, and
    on a registry with registered blocks
    [assemble_variable(from_iterate=False)] on the state it leaves, with the
    same default selection of all grids and all variables, returns [v].  On
    a registry without a block [num_dofs()] is the float [0.0], and
    [assemble_variable] raises the [TypeError] of [np.zeros(0.0)]. *)
Theorem distribute_assemble_round_trip (mdg : MixedDimensionalGrid) (v : list Z) :
  wf_mdg mdg →
  length v = num_dofs (init mdg) →
  ∃ mdg',
    distribute_variable (init mdg) v None None false false mdg = Ok mdg'
    ∧ (block_dof (init mdg) ≠ [] →
       assemble_variable (init mdg) None None false mdg' = Ok v)
    ∧ (block_dof (init mdg) = [] →
       assemble_variable (init mdg) None None false mdg' = Raise TypeError).
Proof.
  intros Hwf Hv.
  destruct (decide (block_dof (init mdg) = [])) as [Hnil|Hne].
  - exists mdg. split; [|split; [done|]].
    + unfold distribute_variable, all_grids. by rewrite Hnil.
    + intros _. unfold assemble_variable.
      rewrite np_zeros_no_block; [done|]. by apply no_block_full_dof.
  - destruct (round_trip_selection (init mdg) v (init_wf mdg Hwf) Hv mdg
                (all_grids (init mdg)) (all_variables (init mdg)))
      as (mdg' & Hd & Ha).
    + intros Hnil. by apply Hne, no_block_full_dof.
    + intros g var j Hj. by apply (init_registered_has_data mdg g var j).
    + apply all_selected.
    + exists mdg'. split; [done|]. split; [done|]. intros Hnil. by destruct Hne.
Qed.

Lemma distribute_assemble_round_trip_witness :
  ∃ mdg',
    distribute_variable Scenario.dm [1; 2; 3; 4; 5]%Z None None false false
      Scenario.mdg = Ok mdg'
    ∧ assemble_variable Scenario.dm None None false mdg' = Ok [1; 2; 3; 4; 5]%Z.
Proof.
  destruct (distribute_assemble_round_trip Scenario.mdg [1; 2; 3; 4; 5]%Z
              scenario_wf) as (mdg' & Hd & Ha & _).
  - vm_compute. reflexivity.
  - exists mdg'. split; [exact Hd|]. apply Ha. vm_compute. discriminate.
Defined.

(** ** Pairs of the selection that are not registered *)

Lemma for_each_filter {S X} (body : S → X → res S) (keep : X → bool) (xs : list X) :
  (∀ s x, keep x = false → body s x = Ok s) →
  ∀ s, for_each body xs s = for_each body (List.filter keep xs) s.
Proof.
  intros Hskip. induction xs as [|x xs IH]; intros s; simpl; [done|].
  destruct (keep x) eqn:Hk; simpl.
  - destruct (body s x); simpl; auto.
  - rewrite (Hskip s x Hk). simpl. apply IH.
Qed.

(** What a turn of the scatter loop leaves alone: every slot but the one
    of its own pair, and every slot when its pair is not registered. *)
Lemma distribute_body_frame dm values mdg mdg1 g0 var0 g var :
  distribute_body dm values false false mdg (g0, var0) = Ok mdg1 →
  ¬ ((g0, var0) = (g, var) ∧ dict_mem (g0, var0) (block_dof dm) = true) →
  slot mdg1 g var = slot mdg g var.
Proof.
  unfold distribute_body. intros Hrun Hnot.
  destruct (dict_mem (g0, var0) (block_dof dm)) eqn:Hmem; simpl in Hrun;
    [|by injection Hrun as <-].
  destruct (grid_and_variable_to_dofs dm g0 var0) as [dof_ind|]; [|done].
  simpl in Hrun.
  destruct (grid_data mdg g0) as [dat|] eqn:Hdat; [|done]. simpl in Hrun.
  destruct (take_inds values dof_ind) as [vals|]; [|done]. simpl in Hrun.
  injection Hrun as <-.
  destruct (decide (g0 = g)) as [->|Hg].
  - rewrite slot_update_eq.
    rewrite lookup_insert_ne by (intros ->; by apply Hnot).
    unfold slot. rewrite Hdat. by destruct (state dat).
  - by rewrite slot_update_ne.
Qed.

Lemma distribute_loop_frame dm values ps : ∀ mdg mdg',
  for_each (distribute_body dm values false false) ps mdg = Ok mdg' →
  ∀ g var, ¬ ((g, var) ∈ ps ∧ dict_mem (g, var) (block_dof dm) = true) →
  slot mdg' g var = slot mdg g var.
Proof.
  induction ps as [|[g0 var0] ps IH]; intros mdg mdg' Hrun g var Hnot;
    cbn [for_each] in Hrun; [by injection Hrun as <-|].
  destruct (distribute_body dm values false false mdg (g0, var0))
    as [mdg1|] eqn:Hturn; cbn [bind] in Hrun; [|done].
  rewrite (IH mdg1 mdg' Hrun).
  - apply (distribute_body_frame _ _ _ _ _ _ _ _ Hturn).
    intros [[= -> ->] Hmem]. apply Hnot. split; [|done]. apply elem_of_cons. by left.
  - intros [Hin Hmem]. apply Hnot. split; [|done]. apply elem_of_cons. by right.
Qed.

(** C10: a pair of the selection that is not a registered block is skipped
    silently, and the registered pairs of the selection are written.
    Whatever the flags and the state, the turn of the loop for a pair that
    is not registered raises nothing and leaves the whole state as it was,
    and the call does exactly what it does on the registered pairs of the
    selection alone, in the same order.  On a manager built from a grid
    that declares no pair twice, for a vector of length [num_dofs()] and
    any selection of grids and variables, registered or not, known to the
    grid or not, [distribute_variable] returns; it has stored the values
    of the block of every registered pair of the selection, and every
    other slot of every state holds what it held before the call. *)
Theorem distribute_variable_skips_unregistered (dm : DofManager)
    (mdg : MixedDimensionalGrid) (values : list Z)
    (grids : option (list GridLike)) (variables : option (list string)) :
  (∀ additive to_iterate mdg0 g var,
      dict_mem (g, var) (block_dof dm) = false →
      distribute_body dm values additive to_iterate mdg0 (g, var) = Ok mdg0)
  ∧ (∀ additive to_iterate mdg0,
      distribute_variable dm values grids variables additive to_iterate mdg0
      = for_each (distribute_body dm values additive to_iterate)
          (List.filter (fun p => dict_mem p (block_dof dm))
             (product (default (all_grids dm) grids)
                      (default (all_variables dm) variables)))
          mdg0)
  ∧ (wf_mdg mdg → length values = num_dofs (init mdg) →
     ∃ mdg',
       distribute_variable (init mdg) values grids variables false false mdg
       = Ok mdg'
       ∧ (∀ g var j,
            g ∈ default (all_grids (init mdg)) grids →
            var ∈ default (all_variables (init mdg)) variables →
            dict_get (g, var) (block_dof (init mdg)) = Some j →
            slot mdg' g var = Some (Arr (block_values (init mdg) values j)))
       ∧ (∀ g var,
            ¬ (g ∈ default (all_grids (init mdg)) grids
               ∧ var ∈ default (all_variables (init mdg)) variables
               ∧ dict_mem (g, var) (block_dof (init mdg)) = true) →
            slot mdg' g var = slot mdg g var)).
Proof.
  assert (Hskip : ∀ additive to_iterate mdg0 p, dict_mem p (block_dof dm) = false →
            distribute_body dm values additive to_iterate mdg0 p = Ok mdg0).
  { intros additive to_iterate mdg0 [g var] Hn. unfold distribute_body. by rewrite Hn. }
  split; [|split].
  - intros additive to_iterate mdg0 g var. apply Hskip.
  - intros additive to_iterate mdg0. unfold distribute_variable.
    apply for_each_filter. intros s x. apply Hskip.
  - intros Hwf Hv. unfold distribute_variable.
    set (ps := product (default (all_grids (init mdg)) grids)
                       (default (all_variables (init mdg)) variables)).
    destruct (distribute_loop (init mdg) values (init_wf mdg Hwf) Hv ps mdg)
      as (mdg' & Hrun & _ & Hslots).
    { intros g var j Hj. by eapply init_registered_has_data. }
    exists mdg'. split; [done|]. split.
    + intros g var j Hg Hvar Hj. apply Hslots; [|done]. by apply elem_of_product.
    + intros g var Hnot. apply (distribute_loop_frame _ _ _ _ _ Hrun).
      intros [Hin Hmem]. apply elem_of_product in Hin as [Hg Hvar]. by apply Hnot.
Qed.

(** On the scenario, with a selection that holds the grid E1, a grid that
    the mixed-dimensional grid does not know, the variable "p" and a
    variable "q" that nobody declared: the one registered pair of the
    selection is written, nothing is stored for "q", and E2, which is not
    selected, is left alone. *)
Lemma distribute_variable_skips_unregistered_witness :
  ∃ mdg',
    distribute_variable Scenario.dm [1; 2; 3; 4; 5]%Z
      (Some [Sd (mkGrid 7 4 0 0); Sd Scenario.E1]) (Some ["q"; "p"])
      false false Scenario.mdg = Ok mdg'
    ∧ slot mdg' (Sd Scenario.E1) "p" = Some (Arr [1; 2; 3]%Z)
    ∧ slot mdg' (Sd Scenario.E1) "q" = None
    ∧ slot mdg' (Sd (mkGrid 7 4 0 0)) "p" = None
    ∧ slot mdg' (Sd Scenario.E2) "p" = None.
Proof.
  destruct (distribute_variable_skips_unregistered Scenario.dm Scenario.mdg
              [1; 2; 3; 4; 5]%Z
              (Some [Sd (mkGrid 7 4 0 0); Sd Scenario.E1]) (Some ["q"; "p"]))
    as (_ & _ & Hcall).
  destruct (Hcall scenario_wf eq_refl) as (mdg' & Hrun & Hwritten & Hframe).
  exists mdg'. split; [exact Hrun|]. split; [|split; [|split]].
  - apply (Hwritten (Sd Scenario.E1) "p" 0).
    + apply elem_of_cons. right. apply elem_of_cons. by left.
    + apply elem_of_cons. right. apply elem_of_cons. by left.
    + reflexivity.
  - rewrite Hframe; [reflexivity|]. intros (_ & _ & Hmem). discriminate Hmem.
  - rewrite Hframe; [reflexivity|]. intros (_ & _ & Hmem). discriminate Hmem.
  - rewrite Hframe; [reflexivity|]. intros (Hin & _ & _).
    apply elem_of_cons in Hin as [Hin|Hin]; [discriminate Hin|].
    apply elem_of_cons in Hin as [Hin|Hin]; [discriminate Hin|].
    by apply elem_of_nil in Hin.
Defined.

(** ** [get_variable_values] *)

(** On a manager with a block the loop stops in its first turn: [data] was
    never assigned. *)
Lemma get_variable_values_unbound dm from_iterate mdg :
  block_dof dm ≠ [] →
  get_variable_values dm from_iterate mdg = Raise UnboundLocalError.
Proof.
  unfold get_variable_values. destruct (block_dof dm) as [|[k j] bd]; [done|].
  done.
Qed.

Lemma get_variable_values_empty dm from_iterate mdg :
  block_dof dm = [] → get_variable_values dm from_iterate mdg = Ok [].
Proof. unfold get_variable_values. by intros ->. Qed.

(** C2, at the scenario of the specification: with [1,2,3] stored for "p" on
    E1 and [4,5] on E2, the specification asks for [1,2,3,4,5]; the code
    raises [UnboundLocalError], and it raises the same when nothing is
    stored, where the specification asks for a [KeyError]. *)
Theorem get_variable_values_scenario :
  ∃ mdg',
    distribute_variable Scenario.dm [1; 2; 3; 4; 5]%Z None None false false
      Scenario.mdg = Ok mdg'
    ∧ get_variable_values_spec Scenario.dm false mdg' = Ok [1; 2; 3; 4; 5]%Z
    ∧ get_variable_values Scenario.dm false mdg' = Raise UnboundLocalError
    ∧ get_variable_values_spec Scenario.dm false Scenario.mdg = Raise KeyError
    ∧ get_variable_values Scenario.dm false Scenario.mdg = Raise UnboundLocalError.
Proof. eexists. split; [vm_compute; reflexivity|]. vm_compute. done. Qed.

(** * Properties of the AD arrays *)

(** ** Calls, step by step *)

Lemma wp_ret {A} (a : A) Q E h : Q a h → wp (ret a) Q E h.
Proof. done. Qed.

Lemma wp_raise {A} e (Q : A → heap → Prop) (E : heap → Prop) h :
  E h → wp (raise e) Q E h.
Proof. done. Qed.

Lemma wp_bind {A B} (m : M A) (k : A → M B) Q E h :
  wp m (fun a h' => wp (k a) Q E h') E h → wp (hbind m k) Q E h.
Proof. unfold wp, hbind. by destruct (m h) as [[a|e] h']. Qed.

Lemma wp_mono {A} (m : M A) (Q Q' : A → heap → Prop) (E E' : heap → Prop) h :
  wp m Q E h → (∀ a h', Q a h' → Q' a h') → (∀ h', E h' → E' h') →
  wp m Q' E' h.
Proof. unfold wp. destruct (m h) as [[a|e] h']; auto. Qed.

Lemma wp_alloc o (Q : addr → heap → Prop) E h :
  Q (length h) (h ++ [o]) → wp (alloc o) Q E h.
Proof. done. Qed.


Lemma wp_load_at a o (Q : obj → heap → Prop) E h :
  h !! a = Some o → Q o h → wp (load a) Q E h.
Proof. unfold wp, load. by intros ->. Qed.

Lemma wp_store a o (Q : unit → heap → Prop) E h :
  Q tt (<[a := o]> h) → wp (store a o) Q E h.
Proof. done. Qed.

Lemma wp_lift {A} (r : res A) (Q : A → heap → Prop) (E : heap → Prop) h :
  (∀ a, r = Ok a → Q a h) → E h → wp (lift r) Q E h.
Proof. unfold wp, lift. destruct r; auto. Qed.

Lemma wp_lift_ok {A} (r : res A) a (Q : A → heap → Prop) E h :
  r = Ok a → Q a h → wp (lift r) Q E h.
Proof. by intros ->. Qed.

Lemma wp_try_except {A} e (m handler : M A) Q E h :
  wp m Q (fun h' => True) h →
  (∀ e' h', m h = (Raise e', h') → e' = e → wp handler Q E h') →
  (∀ e' h', m h = (Raise e', h') → e' ≠ e → E h') →
  wp (try_except e m handler) Q E h.
Proof.
  intros Hok Hh He. unfold wp in Hok. unfold wp at 1. unfold try_except.
  destruct (m h) as [[a|e'] h'] eqn:Hm; [done|].
  destruct (decide (e' = e)) as [Heq|Hne].
  - apply (Hh e' h' eq_refl Heq).
  - apply (He e' h' eq_refl Hne).
Qed.

(** ** Heaps that grow *)

Lemma lookup_new (h : heap) o : (h ++ [o]) !! length h = Some o.
Proof. by rewrite list_lookup_middle. Qed.

Lemma lookup_old (h t : heap) a o : h !! a = Some o → (h ++ t) !! a = Some o.
Proof. apply lookup_app_l_Some. Qed.

Lemma prefix_lookup (h h' : heap) a o :
  h `prefix_of` h' → h !! a = Some o → h' !! a = Some o.
Proof. intros [t ->]. apply lookup_old. Qed.

Lemma prefix_snoc (h0 h : heap) o : h0 `prefix_of` h → h0 `prefix_of` (h ++ [o]).
Proof. intros [t ->]. exists (t ++ [o]). by rewrite app_assoc. Qed.

Lemma prefix_insert (h0 h : heap) a o :
  h0 `prefix_of` h → length h0 ≤ a → h0 `prefix_of` <[a := o]> h.
Proof.
  intros [t ->] Ha. exists (<[a - length h0 := o]> t).
  by rewrite insert_app_r_alt.
Qed.

(** ** Diagonal matrices and products *)

Lemma length_vec_scale c v : length (vec_scale c v) = length v.
Proof. apply length_map. Qed.

Lemma vec_scale_0 v : vec_scale 0 v = replicate (length v) 0%Z.
Proof. induction v as [|x v IH]; simpl; [done | by rewrite IH]. Qed.

Lemma vec_add_0_l n v : length v = n → vec_add (replicate n 0%Z) v = v.
Proof.
  revert n. induction v as [|x v IH]; intros n <-; simpl; [done|].
  f_equal. by apply IH.
Qed.

Lemma vec_add_0_r n v : length v = n → vec_add v (replicate n 0%Z) = v.
Proof.
  revert n. induction v as [|x v IH]; intros n <-; simpl; [done|].
  f_equal; [lia | by apply IH].
Qed.

Lemma row_mul_cons n x r b (B : list (list Z)) :
  row_mul n (x :: r) (b :: B) = vec_add (vec_scale x b) (row_mul n r B).
Proof. done. Qed.

Lemma row_mul_zeros n k (B : list (list Z)) :
  Forall (fun r => length r = n) B →
  row_mul n (replicate k 0%Z) B = replicate n 0%Z.
Proof.
  intros HB. revert k. induction HB as [|b B Hb HB IH]; intros k.
  - by destruct k.
  - destruct k as [|k]; [done|].
    change (replicate (S k) 0%Z) with (0%Z :: replicate k 0%Z).
    rewrite row_mul_cons, IH, vec_scale_0, Hb.
    apply vec_add_0_l, length_replicate.
Qed.

Lemma row_mul_unit n (B : list (list Z)) : ∀ k i x b,
  Forall (fun r => length r = n) B →
  B !! i = Some b → i < k →
  row_mul n (<[i := x]> (replicate k 0%Z)) B = vec_scale x b.
Proof.
  induction B as [|b0 B IH]; intros k i x b HB Hi Hk; [done|].
  apply Forall_cons in HB as [Hb0 HB].
  destruct k as [|k]; [lia|]. destruct i as [|i]; simpl in Hi.
  - injection Hi as ->.
    change (<[0:=x]> (replicate (S k) 0%Z)) with (x :: replicate k 0%Z).
    rewrite row_mul_cons, row_mul_zeros by done.
    apply vec_add_0_r. by rewrite length_vec_scale.
  - change (<[S i:=x]> (replicate (S k) 0%Z))
      with (0%Z :: <[i:=x]> (replicate k 0%Z)).
    rewrite row_mul_cons, (IH k i x b HB Hi) by lia.
    rewrite vec_scale_0, Hb0. apply vec_add_0_l.
    rewrite length_vec_scale.
    eapply Forall_lookup_1 in HB; eauto.
Qed.

Lemma length_rows_diags a : length (rows (diags a)) = length a.
Proof. unfold diags. simpl. by rewrite length_imap. Qed.

Lemma rows_diags_lookup a i x :
  a !! i = Some x →
  rows (diags a) !! i = Some (<[i := x]> (replicate (length a) 0%Z)).
Proof. intros Hx. unfold diags. simpl. by rewrite list_lookup_imap, Hx. Qed.

(** [sps.diags(a) * J] scales row [i] of [J] by [a[i]]. *)
Lemma matmul_diags a J :
  nrows J = length a → mat_wf J →
  matmul (diags a) J = Ok (mkMat (ncols J) (zip_with vec_scale a (rows J))).
Proof.
  intros Hn Hwf. unfold matmul. rewrite decide_True by (simpl; lia).
  do 2 f_equal. apply list_eq. intros i.
  rewrite list_lookup_fmap, lookup_zip_with.
  destruct (a !! i) as [x|] eqn:Hx.
  - rewrite (rows_diags_lookup a i x Hx).
    pose proof (lookup_lt_Some _ _ _ Hx) as Hi.
    destruct (lookup_lt_is_Some_2 (rows J) i) as [b Hb]; [unfold nrows in Hn; lia|].
    rewrite Hb. simpl. f_equal. by apply row_mul_unit.
  - rewrite (lookup_ge_None_2 (rows (diags a))); [done|].
    rewrite length_rows_diags. by apply lookup_ge_None.
Qed.

Lemma entry_mkMat n (rs : list (list Z)) i j :
  entry (mkMat n rs) i j = default 0%Z (default [] (rs !! i) !! j).
Proof. done. Qed.

Lemma vec_scale_lookup c v j : vec_scale c v !! j = Z.mul c <$> v !! j.
Proof. apply list_lookup_fmap. Qed.

Lemma vec_add_lookup u v j :
  vec_add u v !! j
  = match u !! j, v !! j with Some x, Some y => Some (x + y)%Z | _, _ => None end.
Proof.
  unfold vec_add. rewrite lookup_zip_with.
  destruct (u !! j); simpl; [|done]. by destruct (v !! j).
Qed.

(** ** Calls of the methods *)

Import forward_mode.

Lemma wp_try_no_raise {A} e (m handler : M A) Q E h :
  wp m Q (fun _ => False) h → wp (try_except e m handler) Q E h.
Proof.
  unfold wp, try_except. destruct (m h) as [[a|e'] h']; [done|]. intros [].
Qed.

(** Looking an address up in a heap that has grown since the address was
    known. *)
Lemma lookup_new2 (h : list obj) o1 o2 : (h ++ [o1; o2]) !! S (length h) = Some o2.
Proof.
  rewrite lookup_app_r by lia. by replace (S (length h) - length h) with 1 by lia.
Qed.

Lemma lookup_insert_old (h : heap) a b o o' :
  h !! a = Some o → a ≠ b → <[b := o']> h !! a = Some o.
Proof. intros Ha Hne. by rewrite list_lookup_insert_ne. Qed.

Lemma lookup_insert_new (h : heap) b o :
  b < length h → <[b := o]> h !! b = Some o.
Proof. apply list_lookup_insert_eq. Qed.

(** Sizes of heaps, and addresses that differ. *)
Ltac heap_len :=
  repeat first [ rewrite length_insert | rewrite length_app ]; simpl; lia.

Ltac solve_lookup :=
  first [ eassumption
        | apply lookup_new
        | apply lookup_new2
        | apply lookup_old; solve_lookup
        | apply lookup_insert_new; heap_len
        | apply lookup_insert_old; [solve_lookup | heap_len] ].

Ltac solve_prefix :=
  repeat first [ apply prefix_app_r | apply prefix_insert; [| heap_len] ];
  reflexivity.

Ltac wp_step :=
  lazymatch goal with
  | |- wp (hbind _ _) _ _ _ => apply wp_bind
  | |- wp (ret _) _ _ _ => apply wp_ret
  | |- wp (alloc _) _ _ _ => apply wp_alloc
  | |- wp (store _ _) _ _ _ => apply wp_store
  | |- wp (load _) _ _ _ => eapply wp_load_at; [solve_lookup |]
  | |- wp (lift (Ok _)) _ _ _ => eapply wp_lift_ok; [reflexivity |]
  end.

Ltac wp_run := repeat (wp_step; cbn beta iota).

Lemma wp_get_val self v j (Q : addr → heap → Prop) E h :
  h !! self = Some (OAd v j) → Q v h → wp (get_val self) Q E h.
Proof. intros Hs HQ. unfold get_val. wp_run. done. Qed.

Lemma wp_get_jac self v j (Q : addr → heap → Prop) E h :
  h !! self = Some (OAd v j) → Q j h → wp (get_jac self) Q E h.
Proof. intros Hs HQ. unfold get_jac. wp_run. done. Qed.

Lemma wp_Ad_array v j (Q : addr → heap → Prop) E h :
  Q (length h) (h ++ [OAd v j]) → wp (Ad_array v j) Q E h.
Proof. done. Qed.

Lemma wp_unop f x ox o (Q : addr → heap → Prop) E h :
  h !! x = Some ox → f ox = Ok o →
  Q (length h) (h ++ [o]) → wp (unop f x) Q E h.
Proof. intros Hx Hf HQ. unfold unop. wp_run. rewrite Hf. wp_run. done. Qed.

Lemma wp_binop f x y ox oy o (Q : addr → heap → Prop) E h :
  h !! x = Some ox → h !! y = Some oy → f ox oy = Ok o →
  Q (length h) (h ++ [o]) → wp (binop f x y) Q E h.
Proof. intros Hx Hy Hf HQ. unfold binop. wp_run. rewrite Hf. wp_run. done. Qed.

Lemma wp_py_mul x y ox oy o (Q : addr → heap → Prop) E h :
  h !! x = Some ox → h !! y = Some oy → plain ox → plain oy →
  mul_leaf ox oy = Ok o →
  Q (length h) (h ++ [o]) → wp (py_mul x y) Q E h.
Proof.
  intros Hx Hy Hpx Hpy Hf HQ. unfold py_mul. wp_run.
  assert (wp (binop mul_leaf x y) Q E h) as Hb by (by eapply wp_binop).
  destruct ox, oy; try done.
Qed.

Lemma wp_py_add x y ox oy o (Q : addr → heap → Prop) E h :
  h !! x = Some ox → h !! y = Some oy → plain ox → plain oy →
  add_leaf ox oy = Ok o →
  Q (length h) (h ++ [o]) → wp (py_add x y) Q E h.
Proof.
  intros Hx Hy Hpx Hpy Hf HQ. unfold py_add. wp_run.
  assert (wp (binop add_leaf x y) Q E h) as Hb by (by eapply wp_binop).
  destruct ox, oy; try done.
Qed.

Lemma wp_diagvec_mul_jac self a v j x J P (Q : addr → heap → Prop) E h :
  h !! self = Some (OAd v j) → h !! j = Some (OMat J) → h !! a = Some (OVec x) →
  matmul (diags x) J = Ok P →
  Q (S (length h)) (h ++ [OMat (diags x); OMat P]) →
  wp (diagvec_mul_jac self a) Q E h.
Proof.
  intros Hs Hj Ha HP HQ. unfold diagvec_mul_jac. wp_run.
  apply wp_try_no_raise. unfold sps_diags. wp_run.
  eapply wp_get_jac; [solve_lookup|]. wp_run. simpl.
  eapply wp_py_mul; [solve_lookup | solve_lookup | done | done | |].
  - simpl. by rewrite HP.
  - rewrite <- app_assoc, length_app. simpl.
    by replace (length h + 1) with (S (length h)) by lia.
Qed.

Lemma mul_run h a b av aj bv bj va vb Ja Jb E :
  h !! a = Some (OAd av aj) → h !! av = Some (OVec va) → h !! aj = Some (OMat Ja) →
  h !! b = Some (OAd bv bj) → h !! bv = Some (OVec vb) → h !! bj = Some (OMat Jb) →
  length va = length vb → nrows Ja = length va → nrows Jb = length va →
  ncols Ja = ncols Jb → mat_wf Ja → mat_wf Jb →
  wp (__mul__ a b)
     (fun c h' => h `prefix_of` h' ∧ ∃ cv cj,
        h' !! c = Some (OAd cv cj)
        ∧ h' !! cv = Some (OVec (zip_with Z.mul va vb))
        ∧ h' !! cj = Some (OMat (mkMat (ncols Ja)
            (zip_with vec_add (zip_with vec_scale vb (rows Ja))
                              (zip_with vec_scale va (rows Jb))))))
     E h.
Proof.
  intros Ha Hav Haj Hb Hbv Hbj Hlen Hna Hnb Hnc Hwa Hwb.
  unfold __mul__. wp_run. cbn [negb is_Ad].
  wp_step. eapply wp_get_val; [solve_lookup|].
  wp_step. eapply wp_get_val; [solve_lookup|].
  wp_step. eapply wp_py_mul; [solve_lookup|solve_lookup|done|done| |].
  { simpl. unfold broadcast2. rewrite decide_True by done. done. }
  wp_step. eapply wp_diagvec_mul_jac; [solve_lookup|solve_lookup|solve_lookup| |].
  { apply matmul_diags; [lia|done]. }
  wp_step. eapply wp_diagvec_mul_jac; [solve_lookup|solve_lookup|solve_lookup| |].
  { apply matmul_diags; [lia|done]. }
  wp_step. eapply wp_py_add; [solve_lookup|solve_lookup|done|done| |].
  { simpl. unfold madd. rewrite decide_True; [done|].
    unfold nrows. simpl. rewrite !length_zip_with.
    unfold nrows in *. split; lia. }
  apply wp_Ad_array. split; [solve_prefix|].
  eexists _, _. split; [solve_lookup|]. split; solve_lookup.
Qed.

Lemma wp_elim {A} (m : M A) (Q : A → heap → Prop) h :
  wp m Q (fun _ => False) h → ∃ a h', m h = (Ok a, h') ∧ Q a h'.
Proof. unfold wp. destruct (m h) as [[a|e] h']; [eauto | done]. Qed.

(** ** The product rule *)

Lemma entry_product_rule (va vb : list Z) (Ja Jb : matrix) i j :
  nrows Ja = length va → nrows Jb = length va → length va = length vb →
  ncols Ja = ncols Jb → mat_wf Ja → mat_wf Jb →
  entry (mkMat (ncols Ja)
           (zip_with vec_add (zip_with vec_scale vb (rows Ja))
                             (zip_with vec_scale va (rows Jb)))) i j
  = (default 0 (vb !! i) * entry Ja i j + default 0 (va !! i) * entry Jb i j)%Z.
Proof.
  intros Hna Hnb Hlen Hnc Hwa Hwb. unfold entry, nrows in *. simpl.
  rewrite !lookup_zip_with.
  destruct (vb !! i) as [x|] eqn:Hx; simpl.
  2:{ apply lookup_ge_None in Hx.
      rewrite (lookup_ge_None_2 va) by lia. simpl. lia. }
  pose proof (lookup_lt_Some _ _ _ Hx) as Hi.
  destruct (lookup_lt_is_Some_2 va i ltac:(lia)) as [y Hy].
  destruct (lookup_lt_is_Some_2 (rows Ja) i ltac:(lia)) as [ra Hra].
  destruct (lookup_lt_is_Some_2 (rows Jb) i ltac:(lia)) as [rb Hrb].
  rewrite Hy, Hra, Hrb. simpl.
  pose proof (Forall_lookup_1 _ _ _ _ Hwa Hra) as Hla.
  pose proof (Forall_lookup_1 _ _ _ _ Hwb Hrb) as Hlb. simpl in Hla, Hlb.
  rewrite vec_add_lookup, !vec_scale_lookup.
  destruct (ra !! j) as [p|] eqn:Hp; simpl.
  - destruct (lookup_lt_is_Some_2 rb j) as [q Hq].
    { apply lookup_lt_Some in Hp. lia. }
    rewrite Hq. done.
  - apply lookup_ge_None in Hp. rewrite (lookup_ge_None_2 rb) by lia.
    simpl. lia.
Qed.

Lemma unit_row_lookup n i (x : Z) j :
  i < n →
  <[i := x]> (replicate n 0%Z) !! j
  = if decide (j < n) then Some (if decide (i = j) then x else 0%Z) else None.
Proof.
  intros Hi. destruct (decide (j < n)) as [Hj|Hj].
  - destruct (decide (i = j)) as [->|Hne].
    + rewrite list_lookup_insert_eq; [done | by rewrite length_replicate].
    + rewrite list_lookup_insert_ne by done. by apply lookup_replicate_2.
  - apply lookup_ge_None. rewrite length_insert, length_replicate. lia.
Qed.

(** For [J] the identity, [diag(v) J + diag(v) J] is [diag(2 v)]. *)
Lemma product_rule_square (v : list Z) :
  zip_with vec_add (zip_with vec_scale v (rows (diags (ones (length v)))))
                   (zip_with vec_scale v (rows (diags (ones (length v)))))
  = rows (diags (map (Z.mul 2) v)).
Proof.
  apply list_eq. intros i. rewrite !lookup_zip_with.
  destruct (v !! i) as [x|] eqn:Hx.
  - pose proof (lookup_lt_Some _ _ _ Hx) as Hi.
    rewrite (rows_diags_lookup (ones (length v)) i 1%Z)
      by (apply lookup_replicate_2; lia).
    rewrite (rows_diags_lookup (map (Z.mul 2) v) i (2 * x)%Z)
      by (by rewrite list_lookup_fmap, Hx).
    simpl. f_equal. unfold ones. rewrite length_replicate, length_map.
    apply list_eq. intros j.
    rewrite vec_add_lookup, !vec_scale_lookup, !unit_row_lookup by done.
    destruct (decide (j < length v)); simpl; [|done].
    destruct (decide (i = j)); f_equal; lia.
  - symmetry. apply lookup_ge_None. rewrite length_rows_diags, length_map.
    by apply lookup_ge_None.
Qed.

Lemma mat_wf_diags a : mat_wf (diags a).
Proof.
  unfold mat_wf, diags. simpl. apply Forall_forall. intros r Hr.
  apply list_elem_of_lookup in Hr as [i Hr].
  rewrite list_lookup_imap in Hr. destruct (a !! i); simplify_eq /=.
  by rewrite length_insert, length_replicate.
Qed.

(** C4: the product rule.  For two [Ad_array]s with values [va] and [vb]
    of one length and Jacobians [Ja] and [Jb] of one shape, [a * b] returns
    an [Ad_array] whose value is the entrywise product and whose Jacobian
    is [diag(vb) Ja + diag(va) Jb]: entry [(i, j)] is
    [vb[i] Ja[i,j] + va[i] Jb[i,j]].  For a seeded array, whose Jacobian is
    the identity, the Jacobian of [x * x] is [diag(2 x.val)]. *)
Theorem mul_product_rule h a b av aj bv bj va vb Ja Jb :
  h !! a = Some (OAd av aj) → h !! av = Some (OVec va) → h !! aj = Some (OMat Ja) →
  h !! b = Some (OAd bv bj) → h !! bv = Some (OVec vb) → h !! bj = Some (OMat Jb) →
  length va = length vb → nrows Ja = length va → nrows Jb = length va →
  ncols Ja = ncols Jb → mat_wf Ja → mat_wf Jb →
  ∃ c cv cj J h',
    __mul__ a b h = (Ok c, h')
    ∧ h' !! c = Some (OAd cv cj)
    ∧ h' !! cv = Some (OVec (zip_with Z.mul va vb))
    ∧ h' !! cj = Some (OMat J)
    ∧ (let! P := matmul (diags vb) Ja in
       let! P' := matmul (diags va) Jb in madd P P') = Ok J
    ∧ (∀ i j, entry J i j
              = (default 0 (vb !! i) * entry Ja i j
                 + default 0 (va !! i) * entry Jb i j)%Z)
    ∧ (Ja = diags (ones (length va)) → Jb = Ja → vb = va →
       J = diags (map (Z.mul 2) va)).
Proof.
  intros Ha Hav Haj Hb Hbv Hbj Hlen Hna Hnb Hnc Hwa Hwb.
  destruct (wp_elim _ _ _
    (mul_run h a b av aj bv bj va vb Ja Jb _
       Ha Hav Haj Hb Hbv Hbj Hlen Hna Hnb Hnc Hwa Hwb))
    as (c & h' & Hrun & _ & cv & cj & Hc & Hcv & Hcj).
  exists c, cv, cj,
    (mkMat (ncols Ja) (zip_with vec_add (zip_with vec_scale vb (rows Ja))
                                        (zip_with vec_scale va (rows Jb)))), h'.
  split; [done|]. split; [done|]. split; [done|]. split; [done|].
  split; [|split].
  - rewrite !matmul_diags by (done || lia). simpl.
    unfold madd. rewrite decide_True; [done|].
    unfold nrows in *. simpl. rewrite !length_zip_with. split; lia.
  - intros i j. by apply entry_product_rule.
  - intros -> -> ->. unfold diags at 3. simpl.
    rewrite product_rule_square. unfold diags, ones. simpl.
    by rewrite length_replicate, length_map.
Qed.


Lemma mul_product_rule_witness :
  ∃ c cv cj J h',
    __mul__ 2 2 mul_heap = (Ok c, h')
    ∧ h' !! c = Some (OAd cv cj)
    ∧ h' !! cv = Some (OVec [9; 25]%Z)
    ∧ h' !! cj = Some (OMat J)
    ∧ J = diags [6; 10]%Z.
Proof.
  destruct (mul_product_rule mul_heap 2 2 0 1 0 1 [3; 5]%Z [3; 5]%Z
              (diags (ones 2)) (diags (ones 2)))
    as (c & cv & cj & J & h' & Hrun & Hc & Hcv & Hcj & _ & _ & Hsq);
    try reflexivity; try apply mat_wf_diags.
  exists c, cv, cj, J, h'. repeat split; try done. by apply Hsq.
Defined.


(** ** The seeding scenario *)

(** C8 as stated fails: the Jacobian of the first seeded array has one
    column for each entry of the global vector, two here, so that it is
    [[1, 0]] and not [[1]], and that of its square is [[6, 0]]; and a list
    of Python numbers cannot be seeded at all, a number has no [size]. *)
Lemma seed_scenario_counterexample :
  ¬ (∃ x y h', seed_and_square 2 3 seed_heap = (Ok (x, y), h')
       ∧ read_ad h' x = Some (OVec [3]%Z, OMat (mkMat 1 [[1]%Z]))
       ∧ read_ad h' y = Some (OVec [9]%Z, OMat (mkMat 1 [[6]%Z])))
  ∧ fst (seed_and_square 2 3 seed_heap_numbers) = Raise AttributeError.
Proof.
  split; [|by vm_compute].
  intros (x & y & h' & Hrun & Hx & _). vm_compute in Hrun.
  injection Hrun as <- <- <-. vm_compute in Hx. discriminate.
Qed.

(** C8, amended: seeding the list of the one-entry arrays [3] and [4]
    gives a first array with value [3] and Jacobian [[1, 0]]; its square
    has value [9] and Jacobian [[6, 0]]. *)
Theorem seed_scenario :
  ∃ x y h', seed_and_square 2 3 seed_heap = (Ok (x, y), h')
    ∧ read_ad h' x = Some (OVec [3]%Z, OMat (mkMat 2 [[1; 0]%Z]))
    ∧ read_ad h' y = Some (OVec [9]%Z, OMat (mkMat 2 [[6; 0]%Z])).
Proof. eexists _, _, _. split; [by vm_compute|]. by vm_compute. Qed.


(** ** Seeding *)

Lemma bmat_row_rows (blocks : list matrix) n :
  blocks ≠ [] → Forall (fun b => nrows b = n) blocks →
  bmat_row blocks
  = Ok (mkMat (sum_list (map ncols blocks))
          (map (fun r => concat (map (fun b => default [] (rows b !! r)) blocks))
               (seq 0 n))).
Proof.
  intros Hne Hn. unfold bmat_row. destruct blocks as [|b bs]; [done|].
  pose proof Hn as Hn'. apply Forall_cons in Hn' as [Hb _].
  assert (forallb (fun b' => bool_decide (nrows b' = nrows b)) (b :: bs) = true) as ->.
  { apply forallb_forall. intros b' Hb'. apply bool_decide_eq_true.
    apply list_elem_of_In in Hb'. rewrite Hb.
    by eapply Forall_forall in Hn. }
  rewrite (imap_seq_0 (rows b)
    (fun r => concat (map (fun b' => default [] (rows b' !! r)) (b :: bs)))).
  unfold nrows in Hb. by rewrite Hb.
Qed.

Lemma concat_zero_blocks (ms : list nat) :
  concat (map (fun m => replicate m 0%Z) ms) = replicate (sum_list ms) 0%Z.
Proof.
  induction ms as [|m ms IH]; simpl; [done|]. by rewrite IH, replicate_add.
Qed.

Lemma sum_list_take_drop (l : list nat) i n :
  l !! i = Some n →
  sum_list l = sum_list (take i l) + n + sum_list (drop (S i) l).
Proof.
  revert i. induction l as [|x l IH]; intros i Hi; [done|].
  destruct i as [|i]; simpl in *.
  - injection Hi as ->. rewrite drop_0. lia.
  - rewrite (IH i Hi). lia.
Qed.

Lemma seed_jac_rows (num_val : list nat) i n :
  num_val !! i = Some n →
  seed_jac num_val i n
  = Ok (mkMat (sum_list num_val) (map (seed_row num_val i n) (seq 0 n))).
Proof.
  intros Hi. pose proof (lookup_lt_Some _ _ _ Hi) as Hlt. unfold seed_jac.
  rewrite (bmat_row_rows _ n).
  - f_equal. f_equal.
    + rewrite list_fmap_insert. rewrite <- list_fmap_compose.
      rewrite (list_fmap_ext (ncols ∘ zero_matrix n) id num_val) by done.
      rewrite list_fmap_id. simpl. unfold ones.
      rewrite length_replicate. by rewrite list_insert_id.
    + apply list_fmap_ext. intros r x Hx.
      apply lookup_seq in Hx as [-> Hr]. simpl. rewrite list_fmap_insert, <- list_fmap_compose.
      rewrite (rows_diags_lookup (ones n) r 1%Z)
        by (apply lookup_replicate_2; lia).
      simpl. unfold ones. rewrite length_replicate.
      rewrite (list_fmap_ext _ (fun m => replicate m 0%Z) num_val).
      2:{ intros k m _. simpl. by rewrite lookup_replicate_2 by lia. }
      rewrite insert_take_drop by (rewrite length_map; lia).
      rewrite concat_app, concat_cons.
      rewrite <- fmap_take, <- fmap_drop, !concat_zero_blocks. done.
  - intros Hnil. apply (f_equal length) in Hnil.
    rewrite length_insert, length_map in Hnil. simpl in Hnil. lia.
  - apply Forall_forall. intros b Hb. apply list_elem_of_lookup in Hb as [k Hb].
    destruct (decide (i = k)) as [->|Hne].
    + rewrite list_lookup_insert_eq in Hb by (rewrite length_map; lia).
      injection Hb as <-. unfold nrows. rewrite length_rows_diags.
      apply length_replicate.
    + rewrite list_lookup_insert_ne, list_lookup_fmap in Hb by done.
      destruct (num_val !! k); simplify_eq /=. unfold nrows. simpl.
      apply length_replicate.
Qed.

Lemma entry_seed (num_val : list nat) i n r c :
  entry (mkMat (sum_list num_val) (map (seed_row num_val i n) (seq 0 n))) r c
  = if decide (r < n ∧ c = sum_list (take i num_val) + r) then 1%Z else 0%Z.
Proof.
  unfold entry. simpl. rewrite list_lookup_fmap.
  destruct (decide (r < n)) as [Hr|Hr].
  2:{ rewrite lookup_seq_ge by lia. simpl. rewrite decide_False by lia. done. }
  rewrite lookup_seq_lt by done. simpl. unfold seed_row.
  set (off := sum_list (take i num_val)).
  destruct (decide (c < off)) as [Hc|Hc].
  { rewrite lookup_app_l by (rewrite length_replicate; lia).
    rewrite lookup_replicate_2 by lia. simpl. by rewrite decide_False by lia. }
  rewrite lookup_app_r by (rewrite length_replicate; lia).
  rewrite length_replicate.
  destruct (decide (c - off < n)) as [Hc'|Hc'].
  - rewrite lookup_app_l by (rewrite length_insert, length_replicate; lia).
    rewrite unit_row_lookup by done. rewrite decide_True by done. simpl.
    destruct (decide (r = c - off)).
    + by rewrite decide_True by lia.
    + by rewrite decide_False by lia.
  - rewrite lookup_app_r by (rewrite length_insert, length_replicate; lia).
    rewrite length_insert, length_replicate.
    rewrite decide_False by lia.
    destruct (replicate _ 0%Z !! _) as [z|] eqn:Hz; simpl; [|done].
    by apply lookup_replicate in Hz as [-> _].
Qed.

Lemma wp_for_list_size (items : list addr) (vs : list (list Z)) E h :
  Forall2 (fun it v => h !! it = Some (OVec v)) items vs →
  wp (for_list py_size items) (fun r h' => h' = h ∧ r = map length vs) E h.
Proof.
  intros Hall. induction Hall as [|it v items vs Hit _ IH]; simpl.
  - by apply wp_ret.
  - wp_step. unfold py_size. wp_run.
    eapply wp_mono; [apply IH | | done].
    intros r h' [-> ->]. by wp_run.
Qed.

Lemma seed_loop (num_val : list nat) (l : list (nat * addr)) : ∀ h E,
  Forall (fun p => is_Some (num_val !! fst p)) l →
  wp (for_list (fun '(i, val) =>
          let* n := lift (of_option IndexError (num_val !! i)) in
          let* J := lift (seed_jac num_val i n) in
          let* jac := alloc (OMat J) in
          Ad_array val jac) l)
     (fun ads h' =>
        h `prefix_of` h' ∧ length ads = length l
        ∧ ∀ k i val, l !! k = Some (i, val) →
            ∃ ad jac n,
              ads !! k = Some ad ∧ num_val !! i = Some n
              ∧ h' !! ad = Some (OAd val jac)
              ∧ h' !! jac = Some (OMat (mkMat (sum_list num_val)
                                   (map (seed_row num_val i n) (seq 0 n)))))
     E h.
Proof.
  induction l as [|[i val] l IH]; intros h E Hall; simpl.
  - apply wp_ret. repeat split; [done|]. intros k i val Hk. done.
  - apply Forall_cons in Hall as [[n Hn] Hall]. simpl in Hn.
    wp_step. rewrite Hn. simpl. wp_run.
    rewrite (seed_jac_rows num_val i n Hn). wp_run.
    unfold Ad_array. wp_run.
    eapply wp_mono; [apply (IH _ E Hall) | | done].
    intros ads h' (Hpre & Hlen & Hads). wp_run.
    split; [|split].
    + etrans; [|exact Hpre]. solve_prefix.
    + simpl. by rewrite Hlen.
    + intros k i' val' Hk. destruct k as [|k]; simpl in Hk.
      * injection Hk as <- <-. eexists _, _, n. split; [done|]. split; [done|].
        split; eapply prefix_lookup; try exact Hpre; solve_lookup.
      * apply (Hads k i' val' Hk).
Qed.

(** C3: seeding.  On a list of arrays [initAdArrays] returns a list with
    one [Ad_array] for each array of the list: its value is that array
    itself, and its Jacobian has a row for each entry of the array, a
    column for each entry of all the arrays together, a one in row [r] at
    column [r] of the block of the array, and zeros elsewhere.  On a single
    array it returns one [Ad_array] with that array as value and the
    identity matrix of its size as Jacobian. *)
Theorem initAdArrays_seeds :
  (∀ h variables items (vs : list (list Z)),
      h !! variables = Some (OList items) →
      Forall2 (fun it v => h !! it = Some (OVec v)) items vs →
      ∃ r ads h',
        initAdArrays variables h = (Ok r, h')
        ∧ h `prefix_of` h'
        ∧ h' !! r = Some (OList ads)
        ∧ length ads = length items
        ∧ ∀ i it v, items !! i = Some it → vs !! i = Some v →
            ∃ ad jac J,
              ads !! i = Some ad
              ∧ h' !! ad = Some (OAd it jac)
              ∧ h' !! it = Some (OVec v)
              ∧ h' !! jac = Some (OMat J)
              ∧ nrows J = length v
              ∧ ncols J = sum_list (map length vs)
              ∧ ∀ r c, entry J r c
                  = if decide (r < length v
                               ∧ c = sum_list (map length (take i vs)) + r)
                    then 1%Z else 0%Z)
  ∧ (∀ h variables (v : list Z),
      h !! variables = Some (OVec v) →
      ∃ r jac h',
        initAdArrays variables h = (Ok r, h')
        ∧ h `prefix_of` h'
        ∧ h' !! r = Some (OAd variables jac)
        ∧ h' !! variables = Some (OVec v)
        ∧ h' !! jac = Some (OMat (diags (ones (length v))))
        ∧ ∀ r c, entry (diags (ones (length v))) r c
            = if decide (r < length v ∧ c = r) then 1%Z else 0%Z).
Proof.
  split.
  - intros h variables items vs Hvar Hall.
    pose proof (Forall2_length _ _ _ Hall) as Hlen.
    assert (wp (initAdArrays variables)
      (fun r h' => h `prefix_of` h' ∧ ∃ ads, h' !! r = Some (OList ads)
         ∧ length ads = length items
         ∧ ∀ k i val, imap (fun i val => (i, val)) items !! k = Some (i, val) →
            ∃ ad jac n,
              ads !! k = Some ad ∧ map length vs !! i = Some n
              ∧ h' !! ad = Some (OAd val jac)
              ∧ h' !! jac = Some (OMat (mkMat (sum_list (map length vs))
                     (map (seed_row (map length vs) i n) (seq 0 n)))))
      (fun _ => False) h) as Hwp.
    { unfold initAdArrays. wp_run.
      eapply wp_mono;
        [apply (wp_for_list_size items vs (fun _ => False) h Hall) | | done].
      intros r h' [-> ->]. cbn beta. wp_step.
      eapply wp_mono; [apply (seed_loop _ _ _ (fun _ => False)) | | done].
      - apply Forall_forall. intros [i val] Hin.
        apply list_elem_of_lookup in Hin as [k Hk].
        rewrite list_lookup_imap in Hk.
        destruct (items !! k) eqn:Hit; simplify_eq /=.
        apply lookup_lt_is_Some_2. rewrite length_map, <- Hlen.
        by eapply lookup_lt_Some.
      - intros ads h' (Hpre & Hl & Hads). wp_run.
        split; [by apply prefix_app_r|]. exists ads.
        split; [solve_lookup|]. split; [by rewrite Hl, length_imap|].
        intros k i val Hk. destruct (Hads k i val Hk) as (ad & jac & n & ?&?&?&?).
        exists ad, jac, n. repeat split; try done; by apply lookup_old. }
    apply wp_elim in Hwp as (r & h' & Hrun & Hpre & ads & Hr & Hl & Hads).
    exists r, ads, h'. repeat split; try done.
    intros i it v Hit Hv.
    destruct (Hads i i it) as (ad & jac & n & Had & Hn & Hoad & Hjac).
    { by rewrite list_lookup_imap, Hit. }
    rewrite list_lookup_fmap, Hv in Hn. injection Hn as <-.
    eexists ad, jac, _. repeat split; try done.
    + eapply prefix_lookup; [done|].
      by eapply (Forall2_lookup_lr _ _ _ _ _ _ Hall).
    + unfold nrows. simpl. by rewrite length_map, length_seq.
    + intros r0 c. rewrite entry_seed. by rewrite fmap_take.
  - intros h variables v Hvar.
    assert (wp (initAdArrays variables)
      (fun r h' => h `prefix_of` h' ∧ ∃ jac, h' !! r = Some (OAd variables jac)
         ∧ h' !! jac = Some (OMat (diags (ones (length v)))))
      (fun _ => False) h) as Hwp.
    { unfold initAdArrays. wp_run. apply wp_try_no_raise.
      unfold py_size. wp_run. unfold Ad_array. wp_run.
      split; [solve_prefix|]. eexists. split; solve_lookup. }
    apply wp_elim in Hwp as (r & h' & Hrun & Hpre & jac & Hr & Hjac).
    exists r, jac, h'. repeat split; try done.
    + by eapply prefix_lookup.
    + intros r0 c. unfold entry, ones.
      destruct (decide (r0 < length v)) as [Hr0|Hr0].
      * rewrite (rows_diags_lookup _ r0 1%Z) by (by apply lookup_replicate_2).
        simpl. rewrite length_replicate, unit_row_lookup by done.
        destruct (decide (c < length v)); simpl.
        -- destruct (decide (r0 = c)).
           ++ by rewrite decide_True by (split; [done | congruence]).
           ++ by rewrite decide_False by (intros [_ ?]; congruence).
        -- by rewrite decide_False by lia.
      * rewrite (lookup_ge_None_2 (rows _)).
        -- simpl. by rewrite decide_False by lia.
        -- rewrite length_rows_diags, length_replicate. lia.
Qed.

Lemma initAdArrays_seeds_witness :
  (∃ r ads h',
      initAdArrays 2 seed_heap = (Ok r, h')
      ∧ h' !! r = Some (OList ads) ∧ length ads = 2)
  ∧ (∃ r jac h',
      initAdArrays 0 seed_heap = (Ok r, h')
      ∧ h' !! r = Some (OAd 0 jac)
      ∧ h' !! jac = Some (OMat (diags (ones 1)))).
Proof.
  split.
  - destruct (proj1 initAdArrays_seeds seed_heap 2 [0; 1] [[3]%Z; [4]%Z])
      as (r & ads & h' & Hrun & _ & Hr & Hl & _).
    + reflexivity.
    + repeat constructor.
    + by exists r, ads, h'.
  - destruct (proj2 initAdArrays_seeds seed_heap 0 [3]%Z)
      as (r & jac & h' & Hrun & _ & Hr & _ & Hjac & _).
    + reflexivity.
    + by exists r, jac, h'.
Defined.


(** ** [copy] *)

(** [x.copy()] inside [try ... except AttributeError: x]. *)
Lemma wp_copy_or_keep x ox (Q : addr → heap → Prop) E h :
  h !! x = Some ox → is_Ad ox = false →
  (if is_number ox then Q x h else Q (length h) (h ++ [ox])) →
  wp (try_except AttributeError (py_copy x) (ret x)) Q E h.
Proof.
  intros Hx Had HQ. unfold wp, try_except, py_copy, hbind, load, alloc, raise, ret.
  rewrite Hx. simpl. by destruct ox.
Qed.

(** A call whose behaviour a lemma describes. *)
Ltac wp_call lem :=
  lazymatch goal with
  | |- wp (hbind _ _) _ _ _ => apply wp_bind
  | _ => idtac
  end; eapply lem.

Lemma wp_set_val b v j x (Q : unit → heap → Prop) E h :
  h !! b = Some (OAd v j) → Q tt (<[b := OAd x j]> h) → wp (set_val b x) Q E h.
Proof. intros Hb HQ. unfold set_val. wp_run. done. Qed.

Lemma wp_set_jac b v j x (Q : unit → heap → Prop) E h :
  h !! b = Some (OAd v j) → Q tt (<[b := OAd v x]> h) → wp (set_jac b x) Q E h.
Proof. intros Hb HQ. unfold set_jac. wp_run. done. Qed.

(** C7 as stated fails: the copy of a Jacobian that is an array of
    component matrices is a new array of the same components.  Here the
    component of the copy is the matrix at address 1, the component of the
    original; changing it through the copy changes the original, whose
    component [[5]] has become [[7]]. *)
Lemma copy_shares_components :
  ∃ c h',
    copy_then_change 3 4 [0] copy_heap = (Ok c, h')
    ∧ c = 1
    ∧ copy_heap !! 1 = Some (OMat (mkMat 1 [[5]%Z]))
    ∧ read_ad h' 3 = Some (OVec [1]%Z, OArr [1])
    ∧ h' !! 1 = Some (OMat (mkMat 1 [[7]%Z])).
Proof. eexists _, _. split; [by vm_compute|]. by vm_compute. Qed.

(** C7, amended: [copy] returns a new [Ad_array].  Its value and its
    Jacobian are what the [copy] methods of the value and of the Jacobian
    of the original return, new objects with the same content, and the
    objects of the original themselves when they are Python numbers, which
    have no [copy].  The content of an array of component matrices is the
    list of its components: the copy holds the components of the
    original. *)
Theorem copy_spec h a v j ov oj :
  h !! a = Some (OAd v j) → h !! v = Some ov → h !! j = Some oj →
  is_Ad ov = false → is_Ad oj = false →
  ∃ b bv bj h',
    copy a h = (Ok b, h')
    ∧ h `prefix_of` h'
    ∧ length h ≤ b
    ∧ h' !! b = Some (OAd bv bj)
    ∧ h' !! bv = Some ov
    ∧ h' !! bj = Some oj
    ∧ (if is_number ov then bv = v else length h ≤ bv)
    ∧ (if is_number oj then bj = j else length h ≤ bj).
Proof.
  intros Ha Hv Hj Hav Haj.
  pose proof (lookup_lt_Some _ _ _ Ha) as Hla.
  pose proof (lookup_lt_Some _ _ _ Hv) as Hlv.
  pose proof (lookup_lt_Some _ _ _ Hj) as Hlj.
  assert (wp (copy a)
    (fun b h' => ∃ bv bj, h `prefix_of` h' ∧ length h ≤ b
       ∧ h' !! b = Some (OAd bv bj) ∧ h' !! bv = Some ov ∧ h' !! bj = Some oj
       ∧ (if is_number ov then bv = v else length h ≤ bv)
       ∧ (if is_number oj then bj = j else length h ≤ bj))
    (fun _ => False) h) as Hwp.
  { unfold copy, Ad_array_0, Ad_array_1, Ad_array. wp_run.
    wp_call wp_get_val; [solve_lookup|].
    wp_call wp_copy_or_keep; [solve_lookup | done |].
    destruct (is_number ov) eqn:Hnv;
      (wp_call wp_set_val; [solve_lookup|];
       wp_call wp_get_jac; [solve_lookup|];
       wp_call wp_copy_or_keep; [solve_lookup | done |];
       destruct (is_number oj) eqn:Hnj;
         (wp_call wp_set_jac; [solve_lookup|]; wp_run;
          eexists _, _; split; [solve_prefix|];
          split; [heap_len|];
          split; [solve_lookup|];
          split; [solve_lookup|];
          split; [solve_lookup|];
          split; first [done | heap_len])). }
  apply wp_elim in Hwp as (b & h' & Hrun & bv & bj & ?&?&?&?&?&?&?).
  by exists b, bv, bj, h'.
Qed.

Lemma copy_spec_witness :
  ∃ b bv bj h',
    copy 3 copy_heap = (Ok b, h')
    ∧ h' !! b = Some (OAd bv bj)
    ∧ h' !! bv = Some (OVec [1]%Z)
    ∧ h' !! bj = Some (OArr [1]).
Proof.
  destruct (copy_spec copy_heap 3 0 2 (OVec [1]%Z) (OArr [1]))
    as (b & bv & bj & h' & Hrun & _ & _ & Hb & Hbv & Hbj & _);
    try reflexivity.
  by exists b, bv, bj, h'.
Defined.


(** ** Rows picked by a boolean array *)









(** ** [maximum] *)


Lemma wp_zero_like_jac x v j J (Q : addr → heap → Prop) E h :
  h !! x = Some (OAd v j) → h !! j = Some (OMat J) →
  Q (length h) (h ++ [OMat (zero_matrix (nrows J) (ncols J))]) →
  wp (functions.zero_like_jac x) Q E h.
Proof.
  intros Hx Hj HQ. unfold functions.zero_like_jac.
  wp_call wp_get_jac; [solve_lookup|]. unfold functions.shape. wp_run. done.
Qed.






(** ** Operands stay as they are *)

Lemma fresh_field_prefix n h h' a :
  fresh_field n h a → h `prefix_of` h' → fresh_field n h' a.
Proof.
  intros (Hn & o & Ho & Hc) Hpre. split; [done|]. exists o.
  split; [by eapply prefix_lookup|]. destruct o; try done.
  eapply Forall_impl; [exact Hc|]. intros c (? & oc & ? & ?).
  split; [done|]. exists oc. split; [by eapply prefix_lookup | done].
Qed.





Lemma fresh_result_prefix n h h' a :
  fresh_result n h a → h `prefix_of` h' → fresh_result n h' a.
Proof.
  intros [Hf | (Hn & v & j & Ha & Hv & Hj)] Hpre.
  - left. by eapply fresh_field_prefix.
  - right. split; [done|]. exists v, j. split; [by eapply prefix_lookup|].
    split; by eapply fresh_field_prefix.
Qed.

Lemma prefix_length_le (h h' : heap) : h `prefix_of` h' → length h ≤ length h'.
Proof. apply prefix_length. Qed.



(** *** numpy and scipy *)












(** *** Reading and setting attributes, whatever the object *)



























(** *** Calls that only add objects *)


Lemma grows_raise {A} e : grows (@raise A e).
Proof. intros h. by apply wp_raise. Qed.
Lemma grows_lift {A} (r : res A) : grows (lift r).
Proof. intros h. by apply wp_lift. Qed.






(** *** Calls that set attributes of an [Ad_array] of their own *)











(** *** [maximum] and [characteristic_function] *)













(** [c = a - b] and [c = -a] return on that heap. *)
Lemma sub_and_neg_return :
  (∃ c, (run (Sub 2 5) sub_heap).1 = Ok c) ∧
  (∃ c, (run (Neg 2) sub_heap).1 = Ok c).
Proof. split; eexists; vm_compute; reflexivity. Qed.


(** * More properties of the degree-of-freedom manager *)

(** ** The layout that [__init__] builds *)

Lemma init_keys mdg :
  wf_mdg mdg → map fst (block_dof (init mdg)) = map fst (declared mdg).
Proof.
  intros Hwf. rewrite init_block_dof by done.
  apply fst_zip. rewrite length_seq, length_map. lia.
Qed.

(** X1: the layout of a manager.  For a grid that declares no pair twice,
    [__init__] registers the declared pairs in the order in which the grid
    lists them, numbers them 0, 1, ... in that order, and stores one number
    of dofs for each: [len(full_dof) == len(block_dof)]. *)
Theorem init_layout (mdg : MixedDimensionalGrid) :
  wf_mdg mdg →
  length (full_dof (init mdg)) = length (block_dof (init mdg))
  ∧ map fst (block_dof (init mdg)) = map fst (declared mdg)
  ∧ map snd (block_dof (init mdg)) = seq 0 (length (declared mdg))
  ∧ full_dof (init mdg) = map snd (declared mdg).
Proof.
  intros Hwf. pose proof (init_wf mdg Hwf) as [_ Hlen _].
  split; [done|]. split; [by apply init_keys|]. split.
  - rewrite init_block_dof by done.
    apply snd_zip. rewrite length_seq, length_map. lia.
  - by apply init_full_dof.
Qed.

Lemma init_layout_witness :
  length (full_dof Scenario.dm) = length (block_dof Scenario.dm)
  ∧ map fst (block_dof Scenario.dm) = map fst (declared Scenario.mdg)
  ∧ map snd (block_dof Scenario.dm) = seq 0 (length (declared Scenario.mdg))
  ∧ full_dof Scenario.dm = map snd (declared Scenario.mdg).
Proof. exact (init_layout Scenario.mdg scenario_wf). Defined.

(** ** The dofs of a block *)

Lemma block_start_declared mdg j :
  wf_mdg mdg →
  block_start (init mdg) j = sum_list (take j (map snd (declared mdg))).
Proof. intros Hwf. unfold block_start. by rewrite init_full_dof. Qed.

(** X2: which pairs have dofs, and which dofs.  On a manager built from a
    grid that declares no pair twice, [grid_and_variable_to_dofs] returns
    for the [j]-th declared pair, of [w] dofs, the [w] consecutive indices
    that start at the sum of the numbers of dofs of the pairs declared
    before it; for a pair that the grid does not declare it raises
    [KeyError]; it raises nothing else. *)
Theorem grid_and_variable_to_dofs_declared (mdg : MixedDimensionalGrid)
    (g : GridLike) (var : string) :
  wf_mdg mdg →
  match grid_and_variable_to_dofs (init mdg) g var with
  | Ok dofs =>
      ∃ j w, declared mdg !! j = Some ((g, var), w)
             ∧ dofs = seq (sum_list (take j (map snd (declared mdg)))) w
  | Raise e => e = KeyError ∧ (g, var) ∉ map fst (declared mdg)
  end.
Proof.
  intros Hwf. pose proof (init_wf mdg Hwf) as Hdm.
  destruct (dict_get (g, var) (block_dof (init mdg))) as [j|] eqn:Hj.
  - destruct (grid_and_variable_to_dofs_block _ g var j Hdm Hj) as (w & Hw & ->).
    exists j, w. split; [|by rewrite block_start_declared].
    apply (block_key_index _ g var j Hdm) in Hj.
    rewrite init_keys in Hj by done. rewrite init_full_dof in Hw by done.
    rewrite list_lookup_fmap in Hj. rewrite list_lookup_fmap in Hw.
    destruct (declared mdg !! j) as [[k w']|]; simplify_eq /=. done.
  - unfold grid_and_variable_to_dofs. rewrite Hj. simpl. split; [done|].
    apply dict_get_None in Hj. by rewrite init_keys in Hj.
Qed.

Lemma grid_and_variable_to_dofs_declared_witness :
  (∃ j w, declared Scenario.mdg !! j = Some ((Sd Scenario.E2, "p"), w)
          ∧ [3; 4] = seq (sum_list (take j (map snd (declared Scenario.mdg)))) w)
  ∧ (KeyError = KeyError
     ∧ (Sd Scenario.E2, "q") ∉ map fst (declared Scenario.mdg)).
Proof.
  split.
  - exact (grid_and_variable_to_dofs_declared Scenario.mdg (Sd Scenario.E2) "p"
             scenario_wf).
  - exact (grid_and_variable_to_dofs_declared Scenario.mdg (Sd Scenario.E2) "q"
             scenario_wf).
Defined.

(** A position lies in one block only. *)
Lemma block_unique dm i j w k u :
  full_dof dm !! j = Some w → full_dof dm !! k = Some u →
  block_start dm j ≤ i < block_start dm j + w →
  block_start dm k ≤ i < block_start dm k + u →
  j = k.
Proof.
  intros Hw Hu Hj Hk.
  destruct (decide (j = k)) as [|Hne]; [done|]. exfalso.
  destruct (decide (j < k)).
  - pose proof (block_start_mono dm (S j) k ltac:(lia)).
    rewrite (block_start_S dm j w Hw) in *. lia.
  - pose proof (block_start_mono dm (S k) j ltac:(lia)).
    rewrite (block_start_S dm k u Hu) in *. lia.
Qed.

Lemma dof_of_block dm g var j w i :
  wf_dm dm → dict_get (g, var) (block_dof dm) = Some j →
  full_dof dm !! j = Some w →
  block_start dm j ≤ i < block_start dm j + w →
  dof_to_grid_and_variable dm (Z.of_nat i) = Ok (g, var).
Proof.
  intros Hdm Hj Hw Hi. pose proof (block_bound dm j w Hw) as Hb.
  destruct (dof_to_grid_and_variable_in_range dm i Hdm ltac:(lia))
    as (g' & var' & j' & w' & -> & Hj' & Hw' & Hi').
  assert (j' = j) as -> by (by eapply block_unique).
  apply (block_key_index dm g var j Hdm) in Hj.
  apply (block_key_index dm g' var' j Hdm) in Hj'. congruence.
Qed.

(** X3: the inverse lookup undoes the lookup.  On a manager built from a
    grid that declares no pair twice, every index that
    [grid_and_variable_to_dofs] lists for a pair is mapped back to that
    pair by [dof_to_grid_and_variable]. *)
Theorem dof_to_grid_and_variable_left_inverse (mdg : MixedDimensionalGrid)
    (g : GridLike) (var : string) (dofs : list nat) (i : nat) :
  wf_mdg mdg →
  grid_and_variable_to_dofs (init mdg) g var = Ok dofs →
  i ∈ dofs →
  dof_to_grid_and_variable (init mdg) (Z.of_nat i) = Ok (g, var).
Proof.
  intros Hwf Hdofs Hi. pose proof (init_wf mdg Hwf) as Hdm.
  destruct (dict_get (g, var) (block_dof (init mdg))) as [j|] eqn:Hj.
  - destruct (grid_and_variable_to_dofs_block _ g var j Hdm Hj) as (w & Hw & Hd).
    rewrite Hd in Hdofs. injection Hdofs as <-.
    apply elem_of_seq in Hi. by eapply dof_of_block.
  - unfold grid_and_variable_to_dofs in Hdofs. by rewrite Hj in Hdofs.
Qed.

Lemma dof_to_grid_and_variable_left_inverse_witness :
  dof_to_grid_and_variable Scenario.dm (Z.of_nat 4) = Ok (Sd Scenario.E2, "p").
Proof.
  apply (dof_to_grid_and_variable_left_inverse Scenario.mdg (Sd Scenario.E2) "p"
           [3; 4] 4 scenario_wf).
  - reflexivity.
  - apply elem_of_cons. right. apply elem_of_cons. by left.
Defined.

(** The blocks of the first [k] keys fill the positions before block [k]. *)
Lemma blocks_in_order_take dm k :
  wf_dm dm → k ≤ length (full_dof dm) →
  blocks_in_order dm (take k (map fst (block_dof dm)))
  = Ok (seq 0 (block_start dm k)).
Proof.
  intros Hdm. pose proof Hdm as [_ Hlen _]. induction k as [|k IH]; intros Hk.
  - done.
  - destruct (lookup_lt_is_Some_2 (map fst (block_dof dm)) k) as [[g var] Hkey].
    { rewrite length_map. lia. }
    rewrite (take_S_r _ _ _ Hkey). unfold blocks_in_order in *.
    rewrite for_each_snoc, IH by lia. simpl.
    apply (block_key_index dm g var k Hdm) in Hkey.
    destruct (grid_and_variable_to_dofs_block dm g var k Hdm Hkey) as (w & Hw & ->).
    simpl. rewrite (block_start_S dm k w Hw). by rewrite seq_app.
Qed.

(** X4: the blocks tile the global vector.  On a manager built from a grid
    that declares no pair twice, the dofs of the registered pairs, taken in
    the order of their block indices, are 0, 1, ..., [num_dofs() - 1]: no
    index is missing and none belongs to two blocks. *)
Theorem blocks_tile (mdg : MixedDimensionalGrid) :
  wf_mdg mdg →
  blocks_in_order (init mdg) (map fst (block_dof (init mdg)))
  = Ok (seq 0 (num_dofs (init mdg))).
Proof.
  intros Hwf. pose proof (init_wf mdg Hwf) as Hdm. pose proof Hdm as [_ Hlen _].
  rewrite <- block_start_all, <- (blocks_in_order_take _ _ Hdm (le_n _)).
  f_equal. symmetry. apply take_ge. rewrite length_map. lia.
Qed.

Lemma blocks_tile_witness :
  blocks_in_order Scenario.dm (map fst (block_dof Scenario.dm))
  = Ok (seq 0 (num_dofs Scenario.dm)).
Proof. exact (blocks_tile Scenario.mdg scenario_wf). Defined.

(** X5: the two private range helpers.  [_dof_range_from_grid_and_var]
    returns what [grid_and_variable_to_dofs] returns and raises what it
    raises, on every manager; and on a manager built from a grid that
    declares no pair twice, a range [(a, b)] that
    [_block_range_from_grid_and_var] returns has [a <= b <= num_dofs()]
    and the dofs of the pair are [a, ..., b - 1]. *)
Theorem _dof_range_from_grid_and_var_spec (mdg : MixedDimensionalGrid)
    (g : GridLike) (var : string) :
  wf_mdg mdg →
  (∀ dm, _dof_range_from_grid_and_var dm g var = grid_and_variable_to_dofs dm g var)
  ∧ match _block_range_from_grid_and_var (init mdg) g var with
    | Ok (a, b) =>
        a ≤ b ≤ num_dofs (init mdg)
        ∧ grid_and_variable_to_dofs (init mdg) g var = Ok (seq a (b - a))
    | Raise e =>
        e = KeyError ∧ grid_and_variable_to_dofs (init mdg) g var = Raise KeyError
    end.
Proof.
  intros Hwf. split.
  - intros dm. unfold _dof_range_from_grid_and_var, _block_range_from_grid_and_var,
      grid_and_variable_to_dofs.
    destruct (dict_get (g, var) (block_dof dm)) as [j|]; simpl; [|done].
    destruct (dof_start dm !! j); simpl; [|done].
    by destruct (dof_start dm !! (j + 1)).
  - pose proof (init_wf mdg Hwf) as Hdm.
    unfold _block_range_from_grid_and_var.
    destruct (dict_get (g, var) (block_dof (init mdg))) as [j|] eqn:Hj; simpl.
    + destruct (grid_and_variable_to_dofs_block _ g var j Hdm Hj) as (w & Hw & ->).
      pose proof (lookup_lt_Some _ _ _ Hw) as Hlt.
      rewrite !dof_start_lookup by lia. simpl.
      replace (j + 1) with (S j) by lia.
      rewrite (block_start_S _ j w Hw).
      pose proof (block_bound _ j w Hw). split; [lia|].
      do 2 f_equal. lia.
    + split; [done|]. unfold grid_and_variable_to_dofs. by rewrite Hj.
Qed.

Lemma _dof_range_from_grid_and_var_spec_witness :
  _dof_range_from_grid_and_var Scenario.dm (Sd Scenario.E2) "p" = Ok [3; 4]
  ∧ 3 ≤ 5 ≤ num_dofs Scenario.dm.
Proof.
  destruct (_dof_range_from_grid_and_var_spec Scenario.mdg (Sd Scenario.E2) "p"
              scenario_wf) as [Heq [Hr _]].
  split; [|exact Hr]. rewrite Heq. reflexivity.
Defined.


(** ** [dofs_of] *)

Lemma dofs_of_loop dm (variables : list pyarg) : ∀ acc,
  forallb is_Variable variables = true →
  for_each (fun dofs v =>
      match v with
      | AdVariable domain name =>
          let! d := grid_and_variable_to_dofs dm domain name in
          Ok (dofs ++ [d])
      | NoVariable => Raise AttributeError
      end) variables acc
  = let! ds := for_each (fun dofs v =>
        match v with
        | AdVariable domain name =>
            let! d := grid_and_variable_to_dofs dm domain name in
            Ok (dofs ++ [d])
        | NoVariable => Raise AttributeError
        end) variables [] in
    Ok (acc ++ ds).
Proof.
  induction variables as [|[g n|] vs IH]; intros acc Hall; simpl in *;
    [by rewrite app_nil_r | | done].
  destruct (grid_and_variable_to_dofs dm g n) as [d|e]; simpl; [|done].
  rewrite (IH (acc ++ [d])), (IH [d]) by done.
  destruct (for_each _ vs []); simpl; [|done]. by rewrite <- app_assoc.
Qed.

(** X6: [dofs_of].  An argument that is no [Variable] makes the call raise
    [ValueError] before any lookup, wherever it stands in the list and
    whether or not the other variables are registered; no variables give
    the empty array; one variable gives what [grid_and_variable_to_dofs]
    returns for its domain and its name, the dofs of its block or the
    [KeyError] of a pair that is not registered; and the dofs of a list of
    variables are those of its parts, in the order of the list. *)
Theorem dofs_of_spec (dm : DofManager) :
  (∀ variables, NoVariable ∈ variables → dofs_of dm variables = Raise ValueError)
  ∧ dofs_of dm [] = Ok []
  ∧ (∀ domain name,
       dofs_of dm [AdVariable domain name]
       = grid_and_variable_to_dofs dm domain name)
  ∧ (∀ vs ws, NoVariable ∉ vs ++ ws →
       dofs_of dm (vs ++ ws)
       = let! a := dofs_of dm vs in let! b := dofs_of dm ws in Ok (a ++ b)).
Proof.
  assert (Hall : ∀ vs, NoVariable ∉ vs → forallb is_Variable vs = true).
  { intros vs Hn. apply forallb_forall. intros [g n|] Hin; [done|].
    destruct Hn. by apply list_elem_of_In. }
  assert (Hcat : ∀ ds : list (list nat),
            (if decide (0 < length ds) then Ok (concat ds) else Ok [])
            = Ok (concat ds) :> res (list nat)).
  { intros [|d ds]; [done|]. destruct (decide _) as [|Hn]; [done|].
    simpl in Hn. lia. }
  split; [|split; [|split]].
  - intros variables Hin. unfold dofs_of.
    destruct (forallb is_Variable variables) eqn:Hf; [|done].
    rewrite forallb_forall in Hf. apply list_elem_of_In in Hin.
    by specialize (Hf _ Hin).
  - done.
  - intros domain name. unfold dofs_of. simpl.
    destruct (grid_and_variable_to_dofs dm domain name) as [d|e]; simpl; [|done].
    by rewrite app_nil_r.
  - intros vs ws Hn. unfold dofs_of.
    rewrite not_elem_of_app in Hn. destruct Hn as [Hv Hw].
    rewrite forallb_app, (Hall vs Hv), (Hall ws Hw). simpl.
    rewrite for_each_app.
    destruct (for_each _ vs []) as [dv|e] eqn:Hvs; simpl; [|done].
    rewrite dofs_of_loop by auto.
    destruct (for_each _ ws []) as [dw|e] eqn:Hws; repeat rewrite Hcat; simpl; [|done].
    rewrite (Hcat (dv ++ dw)). rewrite (Hcat dw). by rewrite concat_app.
Qed.

Lemma dofs_of_spec_witness :
  dofs_of Scenario.dm [AdVariable (Sd Scenario.E2) "p"; AdVariable (Sd Scenario.E1) "p"]
  = Ok [3; 4; 0; 1; 2].
Proof.
  destruct (dofs_of_spec Scenario.dm) as (_ & _ & _ & Happ).
  refine (Happ [AdVariable (Sd Scenario.E2) "p"] [AdVariable (Sd Scenario.E1) "p"] _).
  intros Hin. repeat (apply elem_of_cons in Hin as [Hin|Hin]; [done|]).
  by apply elem_of_nil in Hin.
Defined.


(** ** [dof_var] *)

Lemma dof_var_body_spec dm dofs g v :
  wf_dm dm →
  dof_var_body dm dofs (g, v)
  = Ok (dofs ++ match dict_get (g, v) (block_dof dm) with
                | Some j => seq (block_start dm j) (default 0 (full_dof dm !! j))
                | None => []
                end).
Proof.
  intros Hdm. unfold dof_var_body, dict_mem.
  destruct (dict_get (g, v) (block_dof dm)) as [j|] eqn:Hj; simpl;
    [|by rewrite app_nil_r].
  destruct (grid_and_variable_to_dofs_block dm g v j Hdm Hj) as (w & Hw & _).
  pose proof (lookup_lt_Some _ _ _ Hw) as Hlt.
  rewrite !dof_start_lookup by lia. simpl. rewrite Hw. simpl.
  replace (j + 1) with (S j) by lia. rewrite (block_start_S dm j w Hw).
  unfold arange. do 3 f_equal. lia.
Qed.

(** The dofs that the loops of [dof_var] collect over the pairs [ps]. *)
Lemma dof_var_loop dm (ps : list (GridLike * string)) :
  wf_dm dm →
  ∃ dofs, for_each (dof_var_body dm) ps [] = Ok dofs
    ∧ ∀ i, i ∈ dofs ↔
        ∃ g v j w, (g, v) ∈ ps ∧ dict_get (g, v) (block_dof dm) = Some j
                   ∧ full_dof dm !! j = Some w
                   ∧ block_start dm j ≤ i < block_start dm j + w.
Proof.
  intros Hdm. induction ps as [|[g v] ps IH] using rev_ind.
  - exists []. split; [done|]. intros i. split.
    + intros Hi. by apply elem_of_nil in Hi.
    + intros (? & ? & ? & ? & Hin & _). by apply elem_of_nil in Hin.
  - destruct IH as (dofs & Hrun & Hdofs).
    rewrite for_each_snoc, Hrun, bind_Ok, dof_var_body_spec by done.
    eexists. split; [done|]. intros i. rewrite elem_of_app, Hdofs. split.
    + intros [(g0 & v0 & j & w & Hin & Hj & Hw & Hi) | Hi].
      * exists g0, v0, j, w. rewrite elem_of_app. auto.
      * destruct (dict_get (g, v) (block_dof dm)) as [j|] eqn:Hj;
          [|by apply elem_of_nil in Hi].
        destruct (grid_and_variable_to_dofs_block dm g v j Hdm Hj) as (w & Hw & _).
        rewrite Hw in Hi. simpl in Hi. apply elem_of_seq in Hi.
        exists g, v, j, w. rewrite elem_of_app, list_elem_of_singleton. auto.
    + intros (g0 & v0 & j & w & Hin & Hj & Hw & Hi).
      apply elem_of_app in Hin as [Hin|Hin].
      * left. exists g0, v0, j, w. auto.
      * apply list_elem_of_singleton in Hin. injection Hin as -> ->.
        right. rewrite Hj, Hw. simpl. by apply elem_of_seq.
Qed.

Lemma declared_in_mdg_grids mdg g var w :
  ((g, var), w) ∈ declared mdg → g ∈ mdg_grids mdg.
Proof.
  unfold declared, mdg_grids. rewrite !elem_of_app, !list_elem_of_In, !in_flat_map.
  intros [([sd dat] & Hin & Hd) | ([m dat] & Hin & Hd)]; simpl in Hd;
    unfold declared_vars in Hd; destruct (primary_variables dat); try done;
    apply in_map_iff in Hd as (item & [= <- _ _] & _); [left | right];
    apply in_map_iff; by eexists (_, dat).
Qed.

Lemma registered_in_mdg_grids mdg g var j :
  wf_mdg mdg → dict_get (g, var) (block_dof (init mdg)) = Some j →
  g ∈ mdg_grids mdg.
Proof.
  intros Hwf Hj. apply dict_get_Some_elem in Hj.
  rewrite init_block_dof in Hj by done.
  apply (list_elem_of_fmap_2 fst) in Hj. simpl in Hj.
  rewrite fst_zip in Hj by (rewrite length_seq, length_map; lia).
  apply list_elem_of_fmap in Hj as ([k w] & Hk & Hin). simpl in Hk. subst k.
  by eapply declared_in_mdg_grids.
Qed.

Lemma dof_to_grid_and_variable_Ok dm ind p :
  dof_to_grid_and_variable dm ind = Ok p → (0 ≤ ind < Z.of_nat (num_dofs dm))%Z.
Proof.
  unfold dof_to_grid_and_variable. rewrite last_dof_start.
  destruct (Z.leb_spec (Z.of_nat (num_dofs dm)) ind); [done|].
  destruct (Z.ltb_spec ind 0); [done|]. lia.
Qed.

(** X7: which dofs [dof_var] returns.  On a manager built from a grid that
    declares no pair twice, [dof_var] returns, and the indices it returns
    are exactly the global indices whose variable, as
    [dof_to_grid_and_variable] finds it, is one of the names asked for. *)
Theorem dof_var_members (mdg : MixedDimensionalGrid) (var : string + list string) :
  wf_mdg mdg →
  ∃ dofs, dof_var (init mdg) mdg var false = Ok (dofs, None)
    ∧ ∀ i, i ∈ dofs ↔
        ∃ g v, v ∈ (match var with inl name => [name] | inr names => names end)
               ∧ dof_to_grid_and_variable (init mdg) (Z.of_nat i) = Ok (g, v).
Proof.
  intros Hwf. pose proof (init_wf mdg Hwf) as Hdm. unfold dof_var.
  set (names := match var with inl name => [name] | inr names => names end).
  destruct (dof_var_loop (init mdg) (product (mdg_grids mdg) names) Hdm)
    as (dofs & -> & Hdofs).
  exists dofs. split; [done|]. intros i. rewrite Hdofs. split.
  - intros (g & v & j & w & Hin & Hj & Hw & Hi).
    apply elem_of_product in Hin as [_ Hv].
    exists g, v. split; [done|]. by eapply dof_of_block.
  - intros (g & v & Hv & Hi).
    pose proof (dof_to_grid_and_variable_Ok _ _ _ Hi) as Hr.
    destruct (dof_to_grid_and_variable_in_range (init mdg) i Hdm ltac:(lia))
      as (g' & v' & j & w & Hi' & Hj & Hw & Hb).
    rewrite Hi in Hi'. injection Hi' as <- <-.
    exists g, v, j, w. repeat split; try done; try lia.
    apply elem_of_product. split; [|done].
    by eapply registered_in_mdg_grids.
Qed.

Lemma dof_var_members_witness :
  ∃ dofs, dof_var Scenario.dm Scenario.mdg (inl "p") false = Ok (dofs, None)
    ∧ ∀ i, i ∈ dofs ↔
        ∃ g v, v ∈ ["p"]
               ∧ dof_to_grid_and_variable Scenario.dm (Z.of_nat i) = Ok (g, v).
Proof. exact (dof_var_members Scenario.mdg (inl "p") scenario_wf). Defined.

(** ** The projection of [dof_var] *)

Lemma take_inds_in_range (x : list Z) (inds : list nat) :
  Forall (fun i => i < length x) inds →
  take_inds x inds = Ok (map (fun i => default 0%Z (x !! i)) inds).
Proof.
  induction 1 as [|i inds Hi _ IH]; simpl; [done|].
  destruct (lookup_lt_is_Some_2 x i Hi) as [y Hy].
  rewrite Hy, IH. done.
Qed.

(** The entries of the matrix with a one at [(a + k, dofs[k])] for each [k]. *)
Lemma coo_entry_arange (dofs : list nat) : ∀ a i j,
  coo_entry (ones (length dofs)) (seq a (length dofs)) dofs i j
  = if decide (a ≤ i ∧ dofs !! (i - a) = Some j) then 1%Z else 0%Z.
Proof.
  unfold coo_entry.
  induction dofs as [|d dofs IH]; intros a i j; simpl.
  - destruct (decide _) as [[_ ?]|]; done.
  - rewrite IH. clear IH.
    destruct (decide (a = i ∧ d = j)) as [[-> ->]|Hne].
    + rewrite decide_False by lia.
      rewrite decide_True; [done|]. split; [lia|]. by rewrite Nat.sub_diag.
    + destruct (decide (S a ≤ i ∧ dofs !! (i - S a) = Some j)) as [[Hle Hl]|Hn].
      * rewrite decide_True; [done|]. split; [lia|].
        by replace (i - a) with (S (i - S a)) by lia.
      * rewrite decide_False; [done|]. intros [Hle Hl]. apply Hn.
        destruct (decide (a = i)) as [->|Hai].
        -- rewrite Nat.sub_diag in Hl. simpl in Hl. injection Hl as ->.
           by destruct Hne.
        -- split; [lia|].
           by replace (i - a) with (S (i - S a)) in Hl by lia.
Qed.

(** A row with a single one, at column [d], times a vector. *)
Lemma dot_unit (x : list Z) : ∀ a d,
  foldr Z.add 0%Z
    (zip_with Z.mul
       (map (fun j => if decide (j = d) then 1%Z else 0%Z) (seq a (length x))) x)
  = if decide (a ≤ d) then default 0%Z (x !! (d - a)) else 0%Z.
Proof.
  induction x as [|y x IH]; intros a d; simpl.
  - by destruct (decide _).
  - rewrite IH. destruct (decide (a = d)) as [->|Hne].
    + rewrite decide_False by lia. rewrite decide_True by lia.
      rewrite Nat.sub_diag. simpl. lia.
    + destruct (decide (S a ≤ d)).
      * rewrite decide_True by lia.
        replace (d - a) with (S (d - S a)) by lia. simpl. lia.
      * rewrite decide_False by lia. lia.
Qed.

(** The matrix with a one at [(k, dofs[k])] for each [k] picks the
    entries [dofs] of a vector. *)
Lemma projection_picks (dofs : list nat) (m : nat) (x : list Z) :
  Forall (fun i => i < m) dofs → length x = m →
  ∃ P, coo_matrix (ones (length dofs)) (arange 0 (length dofs)) dofs
                  (length dofs) m = Ok P
    ∧ nrows P = length dofs ∧ ncols P = m
    ∧ matvec P x = Ok (map (fun i => default 0%Z (x !! i)) dofs).
Proof.
  intros Hrange Hx. unfold coo_matrix, arange, ones.
  rewrite Nat.sub_0_r, length_seq, length_replicate.
  rewrite decide_True by done.
  assert (Hrow : forallb (fun i => bool_decide (i < length dofs))
                         (seq 0 (length dofs)) = true).
  { apply forallb_forall. intros i Hi. apply in_seq in Hi.
    apply bool_decide_eq_true. lia. }
  assert (Hcol : forallb (fun j => bool_decide (j < m)) dofs = true).
  { apply forallb_forall. intros i Hi. apply list_elem_of_In in Hi.
    apply bool_decide_eq_true. rewrite Forall_forall in Hrange.
    by apply Hrange. }
  rewrite Hrow, Hcol. cbn [andb].
  eexists. split; [done|]. split; [|split; [done|]].
  - unfold nrows. cbn [rows]. by rewrite length_map, length_seq.
  - unfold matvec. cbn [ncols rows]. rewrite decide_True by done.
    f_equal. rewrite map_map. apply list_eq. intros k.
    rewrite !list_lookup_fmap.
    destruct (dofs !! k) as [d|] eqn:Hd.
    + pose proof (lookup_lt_Some _ _ _ Hd) as Hk.
      rewrite lookup_seq_lt by done. change (0 + k) with k.
      cbn [fmap option_fmap option_map]. f_equal.
      rewrite <- Hx.
      rewrite (map_ext _ (fun j => if decide (j = d) then 1%Z else 0%Z)).
      * rewrite dot_unit, decide_True by lia. by rewrite Nat.sub_0_r.
      * intros j. pose proof (coo_entry_arange dofs 0 k j) as He.
        unfold ones in He. rewrite He, Nat.sub_0_r, Hd.
        destruct (decide (j = d)) as [->|Hne].
        -- rewrite decide_True; [done|]. split; [lia | done].
        -- rewrite decide_False; [done|]. intros [_ [= ->]]. done.
    + apply lookup_ge_None in Hd. rewrite lookup_seq_ge by lia. done.
Qed.

Lemma as_size_np_sum (l : list nat) : l ≠ [] → as_size (np_sum l) = Ok (sum_list l).
Proof. by destruct l. Qed.

(** X8: the projection of [dof_var].  On a manager built from a grid that
    declares no pair twice and that has a registered block, [dof_var] with
    [return_projection=True] returns the dofs and a matrix with one row
    for each of them and [num_dofs()] columns, and the matrix times a
    global vector [x] is [x[dofs]]: the projection selects the values of
    the variables asked for.  On a registry without a block the shape of
    the projection holds the float [0.0], the sum of the empty array, and
    the call raises [TypeError]. *)
Theorem dof_var_projection (mdg : MixedDimensionalGrid)
    (var : string + list string) (x : list Z) :
  wf_mdg mdg →
  length x = num_dofs (init mdg) →
  (block_dof (init mdg) ≠ [] →
   ∃ dofs P,
     dof_var (init mdg) mdg var true = Ok (dofs, Some P)
     ∧ nrows P = length dofs ∧ ncols P = num_dofs (init mdg)
     ∧ matvec P x = Ok (map (fun i => default 0%Z (x !! i)) dofs)
     ∧ take_inds x dofs = Ok (map (fun i => default 0%Z (x !! i)) dofs))
  ∧ (block_dof (init mdg) = [] →
     dof_var (init mdg) mdg var true = Raise TypeError).
Proof.
  intros Hwf Hx. pose proof (init_wf mdg Hwf) as Hdm. unfold dof_var.
  set (names := match var with inl name => [name] | inr names => names end).
  destruct (dof_var_loop (init mdg) (product (mdg_grids mdg) names) Hdm)
    as (dofs & -> & Hdofs).
  rewrite bind_Ok. split.
  - intros Hne.
    assert (Hfull : full_dof (init mdg) ≠ []).
    { intros Hnil. by apply Hne, no_block_full_dof. }
    assert (Hrange : Forall (fun i => i < sum_list (full_dof (init mdg))) dofs).
    { apply Forall_forall. intros i Hi. apply Hdofs in Hi
        as (g & v & j & w & _ & _ & Hw & Hb).
      pose proof (block_bound _ j w Hw) as Hbound.
      rewrite num_dofs_sum in Hbound. lia. }
    rewrite num_dofs_sum in *.
    destruct (projection_picks dofs (sum_list (full_dof (init mdg))) x Hrange Hx)
      as (P & HP & Hn & Hm & Hmv).
    rewrite (as_size_np_sum _ Hfull), bind_Ok, HP.
    exists dofs, P. split; [done|]. split; [done|]. split; [done|].
    split; [done|]. apply take_inds_in_range. by rewrite Hx.
  - intros Hnil. apply no_block_full_dof in Hnil; [|done]. by rewrite Hnil.
Qed.

Lemma dof_var_projection_witness :
  ∃ dofs P,
    dof_var Scenario.dm Scenario.mdg (inr ["p"]) true = Ok (dofs, Some P)
    ∧ nrows P = length dofs ∧ ncols P = num_dofs Scenario.dm
    ∧ matvec P [1; 2; 3; 4; 5]%Z
      = Ok (map (fun i => default 0%Z ([1; 2; 3; 4; 5]%Z !! i)) dofs)
    ∧ take_inds [1; 2; 3; 4; 5]%Z dofs
      = Ok (map (fun i => default 0%Z ([1; 2; 3; 4; 5]%Z !! i)) dofs).
Proof.
  apply (dof_var_projection Scenario.mdg (inr ["p"]) [1; 2; 3; 4; 5]%Z scenario_wf).
  - reflexivity.
  - vm_compute. discriminate.
Defined.


(** ** [grid_and_variable_block_range] *)

(** A loop that fills a dictionary with values that depend on the key
    only. *)
Lemma collect_loop {X K V} `{EqDecision K}
    (body : list (K * V) → X → res (list (K * V)))
    (sel : X → option (K * V)) (xs : list X) :
  (∀ d x, body d x
          = Ok (match sel x with Some (k, v) => dict_set k v d | None => d end)) →
  (∀ x x' k v v', sel x = Some (k, v) → sel x' = Some (k, v') → v = v') →
  ∃ d, for_each body xs [] = Ok d
    ∧ ∀ k v, dict_get k d = Some v ↔ ∃ x, x ∈ xs ∧ sel x = Some (k, v).
Proof.
  intros Hbody Hfun. induction xs as [|x xs IH] using rev_ind.
  - exists []. split; [done|]. intros k v. split; [done|].
    intros (x & Hx & _). by apply elem_of_nil in Hx.
  - destruct IH as (d & Hrun & Hd).
    rewrite for_each_snoc, Hrun, bind_Ok, Hbody.
    eexists. split; [done|]. intros k v.
    destruct (sel x) as [[k0 v0]|] eqn:Hx.
    + destruct (decide (k0 = k)) as [->|Hne].
      * rewrite dict_get_set_eq. split.
        -- intros [= ->]. exists x. split; [|done].
           apply elem_of_app. right. by apply list_elem_of_singleton.
        -- intros (x' & _ & Hx'). f_equal. by eapply Hfun.
      * rewrite dict_get_set_ne by done. rewrite Hd. split.
        -- intros (x' & Hin & Hx'). exists x'. split; [|done].
           apply elem_of_app. by left.
        -- intros (x' & Hin & Hx'). exists x'. split; [|done].
           apply elem_of_app in Hin as [Hin|Hin]; [done|].
           apply list_elem_of_singleton in Hin. subst x'. congruence.
    + rewrite Hd. split.
      * intros (x' & Hin & Hx'). exists x'. split; [|done].
        apply elem_of_app. by left.
      * intros (x' & Hin & Hx'). exists x'. split; [|done].
        apply elem_of_app in Hin as [Hin|Hin]; [done|].
        apply list_elem_of_singleton in Hin. subst x'. congruence.
Qed.

Lemma _block_range_registered dm g var :
  wf_dm dm →
  (if dict_mem (g, var) (block_dof dm)
   then let! r := _block_range_from_grid_and_var dm g var in Ok (Some r)
   else Ok None) = Ok (block_range dm g var).
Proof.
  intros Hdm. unfold dict_mem, _block_range_from_grid_and_var, block_range.
  destruct (dict_get (g, var) (block_dof dm)) as [j|] eqn:Hj; simpl; [|done].
  destruct (grid_and_variable_to_dofs_block dm g var j Hdm Hj) as (w & Hw & _).
  pose proof (lookup_lt_Some _ _ _ Hw) as Hlt.
  rewrite !dof_start_lookup by lia. simpl. by replace (j + 1) with (S j) by lia.
Qed.

(** One turn of an inner loop, and of the loop over the pairs. *)
Lemma range_turn {K} `{EqDecision K} dm g var (k : K) (d : list (K * (nat * nat))) :
  wf_dm dm →
  (if dict_mem (g, var) (block_dof dm)
   then let! r := _block_range_from_grid_and_var dm g var in Ok (dict_set k r d)
   else Ok d)
  = Ok (match block_range dm g var with Some r => dict_set k r d | None => d end).
Proof.
  intros Hdm. pose proof (_block_range_registered dm g var Hdm) as Hr.
  destruct (dict_mem (g, var) (block_dof dm)).
  - destruct (_block_range_from_grid_and_var dm g var); simplify_eq /=.
    by rewrite <- Hr.
  - simplify_eq /=. by rewrite <- Hr.
Qed.

(** The ranges of the registered pairs of one grid, and of one variable. *)
Lemma ranges_of_grid dm g (variables : list string) :
  wf_dm dm →
  ∃ this_g,
    for_each (fun this_g var =>
        if dict_mem (g, var) (block_dof dm) then
          let! r := _block_range_from_grid_and_var dm g var in
          Ok (dict_set var r this_g)
        else Ok this_g) variables [] = Ok this_g
    ∧ ∀ var r, dict_get var this_g = Some r
               ↔ var ∈ variables ∧ block_range dm g var = Some r.
Proof.
  intros Hdm.
  destruct (collect_loop
    (fun this_g var =>
        if dict_mem (g, var) (block_dof dm) then
          let! r := _block_range_from_grid_and_var dm g var in
          Ok (dict_set var r this_g)
        else Ok this_g)
    (fun var => match block_range dm g var with
                | Some r => Some (var, r) | None => None end) variables)
    as (d & Hrun & Hd).
  - intros d var. rewrite range_turn by done. by destruct (block_range dm g var).
  - intros x x' k v v' Hx Hx'.
    destruct (block_range dm g x) eqn:E; simplify_eq /=.
    destruct (block_range dm g x') eqn:E'; simplify_eq /=. congruence.
  - exists d. split; [done|]. intros var r. rewrite Hd. split.
    + intros (x & Hin & Hx). destruct (block_range dm g x) eqn:E; simplify_eq /=.
      done.
    + intros [Hin Hr]. exists var. by rewrite Hr.
Qed.

Lemma ranges_of_variable dm var (grids : list GridLike) :
  wf_dm dm →
  ∃ this_var,
    for_each (fun this_var g =>
        if dict_mem (g, var) (block_dof dm) then
          let! r := _block_range_from_grid_and_var dm g var in
          Ok (dict_set g r this_var)
        else Ok this_var) grids [] = Ok this_var
    ∧ ∀ g r, dict_get g this_var = Some r
             ↔ g ∈ grids ∧ block_range dm g var = Some r.
Proof.
  intros Hdm.
  destruct (collect_loop
    (fun this_var g =>
        if dict_mem (g, var) (block_dof dm) then
          let! r := _block_range_from_grid_and_var dm g var in
          Ok (dict_set g r this_var)
        else Ok this_var)
    (fun g => match block_range dm g var with
              | Some r => Some (g, r) | None => None end) grids)
    as (d & Hrun & Hd).
  - intros d g. rewrite range_turn by done. by destruct (block_range dm g var).
  - intros x x' k v v' Hx Hx'.
    destruct (block_range dm x var) eqn:E; simplify_eq /=.
    destruct (block_range dm x' var) eqn:E'; simplify_eq /=. congruence.
  - exists d. split; [done|]. intros g r. rewrite Hd. split.
    + intros (x & Hin & Hx). destruct (block_range dm x var) eqn:E; simplify_eq /=.
      done.
    + intros [Hin Hr]. exists g. by rewrite Hr.
Qed.

Lemma block_range_code dm g var r :
  wf_dm dm →
  _block_range_from_grid_and_var dm g var = Ok r ↔ block_range dm g var = Some r.
Proof.
  intros Hdm. pose proof (_block_range_registered dm g var Hdm) as Hr.
  unfold dict_mem in Hr. unfold block_range in *.
  destruct (dict_get (g, var) (block_dof dm)) as [j|] eqn:Hj.
  - destruct (_block_range_from_grid_and_var dm g var) as [r'|]; simplify_eq /=.
    split; congruence.
  - unfold _block_range_from_grid_and_var. rewrite Hj. simpl. split; done.
Qed.

(** X9: the three orderings of [grid_and_variable_block_range].  On a
    manager built from a grid that declares no pair twice, the call
    returns for each of the three values of [sort_by], and the three
    dictionaries hold the same ranges: the range [r] is found under
    [(g, var)], under [g] and then [var], and under [var] and then [g],
    exactly if [g] and [var] are among the grids and variables asked for
    and [r] is the range of the block of the pair, as
    [_block_range_from_grid_and_var] gives it.  Any other value of
    [sort_by] raises [ValueError]. *)
Theorem grid_and_variable_block_range_views (mdg : MixedDimensionalGrid)
    (grids : option (list GridLike)) (variables : option (list string)) :
  wf_mdg mdg →
  (∃ bg bv u,
    grid_and_variable_block_range (init mdg) grids variables "grids"
      = Ok (ByGrid bg)
    ∧ grid_and_variable_block_range (init mdg) grids variables "variables"
      = Ok (ByVariable bv)
    ∧ grid_and_variable_block_range (init mdg) grids variables ""
      = Ok (Unsorted u)
    ∧ ∀ g var r,
        let asked :=
          g ∈ default (all_grids (init mdg)) grids
          ∧ var ∈ default (all_variables (init mdg)) variables
          ∧ _block_range_from_grid_and_var (init mdg) g var = Ok r in
        (dict_get (g, var) u = Some r ↔ asked)
        ∧ ((∃ d, dict_get g bg = Some d ∧ dict_get var d = Some r) ↔ asked)
        ∧ ((∃ d, dict_get var bv = Some d ∧ dict_get g d = Some r) ↔ asked))
  ∧ (∀ sort_by, sort_by ≠ "grids" → sort_by ≠ "variables" → sort_by ≠ "" →
       grid_and_variable_block_range (init mdg) grids variables sort_by
       = Raise ValueError).
Proof.
  intros Hwf. pose proof (init_wf mdg Hwf) as Hdm.
  generalize dependent (init mdg). intros dm Hdm.
  split.
  2:{ intros sort_by H1 H2 H3. unfold grid_and_variable_block_range.
      by rewrite !decide_False by done. }
  unfold grid_and_variable_block_range.
  set (gs := default (all_grids dm) grids).
  set (vs := default (all_variables dm) variables).
  rewrite decide_True by done.
  rewrite (decide_False (P := ("variables" = "grids"))) by done.
  rewrite decide_True by done.
  rewrite (decide_False (P := ("" = "grids"))) by done.
  rewrite (decide_False (P := ("" = "variables"))) by done.
  rewrite decide_True by done.
  (* by grids *)
  set (inner_g := fun g => for_each (fun this_g var =>
        if dict_mem (g, var) (block_dof dm) then
          let! r := _block_range_from_grid_and_var dm g var in
          Ok (dict_set var r this_g)
        else Ok this_g) vs []).
  set (Tg := fun g => match inner_g g with Ok d => d | Raise _ => [] end).
  destruct (collect_loop
    (fun pairs g => let! this_g := inner_g g in Ok (dict_set g this_g pairs))
    (fun g => Some (g, Tg g)) gs) as (bg & Hbg & Hbgd).
  { intros d g. unfold Tg.
    destruct (ranges_of_grid dm g vs Hdm) as (tg & Htg & _).
    fold (inner_g g) in Htg. by rewrite Htg. }
  { intros. congruence. }
  (* by variables *)
  set (inner_v := fun var => for_each (fun this_var g =>
        if dict_mem (g, var) (block_dof dm) then
          let! r := _block_range_from_grid_and_var dm g var in
          Ok (dict_set g r this_var)
        else Ok this_var) gs []).
  set (Tv := fun var => match inner_v var with Ok d => d | Raise _ => [] end).
  destruct (collect_loop
    (fun pairs var => let! this_var := inner_v var in Ok (dict_set var this_var pairs))
    (fun var => Some (var, Tv var)) vs) as (bv & Hbv & Hbvd).
  { intros d var. unfold Tv.
    destruct (ranges_of_variable dm var gs Hdm) as (tv & Htv & _).
    fold (inner_v var) in Htv. by rewrite Htv. }
  { intros. congruence. }
  (* unsorted *)
  destruct (collect_loop
    (fun pairs '(g, var) =>
        if dict_mem (g, var) (block_dof dm) then
          let! r := _block_range_from_grid_and_var dm g var in
          Ok (dict_set (g, var) r pairs)
        else Ok pairs)
    (fun p => match block_range dm p.1 p.2 with
              | Some r => Some (p, r) | None => None end) (product gs vs))
    as (u & Hu & Hud).
  { intros d [g var]. rewrite range_turn by done. simpl.
    by destruct (block_range dm g var). }
  { intros x x' k v v' Hx Hx'.
    destruct (block_range dm x.1 x.2) eqn:E; simplify_eq /=.
    destruct (block_range dm x'.1 x'.2) eqn:E'; simplify_eq /=. congruence. }
  unfold inner_g in Hbg. unfold inner_v in Hbv. cbv beta in Hbg, Hbv.
  exists bg, bv, u. rewrite Hbg, Hbv, Hu. do 3 (split; [done|]).
  intros g var r. cbv zeta. rewrite block_range_code by done.
  split; [|split].
  - rewrite Hud. split.
    + intros ([g' var'] & Hin & Hx). simpl in Hx.
      destruct (block_range dm g' var') eqn:E; simplify_eq /=.
      apply elem_of_product in Hin as [? ?]. done.
    + intros (Hg & Hv & Hr). exists (g, var). simpl. rewrite Hr.
      split; [|done]. by apply elem_of_product.
  - split.
    + intros (d & Hgd & Hd). apply Hbgd in Hgd as (g' & Hin & [= -> <-]).
      unfold Tg in Hd.
      destruct (ranges_of_grid dm g vs Hdm) as (tg & Htg & Htgd).
      fold (inner_g g) in Htg. rewrite Htg in Hd.
      apply Htgd in Hd as [? ?]. done.
    + intros (Hg & Hv & Hr). exists (Tg g). split.
      * apply Hbgd. by exists g.
      * unfold Tg.
        destruct (ranges_of_grid dm g vs Hdm) as (tg & Htg & Htgd).
        fold (inner_g g) in Htg. rewrite Htg. by apply Htgd.
  - split.
    + intros (d & Hvd & Hd). apply Hbvd in Hvd as (var' & Hin & [= -> <-]).
      unfold Tv in Hd.
      destruct (ranges_of_variable dm var gs Hdm) as (tv & Htv & Htvd).
      fold (inner_v var) in Htv. rewrite Htv in Hd.
      apply Htvd in Hd as [? ?]. done.
    + intros (Hg & Hv & Hr). exists (Tv var). split.
      * apply Hbvd. by exists var.
      * unfold Tv.
        destruct (ranges_of_variable dm var gs Hdm) as (tv & Htv & Htvd).
        fold (inner_v var) in Htv. rewrite Htv. by apply Htvd.
Qed.

Lemma grid_and_variable_block_range_views_witness :
  ∃ u, grid_and_variable_block_range Scenario.dm None None "" = Ok (Unsorted u)
    ∧ dict_get (Sd Scenario.E2, "p") u = Some (3, 5).
Proof.
  destruct (grid_and_variable_block_range_views Scenario.mdg None None scenario_wf)
    as [(bg & bv & u & _ & _ & Hu & Hviews) _].
  exists u. split; [exact Hu|].
  apply (Hviews (Sd Scenario.E2) "p" (3, 5)).
  split; [|split]; [| |reflexivity].
  - apply elem_of_cons. right. apply elem_of_cons. by left.
  - apply elem_of_cons. by left.
Defined.


(** * Properties of scattering and gathering *)

(** A loop in which every turn returns or raises [e], and some turn raises
    [e] whatever the state, raises [e]. *)
Lemma for_each_raises {S X} (body : S → X → res S) (I : S → Prop) e
    (xs : list X) : ∀ s,
  (∀ s x, I s → (∃ s', body s x = Ok s' ∧ I s') ∨ body s x = Raise e) →
  (∃ x, x ∈ xs ∧ ∀ s, I s → body s x = Raise e) →
  I s → for_each body xs s = Raise e.
Proof.
  intros s Hstep. revert s.
  induction xs as [|y xs IH]; intros s (x & Hin & Hx) Hs.
  - by apply elem_of_nil in Hin.
  - simpl. destruct (Hstep s y Hs) as [(s' & Hy & Hs')|Hy]; rewrite Hy; [|done].
    simpl. apply IH; [|done]. exists x. split; [|done].
    apply elem_of_cons in Hin as [->|Hin]; [|done].
    rewrite (Hx s Hs) in Hy. done.
Qed.

(** ** Gathering what was never scattered *)

(** X10: gathering before anything was scattered.  On a manager built from
    a grid that declares no pair twice and whose grids have no state yet,
    [assemble_variable] raises [KeyError] as soon as the selection holds a
    registered pair, from the state and from the iterate alike. *)
Theorem assemble_variable_no_state (mdg : MixedDimensionalGrid)
    (grids : option (list GridLike)) (variables : option (list string))
    (from_iterate : bool) (g : GridLike) (var : string) :
  wf_mdg mdg → no_state mdg →
  g ∈ default (all_grids (init mdg)) grids →
  var ∈ default (all_variables (init mdg)) variables →
  dict_mem (g, var) (block_dof (init mdg)) = true →
  assemble_variable (init mdg) grids variables from_iterate mdg = Raise KeyError.
Proof.
  intros Hwf Hno Hg Hvar Hreg. pose proof (init_wf mdg Hwf) as Hdm.
  unfold assemble_variable.
  assert (Hfull : full_dof (init mdg) ≠ []).
  { intros Hnil. apply no_block_full_dof in Hnil; [|done].
    by rewrite Hnil in Hreg. }
  rewrite (np_zeros_num_dofs _ Hfull), bind_Ok.
  assert (Hturn : ∀ vals g var j,
            dict_get (g, var) (block_dof (init mdg)) = Some j →
            assemble_body (init mdg) from_iterate mdg vals (g, var)
            = Raise KeyError).
  { intros vals g0 var0 j Hj. unfold assemble_body, dict_mem. rewrite Hj. simpl.
    destruct (grid_and_variable_to_dofs_block _ g0 var0 j Hdm Hj) as (w & _ & ->).
    destruct (init_registered_has_data mdg g0 var0 j Hwf Hj) as [dat Hdat].
    simpl. rewrite Hdat. simpl. by rewrite (Hno g0 dat Hdat). }
  apply (for_each_raises _ (fun _ => True)); [| |done].
  - intros vals [g0 var0] _.
    destruct (dict_get (g0, var0) (block_dof (init mdg))) as [j|] eqn:Hj.
    + right. by eapply Hturn.
    + left. exists vals. split; [|done].
      unfold assemble_body, dict_mem. by rewrite Hj.
  - exists (g, var). split; [by apply elem_of_product|]. intros vals _.
    apply dict_mem_true in Hreg as [j Hj]. by eapply Hturn.
Qed.

Lemma scenario_no_state : no_state Scenario.mdg.
Proof.
  intros [sd|m] dat; simpl; unfold subdomain_data, interface_data; simpl.
  - repeat case_decide; intros [= <-]; done.
  - done.
Defined.

Lemma assemble_variable_no_state_witness :
  assemble_variable Scenario.dm None None false Scenario.mdg = Raise KeyError.
Proof.
  apply (assemble_variable_no_state Scenario.mdg None None false
           (Sd Scenario.E1) "p" scenario_wf scenario_no_state).
  - apply elem_of_cons. by left.
  - apply elem_of_cons. by left.
  - reflexivity.
Defined.

(** ** [get_variable_values] on every manager *)

(** X15: [get_variable_values] on any manager and any state.  The loop
    unpacks the items of [block_dof] into [grid] and [name], so that
    [grid] is a tuple and [data] is never assigned: the call raises
    [UnboundLocalError] whenever a block is registered, from the state and
    from the iterate alike, whatever is stored; on a manager without
    blocks it returns the empty array. *)
Theorem get_variable_values_any (dm : DofManager) (from_iterate : bool)
    (mdg : MixedDimensionalGrid) :
  get_variable_values dm from_iterate mdg
  = if decide (block_dof dm = []) then Ok [] else Raise UnboundLocalError.
Proof.
  unfold get_variable_values. destruct (block_dof dm) as [|[k j] bd]; done.
Qed.

(** ** Scattering keeps the declarations *)

Lemma dict_set_declarations {G} `{EqDecision G} (l : list (G * data)) k d dat :
  dict_get k l = Some dat → primary_variables d = primary_variables dat →
  map (fun e => (fst e, primary_variables (snd e))) (dict_set k d l)
  = map (fun e => (fst e, primary_variables (snd e))) l.
Proof.
  intros Hk Hpv. induction l as [|[k' d'] l IH]; simpl in *; [done|].
  destruct (decide (k = k')) as [->|Hne]; simpl.
  - injection Hk as ->. by rewrite Hpv.
  - by rewrite IH.
Qed.

Lemma update_data_declarations mdg g d dat :
  grid_data mdg g = Ok dat → primary_variables d = primary_variables dat →
  declarations (update_data mdg g d) = declarations mdg.
Proof.
  intros Hg Hpv. unfold declarations.
  destruct g as [sd|m]; simpl in *; unfold subdomain_data, interface_data in Hg.
  - destruct (dict_get sd (subdomains mdg)) as [dat'|] eqn:Hd; simplify_eq /=.
    by rewrite (dict_set_declarations _ _ _ dat).
  - destruct (dict_get m (interfaces mdg)) as [dat'|] eqn:Hd; simplify_eq /=.
    by rewrite (dict_set_declarations _ _ _ dat).
Qed.

Lemma distribute_body_declarations dm values additive to_iterate mdg p mdg' :
  distribute_body dm values additive to_iterate mdg p = Ok mdg' →
  declarations mdg' = declarations mdg.
Proof.
  destruct p as [g var]. unfold distribute_body.
  destruct (negb (dict_mem (g, var) (block_dof dm))); [by intros [= <-]|].
  destruct (grid_and_variable_to_dofs dm g var) as [dof_ind|]; simpl; [|done].
  destruct (grid_data mdg g) as [dat|] eqn:Hdat; simpl; [|done].
  destruct (take_inds values dof_ind) as [vals|]; simpl; [|done].
  match goal with |- bind ?m _ = _ → _ => destruct m as [st'|] end; simpl; [|done].
  intros [= <-]. by eapply update_data_declarations.
Qed.

Lemma init_sd_declarations (l : list (Grid * data)) : ∀ s,
  fold_left init_sd l s
  = fold_left (fun s e =>
        match snd e with
        | None => s
        | Some vars =>
            fold_left (init_var (Sd (fst e)) (total_local_dofs_sd (fst e))) vars s
        end)
      (map (fun e => (fst e, primary_variables (snd e))) l) s.
Proof. induction l as [|[sd dat] l IH]; intros s; simpl; [done|]. by rewrite IH. Qed.

Lemma init_intf_declarations (l : list (MortarGrid * data)) : ∀ s,
  fold_left init_intf l s
  = fold_left (fun s e =>
        match snd e with
        | None => s
        | Some vars =>
            fold_left (init_var (Intf (fst e)) (total_local_dofs_intf (fst e))) vars s
        end)
      (map (fun e => (fst e, primary_variables (snd e))) l) s.
Proof. induction l as [|[m dat] l IH]; intros s; simpl; [done|]. by rewrite IH. Qed.

Lemma init_declarations mdg mdg' :
  declarations mdg' = declarations mdg → init mdg' = init mdg.
Proof.
  unfold declarations, init. intros [= Hsd Hintf].
  by rewrite !init_sd_declarations, !init_intf_declarations, Hsd, Hintf.
Qed.

(** X11: scattering never touches the declarations.  Whatever the vector,
    the selection and the flags, when [distribute_variable] returns, the
    grid has the same subdomains and interfaces in the same order, each
    with the variables it declared before, so that a manager built from
    the grid afterwards is the manager built before. *)
Theorem distribute_variable_keeps_declarations (dm : DofManager)
    (values : list Z) (grids : option (list GridLike))
    (variables : option (list string)) (additive to_iterate : bool)
    (mdg mdg' : MixedDimensionalGrid) :
  distribute_variable dm values grids variables additive to_iterate mdg = Ok mdg' →
  declarations mdg' = declarations mdg ∧ init mdg' = init mdg.
Proof.
  unfold distribute_variable.
  generalize (product (default (all_grids dm) grids)
                      (default (all_variables dm) variables)).
  intros ps Hrun.
  assert (Hd : declarations mdg' = declarations mdg).
  { revert mdg Hrun. induction ps as [|p ps IH]; intros mdg; simpl.
    - by intros [= <-].
    - destruct (distribute_body dm values additive to_iterate mdg p)
        as [mdg1|] eqn:Hp; simpl; [|done].
      intros Hrun. rewrite (IH mdg1 Hrun).
      by eapply distribute_body_declarations. }
  split; [done | by apply init_declarations].
Qed.

Lemma distribute_variable_keeps_declarations_witness :
  ∃ mdg',
    distribute_variable Scenario.dm [1; 2; 3; 4; 5]%Z None None false true
      Scenario.mdg = Ok mdg'
    ∧ declarations mdg' = declarations Scenario.mdg
    ∧ init mdg' = Scenario.dm.
Proof.
  destruct (distribute_variable Scenario.dm [1; 2; 3; 4; 5]%Z None None false true
              Scenario.mdg) as [mdg'|e] eqn:Hrun.
  - exists mdg'. split; [reflexivity|].
    exact (distribute_variable_keeps_declarations _ _ _ _ _ _ _ _ Hrun).
  - vm_compute in Hrun. discriminate.
Defined.

(** ** A vector that is too short *)

Lemma take_inds_res (values : list Z) (inds : list nat) :
  (∃ vals, take_inds values inds = Ok vals)
  ∨ take_inds values inds = Raise IndexError.
Proof.
  induction inds as [|i inds IH]; simpl; [eauto|].
  destruct (values !! i); simpl; [|by right].
  destruct IH as [[vals ->]| ->]; simpl; eauto.
Qed.

Lemma take_inds_out (values : list Z) (inds : list nat) i :
  i ∈ inds → values !! i = None → take_inds values inds = Raise IndexError.
Proof.
  intros Hin Hi. induction inds as [|k inds IH]; [by apply elem_of_nil in Hin|].
  simpl. apply elem_of_cons in Hin as [<-|Hin].
  - by rewrite Hi.
  - destruct (values !! k); simpl; [|done]. by rewrite IH.
Qed.

(** X16: a vector that is too short.  On a manager built from a grid that
    declares no pair twice, [distribute_variable] of a vector with fewer
    than [num_dofs()] entries over all grids and variables raises
    [IndexError]: the block that holds the first missing position cannot
    be read. *)
Theorem distribute_variable_short (mdg : MixedDimensionalGrid) (values : list Z) :
  wf_mdg mdg → length values < num_dofs (init mdg) →
  distribute_variable (init mdg) values None None false false mdg
  = Raise IndexError.
Proof.
  intros Hwf Hlen. pose proof (init_wf mdg Hwf) as Hdm.
  unfold distribute_variable. simpl default.
  apply (for_each_raises _ (all_have_data (init mdg))).
  - intros mdg1 [g var] Hdata.
    destruct (dict_get (g, var) (block_dof (init mdg))) as [j|] eqn:Hj.
    + unfold distribute_body, dict_mem. rewrite Hj. simpl.
      destruct (grid_and_variable_to_dofs_block _ g var j Hdm Hj) as (w & Hw & ->).
      destruct (Hdata g var j Hj) as [dat Hdat]. simpl. rewrite Hdat. simpl.
      destruct (take_inds_res values (seq (block_start (init mdg) j) w))
        as [[vals ->]| ->]; simpl; [left | by right].
      eexists. split; [done|].
      intros g0 var0 j0 Hj0. destruct (decide (g = g0)) as [<-|Hne].
      * rewrite grid_data_update_eq. eauto.
      * rewrite grid_data_update_ne by done. eauto.
    + left. exists mdg1. split; [|done].
      unfold distribute_body, dict_mem. by rewrite Hj.
  - destruct (locate_block (init mdg) (length values) Hlen) as (j & w & Hw & Hr).
    pose proof Hdm as [_ Hl _].
    destruct (lookup_lt_is_Some_2 (map fst (block_dof (init mdg))) j)
      as [[g var] Hkey].
    { rewrite length_map, Hl. by eapply lookup_lt_Some. }
    apply (block_key_index _ g var j Hdm) in Hkey.
    exists (g, var). split.
    { apply elem_of_product. by eapply all_selected. }
    intros mdg1 Hdata. unfold distribute_body, dict_mem. rewrite Hkey. simpl.
    destruct (grid_and_variable_to_dofs_block _ g var j Hdm Hkey)
      as (w' & Hw' & ->).
    assert (w' = w) as -> by congruence.
    destruct (Hdata g var j Hkey) as [dat Hdat]. simpl. rewrite Hdat. simpl.
    rewrite (take_inds_out values _ (length values)); [done | |].
    + by apply elem_of_seq.
    + by apply lookup_ge_None.
  - intros g var j Hj. by eapply init_registered_has_data.
Qed.

Lemma distribute_variable_short_witness :
  distribute_variable Scenario.dm [1; 2; 3; 4]%Z None None false false Scenario.mdg
  = Raise IndexError.
Proof.
  apply (distribute_variable_short Scenario.mdg [1; 2; 3; 4]%Z scenario_wf).
  vm_compute. lia.
Defined.

(** ** Gathering over a selection *)

(** A gathering loop whose turn for a registered pair writes the block of
    the pair from [v]: the positions of the blocks of the selection hold
    the entries of [v], the others are still zero. *)
Lemma gather_loop dm (v : list Z)
    (body : list Z → GridLike * string → res (list Z))
    (ps : list (GridLike * string)) :
  wf_dm dm → length v = num_dofs dm →
  (∀ vals g var, dict_get (g, var) (block_dof dm) = None →
     body vals (g, var) = Ok vals) →
  (∀ vals g var j w, (g, var) ∈ ps → length vals = num_dofs dm →
     dict_get (g, var) (block_dof dm) = Some j → full_dof dm !! j = Some w →
     body vals (g, var)
     = Ok (take (block_start dm j) vals ++ block_values dm v j
           ++ drop (block_start dm j + w) vals)) →
  ∃ vals, for_each body ps (replicate (num_dofs dm) 0%Z) = Ok vals
    ∧ length vals = num_dofs dm
    ∧ (∀ i, covered dm ps i → vals !! i = v !! i)
    ∧ (∀ i, i < num_dofs dm → ¬ covered dm ps i → vals !! i = Some 0%Z).
Proof.
  intros Hwf Hv Hskip. induction ps as [|[g var] ps IH] using rev_ind; intros Hturn.
  - eexists. split; [done|]. split; [by rewrite length_replicate|]. split.
    + intros i (? & ? & ? & ? & Hin & _). by apply elem_of_nil in Hin.
    + intros i Hi _. by apply lookup_replicate_2.
  - destruct IH as (vals & Hrun & Hlen & Hcov & Hzero).
    { intros vals g0 var0 j w Hin. apply Hturn, elem_of_app. auto. }
    rewrite for_each_snoc, Hrun, bind_Ok.
    destruct (dict_get (g, var) (block_dof dm)) as [j|] eqn:Hj.
    + destruct (grid_and_variable_to_dofs_block dm g var j Hwf Hj) as (w & Hw & _).
      rewrite (Hturn vals g var j w); [|by rewrite elem_of_app, list_elem_of_singleton; auto|done..].
      pose proof (length_block_values dm v j w Hv Hw) as Hbl.
      pose proof (block_bound dm j w Hw) as Hb.
      assert (Hout : ∀ i, ¬ (block_start dm j ≤ i < block_start dm j + w) →
                (take (block_start dm j) vals ++ block_values dm v j
                 ++ drop (block_start dm j + w) vals) !! i = vals !! i).
      { intros i Hi. destruct (decide (i < block_start dm j)) as [Hlt|Hge].
        - rewrite lookup_app_l by (rewrite length_take; lia).
          by rewrite lookup_take, decide_True by lia.
        - rewrite lookup_app_r by (rewrite length_take; lia).
          rewrite length_take, Nat.min_l by lia.
          rewrite lookup_app_r by lia.
          rewrite lookup_drop. f_equal. lia. }
      eexists. split; [done|]. split; [|split].
      * rewrite !length_app, length_take, length_drop. lia.
      * intros i Hi.
        destruct (decide (block_start dm j ≤ i < block_start dm j + w)) as [Hin|Hno].
        -- rewrite lookup_app_r by (rewrite length_take; lia).
           rewrite length_take, Nat.min_l by lia.
           rewrite lookup_app_l by lia.
           by apply block_values_lookup with (w := w).
        -- rewrite Hout by done. apply Hcov.
           destruct Hi as (g0 & var0 & j0 & w0 & Hin & Hj0 & Hw0 & Hr).
           exists g0, var0, j0, w0. repeat split; try done; try lia.
           apply elem_of_app in Hin as [Hin|Hin]; [done|].
           apply list_elem_of_singleton in Hin.
           injection Hin as -> ->. assert (j0 = j) as -> by congruence.
           assert (w0 = w) as -> by congruence. lia.
      * intros i Hi Hnc.
        assert (Hno : ¬ (block_start dm j ≤ i < block_start dm j + w)).
        { intros Hin. apply Hnc. exists g, var, j, w.
          rewrite elem_of_app, list_elem_of_singleton. auto. }
        rewrite Hout by done. apply Hzero; [done|].
        intros (g0 & var0 & j0 & w0 & Hin & Hrest). apply Hnc.
        exists g0, var0, j0, w0. rewrite elem_of_app. auto.
    + rewrite Hskip by done.
      exists vals. split; [done|]. split; [done|]. split.
      * intros i (g0 & var0 & j0 & w0 & Hin & Hj0 & Hw0 & Hr).
        apply Hcov. exists g0, var0, j0, w0. repeat split; try done; try lia.
        apply elem_of_app in Hin as [Hin|Hin]; [done|].
        apply list_elem_of_singleton in Hin. congruence.
      * intros i Hi Hnc. apply Hzero; [done|].
        intros (g0 & var0 & j0 & w0 & Hin & Hrest). apply Hnc.
        exists g0, var0, j0, w0. rewrite elem_of_app. auto.
Qed.

(** The block of a position belongs to the selection. *)
Lemma covered_product dm gs vs i g var :
  wf_dm dm → dof_to_grid_and_variable dm (Z.of_nat i) = Ok (g, var) →
  covered dm (product gs vs) i ↔ g ∈ gs ∧ var ∈ vs.
Proof.
  intros Hdm Hi. split.
  - intros (g0 & var0 & j & w & Hin & Hj & Hw & Hr).
    rewrite (dof_of_block dm g0 var0 j w i Hdm Hj Hw Hr) in Hi.
    injection Hi as <- <-. by apply elem_of_product.
  - intros Hsel. pose proof (dof_to_grid_and_variable_Ok _ _ _ Hi) as Hr.
    destruct (dof_to_grid_and_variable_in_range dm i Hdm ltac:(lia))
      as (g' & var' & j & w & Hi' & Hj & Hw & Hb).
    rewrite Hi in Hi'. injection Hi' as <- <-.
    exists g, var, j, w. repeat split; try done; try lia.
    by apply elem_of_product.
Qed.

(** X12: scattering and gathering over a selection.  On a manager built
    from a grid that declares no pair twice and that has a registered
    block, for a vector [v] of length [num_dofs()] and any lists of grids
    and of variables,
    [distribute_variable] and then [assemble_variable] over these lists
    return a vector of length [num_dofs()] that agrees with [v] at the
    dofs whose grid and variable are both in the lists, and is zero at all
    other dofs. *)
Theorem round_trip_selected (mdg : MixedDimensionalGrid) (v : list Z)
    (gs : list GridLike) (vs : list string) :
  wf_mdg mdg → block_dof (init mdg) ≠ [] → length v = num_dofs (init mdg) →
  ∃ mdg' vals,
    distribute_variable (init mdg) v (Some gs) (Some vs) false false mdg = Ok mdg'
    ∧ assemble_variable (init mdg) (Some gs) (Some vs) false mdg' = Ok vals
    ∧ length vals = num_dofs (init mdg)
    ∧ ∀ i g var,
        dof_to_grid_and_variable (init mdg) (Z.of_nat i) = Ok (g, var) →
        vals !! i = if decide (g ∈ gs ∧ var ∈ vs) then v !! i else Some 0%Z.
Proof.
  intros Hwf Hne Hv. pose proof (init_wf mdg Hwf) as Hdm.
  unfold distribute_variable, assemble_variable. simpl default.
  assert (Hfull : full_dof (init mdg) ≠ []).
  { intros Hnil. by apply Hne, no_block_full_dof. }
  destruct (distribute_loop (init mdg) v Hdm Hv (product gs vs) mdg)
    as (mdg' & Hrun & _ & Hslots).
  { intros g var j Hj. by eapply init_registered_has_data. }
  destruct (gather_loop (init mdg) v (assemble_body (init mdg) false mdg')
              (product gs vs) Hdm Hv) as (vals & Hrun' & Hlen & Hcov & Hzero).
  { intros vals g var Hn. unfold assemble_body, dict_mem. by rewrite Hn. }
  { intros vals g var j w Hin Hl Hj Hw.
    apply (assemble_body_registered (init mdg) v Hdm Hv); try done.
    by apply Hslots. }
  exists mdg', vals. split; [done|].
  split; [by rewrite (np_zeros_num_dofs _ Hfull), bind_Ok|]. split; [done|].
  intros i g var Hi.
  pose proof (covered_product (init mdg) gs vs i g var Hdm Hi) as Hc.
  destruct (decide (g ∈ gs ∧ var ∈ vs)) as [Hsel|Hsel].
  - apply Hcov. by apply Hc.
  - apply Hzero; [|by rewrite Hc].
    pose proof (dof_to_grid_and_variable_Ok _ _ _ Hi). lia.
Qed.

Lemma round_trip_selected_witness :
  ∃ mdg' vals,
    distribute_variable Scenario.dm [1; 2; 3; 4; 5]%Z
      (Some [Sd Scenario.E2]) (Some ["p"]) false false Scenario.mdg = Ok mdg'
    ∧ assemble_variable Scenario.dm (Some [Sd Scenario.E2]) (Some ["p"]) false mdg'
      = Ok vals
    ∧ length vals = num_dofs Scenario.dm
    ∧ ∀ i g var,
        dof_to_grid_and_variable Scenario.dm (Z.of_nat i) = Ok (g, var) →
        vals !! i = if decide (g ∈ [Sd Scenario.E2] ∧ var ∈ ["p"])
                    then [1; 2; 3; 4; 5]%Z !! i else Some 0%Z.
Proof.
  apply (round_trip_selected Scenario.mdg [1; 2; 3; 4; 5]%Z [Sd Scenario.E2] ["p"]
           scenario_wf).
  - vm_compute. discriminate.
  - reflexivity.
Defined.


(** ** Scattering to the iterate *)

Section Iterate.
Variable dm : DofManager.
Variable v : list Z.
Hypothesis Hwf : wf_dm dm.
Hypothesis Hv : length v = num_dofs dm.

Lemma distribute_body_iterate mdg g var j dat :
  dict_get (g, var) (block_dof dm) = Some j →
  grid_data mdg g = Ok dat →
  (∀ a, slot mdg g ITERATE ≠ Some (Arr a)) →
  ∃ st',
    distribute_body dm v false true mdg (g, var)
    = Ok (update_data mdg g (mkData (primary_variables dat) (Some st')))
    ∧ st' !! ITERATE
      = Some (Dict (<[var := block_values dm v j]> (iterate_of mdg g)))
    ∧ ∀ k, k ≠ ITERATE → st' !! k = slot mdg g k.
Proof using Hwf Hv.
  intros Hj Hdat Hfree. unfold distribute_body, dict_mem. rewrite Hj. simpl.
  destruct (grid_and_variable_to_dofs_block dm g var j Hwf Hj) as (w & Hw & ->).
  simpl. rewrite Hdat. simpl.
  pose proof (block_bound dm j w Hw).
  rewrite take_inds_seq by lia. simpl.
  assert (Hslot : ∀ k, slot mdg g k = default ∅ (state dat) !! k).
  { intros k. unfold slot. rewrite Hdat. by destruct (state dat). }
  unfold iterate_of. specialize (Hfree). rewrite Hslot in *.
  assert (Hbv : take w (drop (block_start dm j) v) = block_values dm v j).
  { unfold block_values. by rewrite Hw. }
  rewrite Hbv.
  destruct (default ∅ (state dat) !! ITERATE) as [[a|d]|] eqn:Hit.
  - by destruct (Hfree a).
  - rewrite bool_decide_eq_false_2 by done. unfold get_iterate. rewrite Hit. simpl.
    eexists. split; [done|]. split; [by rewrite lookup_insert_eq|].
    intros k Hk. rewrite lookup_insert_ne by done. by rewrite Hslot.
  - rewrite bool_decide_eq_true_2 by done. unfold get_iterate.
    rewrite lookup_insert_eq. simpl.
    eexists. split; [done|]. split; [by rewrite lookup_insert_eq|].
    intros k Hk. rewrite !lookup_insert_ne by done. by rewrite Hslot.
Qed.

Lemma distribute_loop_iterate ps : ∀ mdg,
  all_have_data dm mdg → iterate_free mdg →
  ∃ mdg', for_each (distribute_body dm v false true) ps mdg = Ok mdg'
    ∧ all_have_data dm mdg' ∧ iterate_free mdg'
    ∧ (∀ g k, k ≠ ITERATE → slot mdg' g k = slot mdg g k)
    ∧ ∀ g var j, (g, var) ∈ ps →
        dict_get (g, var) (block_dof dm) = Some j →
        iterate_of mdg' g !! var = Some (block_values dm v j).
Proof using Hwf Hv.
  induction ps as [|[g var] ps IH] using rev_ind; intros mdg Hdata Hfree.
  - exists mdg. repeat split; try done. intros ??? Hin.
    by apply elem_of_nil in Hin.
  - destruct (IH mdg Hdata Hfree) as (mdg1 & Hrun & Hdata1 & Hfree1 & Hkeep & Hits).
    rewrite for_each_snoc, Hrun, bind_Ok.
    destruct (dict_get (g, var) (block_dof dm)) as [j|] eqn:Hj.
    + destruct (Hdata1 g var j Hj) as [dat Hdat].
      destruct (distribute_body_iterate mdg1 g var j dat Hj Hdat (Hfree1 g))
        as (st' & -> & Hst & Hother).
      eexists. split; [done|]. split; [|split; [|split]].
      * intros g0 var0 j0 Hj0. destruct (decide (g = g0)) as [<-|Hne].
        -- rewrite grid_data_update_eq. eauto.
        -- rewrite grid_data_update_ne by done. eauto.
      * intros g0 a. destruct (decide (g = g0)) as [<-|Hne].
        -- rewrite slot_update_eq, Hst. done.
        -- rewrite slot_update_ne by done. apply Hfree1.
      * intros g0 k Hk. rewrite <- Hkeep by done.
        destruct (decide (g = g0)) as [<-|Hne].
        -- rewrite slot_update_eq. by apply Hother.
        -- by rewrite slot_update_ne.
      * intros g0 var0 j0 Hin Hj0. unfold iterate_of.
        destruct (decide (g = g0)) as [<-|Hne].
        -- rewrite slot_update_eq, Hst.
           destruct (decide (var = var0)) as [<-|Hnv].
           ++ rewrite lookup_insert_eq. congruence.
           ++ rewrite lookup_insert_ne by done.
              apply elem_of_app in Hin as [Hin|Hin]; [by apply Hits|].
              apply list_elem_of_singleton in Hin. congruence.
        -- rewrite slot_update_ne by done.
           apply elem_of_app in Hin as [Hin|Hin]; [by apply Hits|].
           apply list_elem_of_singleton in Hin. congruence.
    + rewrite (distribute_body_unregistered dm) by done.
      exists mdg1. repeat split; try done.
      intros g0 var0 j0 Hin Hj0.
      apply elem_of_app in Hin as [Hin|Hin]; [by apply Hits|].
      apply list_elem_of_singleton in Hin. congruence.
Qed.

Lemma assemble_body_iterate mdg vals g var j w :
  length vals = num_dofs dm →
  dict_get (g, var) (block_dof dm) = Some j →
  full_dof dm !! j = Some w →
  iterate_of mdg g !! var = Some (block_values dm v j) →
  assemble_body dm true mdg vals (g, var)
  = Ok (take (block_start dm j) vals ++ block_values dm v j
        ++ drop (block_start dm j + w) vals).
Proof using Hwf Hv.
  intros Hvals Hj Hw Hit. unfold assemble_body, dict_mem. rewrite Hj. simpl.
  destruct (grid_and_variable_to_dofs_block dm g var j Hwf Hj) as (w' & Hw' & ->).
  assert (w' = w) as -> by congruence. simpl.
  unfold iterate_of, slot in Hit.
  destruct (grid_data mdg g) as [dat|]; [|done]. simpl.
  destruct (state dat) as [st|]; [|done]. simpl.
  unfold get_iterate.
  destruct (st !! ITERATE) as [[a|d]|]; try done. simpl. rewrite Hit. simpl.
  pose proof (length_block_values dm v j w Hv Hw) as Hlen.
  pose proof (block_bound dm j w Hw).
  rewrite <- Hlen. apply set_inds_seq. lia.
Qed.
End Iterate.

Lemma no_state_iterate_free mdg : no_state mdg → iterate_free mdg.
Proof.
  intros Hno g a. unfold slot.
  destruct (grid_data mdg g) as [dat|] eqn:Hdat; [|done].
  by rewrite (Hno g dat Hdat).
Qed.

(** X13: the round trip through the iterate.  On a manager that has a
    registered block, built from a grid that declares no pair twice and
    that stores no array under the key of the iterates, for a vector [v]
    of length [num_dofs()],
    [distribute_variable(v, to_iterate=True)] returns, and
    [assemble_variable(from_iterate=True)] on what it leaves returns [v];
    and the scattering changed nothing of the states but what is stored
    under the key of the iterates. *)
Theorem distribute_assemble_iterate (mdg : MixedDimensionalGrid) (v : list Z) :
  wf_mdg mdg → block_dof (init mdg) ≠ [] →
  length v = num_dofs (init mdg) → iterate_free mdg →
  ∃ mdg',
    distribute_variable (init mdg) v None None false true mdg = Ok mdg'
    ∧ assemble_variable (init mdg) None None true mdg' = Ok v
    ∧ ∀ g key, key ≠ ITERATE → slot mdg' g key = slot mdg g key.
Proof.
  intros Hwf Hne Hv Hfree. pose proof (init_wf mdg Hwf) as Hdm.
  unfold distribute_variable, assemble_variable. simpl default.
  assert (Hfull : full_dof (init mdg) ≠ []).
  { intros Hnil. by apply Hne, no_block_full_dof. }
  set (ps := product (all_grids (init mdg)) (all_variables (init mdg))).
  destruct (distribute_loop_iterate (init mdg) v Hdm Hv ps mdg)
    as (mdg' & Hrun & _ & _ & Hkeep & Hits); [|done|].
  { intros g var j Hj. by eapply init_registered_has_data. }
  destruct (gather_loop (init mdg) v (assemble_body (init mdg) true mdg') ps Hdm Hv)
    as (vals & Hrun' & Hlen & Hcov & _).
  { intros vals g var Hn. unfold assemble_body, dict_mem. by rewrite Hn. }
  { intros vals g var j w Hin Hl Hj Hw.
    apply (assemble_body_iterate (init mdg) v Hdm Hv); try done.
    by apply Hits. }
  exists mdg'. split; [done|]. split; [|done].
  rewrite (np_zeros_num_dofs _ Hfull), bind_Ok, Hrun'.
  f_equal. apply list_eq. intros i.
  destruct (decide (i < num_dofs (init mdg))) as [Hi|Hi].
  - apply Hcov.
    destruct (dof_to_grid_and_variable_in_range (init mdg) i Hdm Hi)
      as (g & var & j & w & _ & Hj & Hw & Hr).
    exists g, var, j, w. repeat split; try done; try lia.
    apply elem_of_product. by eapply all_selected.
  - rewrite !lookup_ge_None_2; [done | lia | lia].
Qed.

Lemma distribute_assemble_iterate_witness :
  ∃ mdg',
    distribute_variable Scenario.dm [1; 2; 3; 4; 5]%Z None None false true
      Scenario.mdg = Ok mdg'
    ∧ assemble_variable Scenario.dm None None true mdg' = Ok [1; 2; 3; 4; 5]%Z
    ∧ ∀ g key, key ≠ ITERATE → slot mdg' g key = slot Scenario.mdg g key.
Proof.
  apply (distribute_assemble_iterate Scenario.mdg [1; 2; 3; 4; 5]%Z scenario_wf).
  - vm_compute. discriminate.
  - reflexivity.
  - exact (no_state_iterate_free _ scenario_no_state).
Defined.

(** ** Scattering additively *)

Lemma NoDup_product {A B} (xs : list A) (ys : list B) :
  NoDup xs → NoDup ys → NoDup (product xs ys).
Proof.
  intros Hxs Hys. induction Hxs as [|x xs Hx Hxs IH].
  - constructor.
  - change (product (x :: xs) ys) with (map (fun y => (x, y)) ys ++ product xs ys).
    apply NoDup_app. split; [|split; [|done]].
    + by apply (NoDup_fmap_2 (fun y => (x, y))).
    + intros [x' y] Hin Hin'. apply list_elem_of_fmap in Hin as (? & [= -> ->] & _).
      apply elem_of_product in Hin' as [? _]. done.
Qed.

Lemma block_values_add dm (v w : list Z) j :
  block_values dm (zip_with Z.add v w) j
  = zip_with Z.add (block_values dm v j) (block_values dm w j).
Proof. unfold block_values. by rewrite zip_with_drop, zip_with_take. Qed.

Section Additive.
Variable dm : DofManager.
Variables v w : list Z.
Hypothesis Hwf : wf_dm dm.
Hypothesis Hv : length v = num_dofs dm.
Hypothesis Hw : length w = num_dofs dm.

Lemma distribute_body_additive mdg g var j dat :
  dict_get (g, var) (block_dof dm) = Some j →
  grid_data mdg g = Ok dat →
  slot mdg g var = Some (Arr (block_values dm v j)) →
  distribute_body dm w true false mdg (g, var)
  = Ok (update_data mdg g
          (mkData (primary_variables dat)
             (Some (<[var := Arr (block_values dm (zip_with Z.add v w) j)]>
                      (default ∅ (state dat)))))).
Proof using Hwf Hv Hw.
  intros Hj Hdat Hslot. unfold distribute_body, dict_mem. rewrite Hj. simpl.
  destruct (grid_and_variable_to_dofs_block dm g var j Hwf Hj) as (n & Hn & ->).
  simpl. rewrite Hdat. simpl.
  pose proof (block_bound dm j n Hn).
  rewrite take_inds_seq by lia. simpl.
  unfold slot in Hslot. rewrite Hdat in Hslot.
  destruct (state dat) as [st|]; [|done]. simpl.
  unfold get_state_array. rewrite Hslot. simpl.
  assert (Hbw : take n (drop (block_start dm j) w) = block_values dm w j).
  { unfold block_values. by rewrite Hn. }
  rewrite Hbw. unfold np_add.
  rewrite decide_True
    by (by rewrite (length_block_values dm v j n), (length_block_values dm w j n)).
  simpl. by rewrite block_values_add.
Qed.

Lemma distribute_loop_additive ps : ∀ mdg,
  NoDup ps → all_have_data dm mdg →
  (∀ g var j, dict_get (g, var) (block_dof dm) = Some j →
     slot mdg g var = Some (Arr (block_values dm v j))) →
  ∃ mdg', for_each (distribute_body dm w true false) ps mdg = Ok mdg'
    ∧ all_have_data dm mdg'
    ∧ ∀ g var j, dict_get (g, var) (block_dof dm) = Some j →
        slot mdg' g var
        = Some (Arr (if decide ((g, var) ∈ ps)
                     then block_values dm (zip_with Z.add v w) j
                     else block_values dm v j)).
Proof using Hwf Hv Hw.
  induction ps as [|[g var] ps IH] using rev_ind; intros mdg Hnd Hdata Hslots.
  - exists mdg. repeat split; [done|]. intros g var j Hj.
    rewrite decide_False by apply not_elem_of_nil. by apply Hslots.
  - apply NoDup_app in Hnd as (Hnd & Hfresh & _).
    assert (Hnew : (g, var) ∉ ps).
    { intros Hin. apply (Hfresh _ Hin). by apply list_elem_of_singleton. }
    destruct (IH mdg Hnd Hdata Hslots) as (mdg1 & Hrun & Hdata1 & Hslots1).
    rewrite for_each_snoc, Hrun, bind_Ok.
    destruct (dict_get (g, var) (block_dof dm)) as [j|] eqn:Hj.
    + destruct (Hdata1 g var j Hj) as [dat Hdat].
      pose proof (Hslots1 g var j Hj) as Hold.
      rewrite decide_False in Hold by done.
      rewrite (distribute_body_additive mdg1 g var j dat Hj Hdat Hold).
      eexists. split; [done|]. split.
      * intros g0 var0 j0 Hj0. destruct (decide (g = g0)) as [<-|Hne].
        -- rewrite grid_data_update_eq. eauto.
        -- rewrite grid_data_update_ne by done. eauto.
      * intros g0 var0 j0 Hj0.
        destruct (decide ((g0, var0) = (g, var))) as [[= -> ->]|Hne].
        -- rewrite slot_update_eq, lookup_insert_eq.
           rewrite decide_True
             by (rewrite elem_of_app, list_elem_of_singleton; auto).
           congruence.
        -- assert (Hsame : slot (update_data mdg1 g
                     (mkData (primary_variables dat)
                        (Some (<[var := Arr (block_values dm (zip_with Z.add v w) j)]>
                                 (default ∅ (state dat)))))) g0 var0
                   = slot mdg1 g0 var0).
           { destruct (decide (g = g0)) as [<-|Hng].
             - rewrite slot_update_eq, lookup_insert_ne by congruence.
               unfold slot. rewrite Hdat. by destruct (state dat).
             - by rewrite slot_update_ne. }
           rewrite Hsame, (Hslots1 g0 var0 j0 Hj0). do 2 f_equal.
           destruct (decide ((g0, var0) ∈ ps)) as [Hin|Hin].
           ++ rewrite decide_True; [done|]. apply elem_of_app. by left.
           ++ rewrite decide_False; [done|].
              rewrite elem_of_app, list_elem_of_singleton. tauto.
    + rewrite (distribute_body_unregistered dm) by done.
      exists mdg1. repeat split; [done|].
      intros g0 var0 j0 Hj0. rewrite (Hslots1 g0 var0 j0 Hj0). do 2 f_equal.
      destruct (decide ((g0, var0) ∈ ps)) as [Hin|Hin].
      * rewrite decide_True; [done|]. apply elem_of_app. by left.
      * rewrite decide_False; [done|].
        rewrite elem_of_app, list_elem_of_singleton. intros [?|[= -> ->]]; [done|].
        congruence.
Qed.
End Additive.

(** X14: scattering additively.  On a manager built from a grid that
    declares no pair twice and that has a registered block, for two
    vectors [v] and [w] of length [num_dofs()], [distribute_variable(v)]
    followed by
    [distribute_variable(w, additive=True)] leaves a state from which
    [assemble_variable] returns the entrywise sum of [v] and [w]. *)
Theorem distribute_additive_adds (mdg : MixedDimensionalGrid) (v w : list Z) :
  wf_mdg mdg → block_dof (init mdg) ≠ [] →
  length v = num_dofs (init mdg) → length w = num_dofs (init mdg) →
  ∃ mdg1 mdg2,
    distribute_variable (init mdg) v None None false false mdg = Ok mdg1
    ∧ distribute_variable (init mdg) w None None true false mdg1 = Ok mdg2
    ∧ assemble_variable (init mdg) None None false mdg2
      = Ok (zip_with Z.add v w).
Proof.
  intros Hwf Hne Hv Hw. pose proof (init_wf mdg Hwf) as Hdm.
  unfold distribute_variable, assemble_variable. simpl default.
  assert (Hfull : full_dof (init mdg) ≠ []).
  { intros Hnil. by apply Hne, no_block_full_dof. }
  set (ps := product (all_grids (init mdg)) (all_variables (init mdg))).
  assert (Hall : ∀ g var j, dict_get (g, var) (block_dof (init mdg)) = Some j →
                            (g, var) ∈ ps).
  { intros g var j Hj. apply elem_of_product. by eapply all_selected. }
  destruct (distribute_loop (init mdg) v Hdm Hv ps mdg)
    as (mdg1 & Hrun1 & Hdata1 & Hslots1).
  { intros g var j Hj. by eapply init_registered_has_data. }
  destruct (distribute_loop_additive (init mdg) v w Hdm Hv Hw ps mdg1)
    as (mdg2 & Hrun2 & _ & Hslots2); [|done| |].
  { apply NoDup_product; apply NoDup_remove_dups. }
  { intros g var j Hj. apply Hslots1; [|done]. by eapply Hall. }
  assert (Hsum : length (zip_with Z.add v w) = num_dofs (init mdg)).
  { rewrite length_zip_with. lia. }
  destruct (gather_loop (init mdg) (zip_with Z.add v w)
              (assemble_body (init mdg) false mdg2) ps Hdm Hsum)
    as (vals & Hrun' & Hlen & Hcov & _).
  { intros vals g var Hn. unfold assemble_body, dict_mem. by rewrite Hn. }
  { intros vals g var j n Hin Hl Hj Hn.
    apply (assemble_body_registered (init mdg) _ Hdm Hsum); try done.
    rewrite (Hslots2 g var j Hj). by rewrite decide_True. }
  exists mdg1, mdg2. split; [done|]. split; [done|].
  rewrite (np_zeros_num_dofs _ Hfull), bind_Ok, Hrun'.
  f_equal. apply list_eq. intros i.
  destruct (decide (i < num_dofs (init mdg))) as [Hi|Hi].
  - apply Hcov.
    destruct (dof_to_grid_and_variable_in_range (init mdg) i Hdm Hi)
      as (g & var & j & n & _ & Hj & Hn & Hr).
    exists g, var, j, n. repeat split; try done; try lia. by eapply Hall.
  - rewrite !lookup_ge_None_2; [done | lia | lia].
Qed.

Lemma distribute_additive_adds_witness :
  ∃ mdg1 mdg2,
    distribute_variable Scenario.dm [1; 2; 3; 4; 5]%Z None None false false
      Scenario.mdg = Ok mdg1
    ∧ distribute_variable Scenario.dm [10; 20; 30; 40; 50]%Z None None true false
        mdg1 = Ok mdg2
    ∧ assemble_variable Scenario.dm None None false mdg2
      = Ok (zip_with Z.add [1; 2; 3; 4; 5]%Z [10; 20; 30; 40; 50]%Z).
Proof.
  apply (distribute_additive_adds Scenario.mdg [1; 2; 3; 4; 5]%Z
           [10; 20; 30; 40; 50]%Z scenario_wf);
    [vm_compute; discriminate | reflexivity | reflexivity].
Defined.

(** X17: adding to what is not there.  On a manager built from a grid
    that declares no pair twice and whose grids have no state yet,
    [distribute_variable] with [additive=True] of a vector of length
    [num_dofs()] raises [KeyError] as soon as a block is registered, to
    the state and to the iterate alike: there is nothing to add to. *)
Theorem distribute_additive_no_state (mdg : MixedDimensionalGrid)
    (values : list Z) (to_iterate : bool) :
  wf_mdg mdg → no_state mdg → length values = num_dofs (init mdg) →
  block_dof (init mdg) ≠ [] →
  distribute_variable (init mdg) values None None true to_iterate mdg
  = Raise KeyError.
Proof.
  intros Hwf Hno Hlen Hne. pose proof (init_wf mdg Hwf) as Hdm.
  unfold distribute_variable. simpl default.
  assert (Hturn : ∀ mdg1 g var j, no_state mdg1 → all_have_data (init mdg) mdg1 →
            dict_get (g, var) (block_dof (init mdg)) = Some j →
            distribute_body (init mdg) values true to_iterate mdg1 (g, var)
            = Raise KeyError).
  { intros mdg1 g var j Hno1 Hdata1 Hj. unfold distribute_body, dict_mem.
    rewrite Hj. simpl.
    destruct (grid_and_variable_to_dofs_block _ g var j Hdm Hj) as (n & Hn & ->).
    destruct (Hdata1 g var j Hj) as [dat Hdat]. simpl. rewrite Hdat. simpl.
    pose proof (block_bound _ j n Hn).
    rewrite take_inds_seq by lia. simpl.
    rewrite (Hno1 g dat Hdat). simpl.
    destruct to_iterate; simpl.
    - rewrite bool_decide_eq_true_2 by done. unfold get_iterate.
      rewrite lookup_insert_eq. simpl. by rewrite lookup_empty.
    - unfold get_state_array. by rewrite lookup_empty. }
  apply (for_each_raises _ (fun m => no_state m ∧ all_have_data (init mdg) m)).
  - intros mdg1 [g var] [Hno1 Hdata1].
    destruct (dict_get (g, var) (block_dof (init mdg))) as [j|] eqn:Hj.
    + right. by eapply Hturn.
    + left. exists mdg1. split; [|done].
      unfold distribute_body, dict_mem. by rewrite Hj.
  - destruct (block_dof (init mdg)) as [|[[g var] j] bd] eqn:Hbd; [done|].
    assert (Hj : dict_get (g, var) (block_dof (init mdg)) = Some j).
    { rewrite Hbd. simpl. by rewrite decide_True. }
    exists (g, var). split.
    { apply elem_of_product. by eapply all_selected. }
    intros mdg1 [Hno1 Hdata1]. rewrite Hbd in Hj. by eapply Hturn.
  - split; [done|]. intros g var j Hj. by eapply init_registered_has_data.
Qed.

Lemma distribute_additive_no_state_witness :
  distribute_variable Scenario.dm [1; 2; 3; 4; 5]%Z None None true true Scenario.mdg
  = Raise KeyError.
Proof.
  apply (distribute_additive_no_state Scenario.mdg [1; 2; 3; 4; 5]%Z true
           scenario_wf scenario_no_state).
  - reflexivity.
  - discriminate.
Defined.

(** * More properties of the AD arrays *)

(** ** Reading an [Ad_array] *)

Lemma read_ad_intro (h : heap) a v j ov oj :
  h !! a = Some (OAd v j) → h !! v = Some ov → h !! j = Some oj →
  read_ad h a = Some (ov, oj).
Proof. intros Ha Hv Hj. unfold read_ad. by rewrite Ha, Hv, Hj. Qed.

Lemma read_ad_inv (h : heap) a ov oj :
  read_ad h a = Some (ov, oj) →
  ∃ v j, h !! a = Some (OAd v j) ∧ h !! v = Some ov ∧ h !! j = Some oj.
Proof.
  unfold read_ad. destruct (h !! a) as [[| | | | | |v j]|] eqn:Ha; try done.
  destruct (h !! v) as [ov'|] eqn:Hv; [|done].
  destruct (h !! j) as [oj'|] eqn:Hj; [|done].
  intros [= <- <-]. eauto.
Qed.

Lemma read_ad_prefix (h h' : heap) a r :
  h `prefix_of` h' → read_ad h a = Some r → read_ad h' a = Some r.
Proof.
  intros Hpre Hr. destruct r as [ov oj].
  apply read_ad_inv in Hr as (v & j & Ha & Hv & Hj).
  eapply read_ad_intro; by eapply prefix_lookup.
Qed.

(** Rows scaled one by one. *)
Lemma entry_scale_rows (d : list Z) (J : matrix) i j :
  nrows J = length d →
  entry (mkMat (ncols J) (zip_with vec_scale d (rows J))) i j
  = (default 0 (d !! i) * entry J i j)%Z.
Proof.
  intros Hn. unfold entry, nrows in *. simpl. rewrite lookup_zip_with.
  destruct (d !! i) as [x|] eqn:Hx; simpl; [|lia].
  destruct (rows J !! i) as [r|] eqn:Hr; simpl.
  - rewrite vec_scale_lookup. destruct (r !! j); simpl; lia.
  - lia.
Qed.

(** ** The elementary functions *)

Lemma elementary_run f g h a va Ja E :
  read_ad h a = Some (OVec va, OMat Ja) → nrows Ja = length va → mat_wf Ja →
  wp (functions.elementary f g a)
     (fun c h' => h `prefix_of` h'
        ∧ read_ad h' c
          = Some (OVec (map f va),
                  OMat (mkMat (ncols Ja) (zip_with vec_scale (map g va) (rows Ja)))))
     E h.
Proof.
  intros Hr Hn Hwf. apply read_ad_inv in Hr as (v & j & Ha & Hv & Hj).
  unfold functions.elementary. wp_run. cbn [is_Ad].
  wp_call wp_get_val; [solve_lookup|].
  wp_call wp_unop; [solve_lookup | reflexivity |].
  wp_call wp_unop; [solve_lookup | reflexivity |].
  wp_call wp_diagvec_mul_jac; [solve_lookup | solve_lookup | solve_lookup | |].
  { apply matmul_diags; [by rewrite length_map | done]. }
  apply wp_Ad_array. split; [solve_prefix|].
  eapply read_ad_intro; solve_lookup.
Qed.

(** X18: the chain rule of the elementary functions.  [exp], [log],
    [sin], [cos], [tan], the inverse and the hyperbolic functions and
    [heaviside_smooth] share one body, with [f] the numpy function and
    [g] the multiplier of the derivative.  On an [Ad_array] with the
    value [va] and a Jacobian [Ja] with one row for each entry, the call
    returns an [Ad_array] with the value [f(va)], entry by entry, and the
    Jacobian [diag(g(va)) Ja]: entry [(i, j)] is [g(va[i]) Ja[i,j]].  On a
    plain array it returns the plain array [f(va)], without a Jacobian. *)
Theorem elementary_chain_rule (f g : Z → Z) (h : heap) (a x : addr)
    (va vx : list Z) (Ja : matrix) :
  read_ad h a = Some (OVec va, OMat Ja) → nrows Ja = length va → mat_wf Ja →
  h !! x = Some (OVec vx) →
  (∃ c J h',
     functions.elementary f g a h = (Ok c, h')
     ∧ read_ad h' c = Some (OVec (map f va), OMat J)
     ∧ nrows J = nrows Ja ∧ ncols J = ncols Ja
     ∧ ∀ i j, entry J i j = (default 0 (g <$> va !! i) * entry Ja i j)%Z)
  ∧ (∃ c h', functions.elementary f g x h = (Ok c, h')
             ∧ h' !! c = Some (OVec (map f vx))).
Proof.
  intros Hr Hn Hwf Hx. split.
  - destruct (wp_elim _ _ _ (elementary_run f g h a va Ja _ Hr Hn Hwf))
      as (c & h' & Hrun & _ & Hc).
    eexists c, _, h'. split; [done|]. split; [done|]. split; [|split; [done|]].
    + unfold nrows in *. simpl. rewrite length_zip_with, length_map. lia.
    + intros i j. rewrite entry_scale_rows by (by rewrite length_map).
      by rewrite list_lookup_fmap.
  - assert (wp (functions.elementary f g x)
              (fun c h' => h' !! c = Some (OVec (map f vx))) (fun _ => False) h)
      as Hwp.
    { unfold functions.elementary. wp_run. cbn [is_Ad].
      eapply wp_unop; [solve_lookup | reflexivity |]. solve_lookup. }
    apply wp_elim in Hwp as (c & h' & Hrun & Hc). eauto.
Qed.

Lemma elementary_chain_rule_witness :
  ∃ c J h',
    functions.elementary (Z.mul 3) (fun _ => 3%Z) 2 mul_heap = (Ok c, h')
    ∧ read_ad h' c = Some (OVec [9; 15]%Z, OMat J)
    ∧ entry J 1 1 = 3%Z.
Proof.
  destruct (elementary_chain_rule (Z.mul 3) (fun _ => 3%Z) mul_heap 2 0
              [3; 5]%Z [3; 5]%Z (diags (ones 2)))
    as [(c & J & h' & Hrun & Hc & _ & _ & HJ) _];
    try reflexivity; try apply mat_wf_diags.
  exists c, J, h'. split; [exact Hrun|]. split; [exact Hc|]. apply (HJ 1 1).
Defined.

(** ** [sign], [abs] and [heaviside] *)

(** X19: [abs].  On an [Ad_array] with the value [va] and a Jacobian [Ja]
    with one row for each entry, [abs] returns an [Ad_array] with the
    value [|va|] and the Jacobian [diag(sign(va)) Ja]: row [i] is kept
    where [va[i] > 0], negated where [va[i] < 0], and zero where
    [va[i] = 0]. *)
Theorem abs_rows (h : heap) (a : addr) (va : list Z) (Ja : matrix) :
  read_ad h a = Some (OVec va, OMat Ja) → nrows Ja = length va → mat_wf Ja →
  ∃ c J h',
    functions.abs a h = (Ok c, h')
    ∧ read_ad h' c = Some (OVec (map Z.abs va), OMat J)
    ∧ nrows J = nrows Ja ∧ ncols J = ncols Ja
    ∧ ∀ i j, entry J i j = (Z.sgn (default 0 (va !! i)) * entry Ja i j)%Z.
Proof.
  intros Hr Hn Hwf. apply read_ad_inv in Hr as (v & j & Ha & Hv & Hj).
  assert (wp (functions.abs a)
    (fun c h' => read_ad h' c
       = Some (OVec (map Z.abs va),
               OMat (mkMat (ncols Ja) (zip_with vec_scale (map Z.sgn va) (rows Ja)))))
    (fun _ => False) h) as Hwp.
  { unfold functions.abs. wp_run. cbn [is_Ad].
    wp_call wp_get_val; [solve_lookup|].
    wp_call wp_unop; [solve_lookup | reflexivity |].
    apply wp_bind. unfold functions.sign. wp_run. cbn [is_Ad negb].
    wp_call wp_get_val; [solve_lookup|].
    eapply wp_unop; [solve_lookup | reflexivity |].
    wp_call wp_diagvec_mul_jac; [solve_lookup | solve_lookup | solve_lookup | |].
    { apply matmul_diags; [by rewrite length_map | done]. }
    apply wp_Ad_array. eapply read_ad_intro; solve_lookup. }
  apply wp_elim in Hwp as (c & h' & Hrun & Hc).
  eexists c, _, h'. split; [done|]. split; [done|]. split; [|split; [done|]].
  - unfold nrows in *. simpl. rewrite length_zip_with, length_map. lia.
  - intros i k. rewrite entry_scale_rows by (by rewrite length_map).
    rewrite list_lookup_fmap. by destruct (va !! i).
Qed.

Lemma abs_rows_witness :
  ∃ c J h',
    functions.abs 2 mul_heap = (Ok c, h')
    ∧ read_ad h' c = Some (OVec [3; 5]%Z, OMat J)
    ∧ entry J 1 1 = 1%Z.
Proof.
  destruct (abs_rows mul_heap 2 [3; 5]%Z (diags (ones 2)))
    as (c & J & h' & Hrun & Hc & _ & _ & HJ);
    try reflexivity; try apply mat_wf_diags.
  exists c, J, h'. split; [exact Hrun|]. split; [exact Hc|]. apply (HJ 1 1).
Defined.

(** X20: [sign] and [heaviside] drop the Jacobian.  On an [Ad_array]
    with the value [va], whatever its Jacobian, both return a plain
    array, not an [Ad_array]: the signs of the entries, and the steps of
    the entries with [zerovalue] at the entries that are zero. *)
Theorem sign_heaviside_plain (h : heap) (a v j : addr) (va : list Z)
    (zerovalue : Z) :
  h !! a = Some (OAd v j) → h !! v = Some (OVec va) →
  (∃ c h', functions.sign a h = (Ok c, h')
           ∧ h' !! c = Some (OVec (map Z.sgn va)))
  ∧ (∃ c h', functions.heaviside a zerovalue h = (Ok c, h')
             ∧ h' !! c
               = Some (OVec (map (fun x => if (x <? 0)%Z then 0
                                           else if (x =? 0)%Z then zerovalue
                                           else 1)%Z va))).
Proof.
  intros Ha Hv. split.
  - assert (wp (functions.sign a)
              (fun c h' => h' !! c = Some (OVec (map Z.sgn va))) (fun _ => False) h)
      as Hwp.
    { unfold functions.sign. wp_run. cbn [is_Ad negb].
      wp_call wp_get_val; [solve_lookup|].
      eapply wp_unop; [solve_lookup | reflexivity |]. solve_lookup. }
    apply wp_elim in Hwp as (c & h' & Hrun & Hc). eauto.
  - assert (wp (functions.heaviside a zerovalue)
              (fun c h' => h' !! c
                 = Some (OVec (map (functions.np_heaviside zerovalue) va)))
              (fun _ => False) h) as Hwp.
    { unfold functions.heaviside. wp_run. cbn [is_Ad].
      wp_call wp_get_val; [solve_lookup|].
      eapply wp_unop; [solve_lookup | reflexivity |]. solve_lookup. }
    apply wp_elim in Hwp as (c & h' & Hrun & Hc). eauto.
Qed.

Lemma sign_heaviside_plain_witness :
  ∃ c h', functions.sign 2 mul_heap = (Ok c, h')
          ∧ h' !! c = Some (OVec [1; 1]%Z).
Proof.
  exact (proj1 (sign_heaviside_plain mul_heap 2 0 1 [3; 5]%Z 0 eq_refl eq_refl)).
Defined.

(** ** Negation, sums and differences *)

Lemma wp_py_neg x ox o (Q : addr → heap → Prop) E h :
  h !! x = Some ox → plain ox → neg_leaf ox = Ok o →
  Q (length h) (h ++ [o]) → wp (py_neg x) Q E h.
Proof.
  intros Hx Hp Hf HQ. unfold py_neg. wp_run.
  assert (wp (unop neg_leaf x) Q E h) as Hb by (by eapply wp_unop).
  destruct ox; try done.
Qed.

(** [b = a.copy()], then [b.val = -b.val] and [b.jac = -b.jac]. *)
Lemma wp_negated_copy a ov oj nv nj (k : addr → M addr) Q E h :
  read_ad h a = Some (ov, oj) →
  is_Ad ov = false → is_Ad oj = false → plain ov → plain oj →
  neg_leaf ov = Ok nv → neg_leaf oj = Ok nj →
  (∀ b h1, h `prefix_of` h1 → length h ≤ b < length h1 →
     read_ad h1 b = Some (nv, nj) → wp (k b) Q E h1) →
  wp (copy a)
     (fun b h1 =>
        wp (let* bv := get_val b in
            let* v := py_neg bv in
            let* _ := set_val b v in
            let* bj := get_jac b in
            let* j := py_neg bj in
            let* _ := set_jac b j in
            k b) Q E h1) E h.
Proof.
  intros Hr Hav Haj Hpv Hpj Hnv Hnj Hk.
  apply read_ad_inv in Hr as (v & j & Ha & Hv & Hj).
  pose proof (lookup_lt_Some _ _ _ Ha) as Hla.
  pose proof (lookup_lt_Some _ _ _ Hv) as Hlv.
  pose proof (lookup_lt_Some _ _ _ Hj) as Hlj.
  unfold copy, Ad_array_0, Ad_array_1, Ad_array. wp_run.
  wp_call wp_get_val; [solve_lookup|].
  wp_call wp_copy_or_keep; [solve_lookup | done |].
  destruct (is_number ov) eqn:Hnumv;
    (wp_call wp_set_val; [solve_lookup|];
     wp_call wp_get_jac; [solve_lookup|];
     wp_call wp_copy_or_keep; [solve_lookup | done |];
     destruct (is_number oj) eqn:Hnumj;
       (wp_call wp_set_jac; [solve_lookup|]; wp_run;
        wp_call wp_get_val; [solve_lookup|];
        wp_call wp_py_neg; [solve_lookup | done | exact Hnv |];
        wp_call wp_set_val; [solve_lookup|];
        wp_call wp_get_jac; [solve_lookup|];
        wp_call wp_py_neg; [solve_lookup | done | exact Hnj |];
        wp_call wp_set_jac; [solve_lookup|];
        apply Hk; [solve_prefix | heap_len | eapply read_ad_intro; solve_lookup])).
Qed.

(** [c = Ad_array()], then [c.val = a.val + b.val] and
    [c.jac = a.jac + b.jac]. *)
Lemma add_run a b ov1 oj1 ov2 oj2 sv sj E h :
  read_ad h a = Some (ov1, oj1) → read_ad h b = Some (ov2, oj2) →
  plain ov1 → plain oj1 → plain ov2 → plain oj2 →
  add_leaf ov1 ov2 = Ok sv → add_leaf oj1 oj2 = Ok sj →
  wp (__add__ a b)
     (fun c h' => h `prefix_of` h' ∧ read_ad h' c = Some (sv, sj)) E h.
Proof.
  intros Hra Hrb Hp1 Hq1 Hp2 Hq2 Hsv Hsj.
  apply read_ad_inv in Hra as (av & aj & Ha & Hav & Haj).
  apply read_ad_inv in Hrb as (bv & bj & Hb & Hbv & Hbj).
  pose proof (lookup_lt_Some _ _ _ Ha). pose proof (lookup_lt_Some _ _ _ Hb).
  pose proof (lookup_lt_Some _ _ _ Hav). pose proof (lookup_lt_Some _ _ _ Haj).
  pose proof (lookup_lt_Some _ _ _ Hbv). pose proof (lookup_lt_Some _ _ _ Hbj).
  unfold __add__, _cast, Ad_array_0, Ad_array_1, Ad_array. wp_run.
  wp_call wp_get_val; [solve_lookup|].
  wp_call wp_get_val; [solve_lookup|].
  wp_call wp_py_add; [solve_lookup | solve_lookup | done | done | exact Hsv |].
  wp_call wp_set_val; [solve_lookup|].
  wp_call wp_get_jac; [solve_lookup|].
  wp_call wp_get_jac; [solve_lookup|].
  wp_call wp_py_add; [solve_lookup | solve_lookup | done | done | exact Hsj |].
  wp_call wp_set_jac; [solve_lookup|]. wp_run.
  split; [solve_prefix|]. eapply read_ad_intro; solve_lookup.
Qed.

Lemma zip_with_add_opp (u v : list Z) :
  zip_with Z.add u (map Z.opp v) = zip_with Z.sub u v.
Proof.
  revert v. induction u as [|x u IH]; intros [|y v]; simpl; try done.
  by rewrite IH.
Qed.

Lemma entry_madd_mneg (A B C : matrix) i j :
  mat_wf A → mat_wf B → madd A (mneg B) = Ok C →
  entry C i j = (entry A i j - entry B i j)%Z.
Proof.
  intros HA HB. unfold madd.
  destruct (decide _) as [[Hn Hm]|]; [|done]. intros [= <-].
  unfold entry, mneg, nrows in *. simpl in *. rewrite length_map in Hn.
  rewrite lookup_zip_with, list_lookup_fmap.
  destruct (rows A !! i) as [ra|] eqn:Hra; simpl.
  - destruct (lookup_lt_is_Some_2 (rows B) i) as [rb Hrb].
    { apply lookup_lt_Some in Hra. lia. }
    rewrite Hrb. simpl. rewrite vec_add_lookup, list_lookup_fmap.
    pose proof (Forall_lookup_1 _ _ _ _ HA Hra) as Hla.
    pose proof (Forall_lookup_1 _ _ _ _ HB Hrb) as Hlb. simpl in Hla, Hlb.
    destruct (ra !! j) as [p|] eqn:Hp; simpl.
    + destruct (lookup_lt_is_Some_2 rb j) as [q Hq].
      { apply lookup_lt_Some in Hp. lia. }
      rewrite Hq. simpl. lia.
    + apply lookup_ge_None in Hp. rewrite (lookup_ge_None_2 rb) by lia. done.
  - apply lookup_ge_None in Hra. rewrite (lookup_ge_None_2 (rows B)) by lia. done.
Qed.

Lemma sub_run h a b va vb Ja Jb E :
  read_ad h a = Some (OVec va, OMat Ja) → read_ad h b = Some (OVec vb, OMat Jb) →
  length va = length vb → nrows Ja = nrows Jb → ncols Ja = ncols Jb →
  wp (__sub__ a b)
     (fun c h' => h `prefix_of` h'
        ∧ read_ad h' c
          = Some (OVec (zip_with Z.sub va vb),
                  OMat (mkMat (ncols Ja)
                          (zip_with vec_add (rows Ja) (rows (mneg Jb))))))
     E h.
Proof.
  intros Hra Hrb Hlen Hn Hm.
  pose proof Hrb as Hrb'. apply read_ad_inv in Hrb' as (bv & bj & Hb & _ & _).
  unfold __sub__, _cast. wp_run. cbn [is_Ad].
  eapply wp_negated_copy; [exact Hrb | done.. |].
  intros b' h1 Hpre _ Hb'.
  eapply wp_mono; [eapply (add_run a b'); [by eapply read_ad_prefix | exact Hb' | done..| |] | |].
  - simpl. unfold broadcast2. rewrite decide_True by (by rewrite length_map).
    simpl. by rewrite zip_with_add_opp.
  - simpl. unfold madd. rewrite decide_True; [done|].
    unfold nrows, mneg in *. simpl. by rewrite length_map.
  - simpl. intros c h' [Hpre' Hc]. split; [by etrans | done].
  - done.
Qed.

(** X21: the difference of two [Ad_array]s.  For [a] with the value [va]
    and the Jacobian [Ja] and [b] with the value [vb] of the same length
    and the Jacobian [Jb] of the same shape, [a - b] returns an
    [Ad_array] whose value is [va - vb], entry by entry, and whose
    Jacobian is [Ja - Jb]: entry [(i, j)] is [Ja[i,j] - Jb[i,j]]. *)
Theorem sub_entries (h : heap) (a b : addr) (va vb : list Z) (Ja Jb : matrix) :
  read_ad h a = Some (OVec va, OMat Ja) → read_ad h b = Some (OVec vb, OMat Jb) →
  length va = length vb → nrows Ja = nrows Jb → ncols Ja = ncols Jb →
  mat_wf Ja → mat_wf Jb →
  ∃ c J h',
    __sub__ a b h = (Ok c, h')
    ∧ read_ad h' c = Some (OVec (zip_with Z.sub va vb), OMat J)
    ∧ nrows J = nrows Ja ∧ ncols J = ncols Ja
    ∧ ∀ i j, entry J i j = (entry Ja i j - entry Jb i j)%Z.
Proof.
  intros Hra Hrb Hlen Hn Hm Hwa Hwb.
  destruct (wp_elim _ _ _ (sub_run h a b va vb Ja Jb _ Hra Hrb Hlen Hn Hm))
    as (c & h' & Hrun & _ & Hc).
  eexists c, _, h'. split; [done|]. split; [done|]. split; [|split; [done|]].
  - unfold nrows, mneg in *. simpl. rewrite length_zip_with, length_map. lia.
  - intros i j. apply entry_madd_mneg; [done..|].
    unfold madd. rewrite decide_True; [done|].
    unfold nrows, mneg in *. simpl. by rewrite length_map.
Qed.

Lemma sub_entries_witness :
  ∃ c J h',
    __sub__ 2 5 sub_heap = (Ok c, h')
    ∧ read_ad h' c = Some (OVec [2; 3]%Z, OMat J)
    ∧ entry J 1 1 = (-1)%Z.
Proof.
  destruct (sub_entries sub_heap 2 5 [3; 5]%Z [1; 2]%Z (diags (ones 2))
              (diags [2; 2]%Z))
    as (c & J & h' & Hrun & Hc & _ & _ & HJ);
    try reflexivity; try apply mat_wf_diags.
  exists c, J, h'. split; [exact Hrun|]. split; [exact Hc|]. apply (HJ 1 1).
Defined.

Lemma mneg_mneg (A : matrix) : mneg (mneg A) = A.
Proof.
  destruct A as [n rs]. unfold mneg. simpl. f_equal.
  rewrite map_map. rewrite <- (map_id rs) at 2. apply map_ext. intros r.
  rewrite map_map. rewrite <- (map_id r) at 2. apply map_ext. intros x. lia.
Qed.

(** X22: negating twice.  For an [Ad_array] [a] with the value [va] and
    the Jacobian [Ja], [-a] has the value [-va] and the Jacobian [-Ja],
    and [-(-a)] is a new [Ad_array] with the value and the Jacobian of
    [a]. *)
Theorem neg_involutive (h : heap) (a : addr) (va : list Z) (Ja : matrix) :
  read_ad h a = Some (OVec va, OMat Ja) →
  ∃ b c h',
    (let* b := __neg__ a in let* c := __neg__ b in ret (b, c)) h = (Ok (b, c), h')
    ∧ read_ad h' b = Some (OVec (map Z.opp va), OMat (mneg Ja))
    ∧ read_ad h' c = Some (OVec va, OMat Ja)
    ∧ length h ≤ b ∧ b ≠ c.
Proof.
  intros Hr.
  assert (wp (let* b := __neg__ a in let* c := __neg__ b in ret (b, c))
    (fun bc h' => read_ad h' bc.1 = Some (OVec (map Z.opp va), OMat (mneg Ja))
                  ∧ read_ad h' bc.2 = Some (OVec va, OMat Ja)
                  ∧ length h ≤ bc.1 ∧ bc.1 ≠ bc.2)
    (fun _ => False) h) as Hwp.
  { unfold __neg__. do 2 apply wp_bind.
    eapply wp_negated_copy; [exact Hr | done.. |].
    intros b h1 Hpre1 Hlb Hb. apply wp_ret. do 2 apply wp_bind.
    eapply wp_negated_copy; [exact Hb | done.. |].
    intros c h2 Hpre2 Hlc Hc. do 2 apply wp_ret. simpl.
    assert (Hc' : read_ad h2 c = Some (OVec va, OMat Ja)).
    { rewrite Hc. do 3 f_equal; [|apply mneg_mneg].
      rewrite map_map. rewrite <- (map_id va) at 2. apply map_ext. intros x. lia. }
    split; [by eapply read_ad_prefix|]. split; [done|]. lia. }
  apply wp_elim in Hwp as ([b c] & h' & Hrun & Hb & Hc & Hlen & Hne).
  by exists b, c, h'.
Qed.

Lemma neg_involutive_witness :
  ∃ b c h',
    (let* b := __neg__ 2 in let* c := __neg__ b in ret (b, c)) mul_heap
    = (Ok (b, c), h')
    ∧ read_ad h' b = Some (OVec [-3; -5]%Z, OMat (mneg (diags (ones 2))))
    ∧ read_ad h' c = Some (OVec [3; 5]%Z, OMat (diags (ones 2))).
Proof.
  destruct (neg_involutive mul_heap 2 [3; 5]%Z (diags (ones 2)) eq_refl)
    as (b & c & h' & Hrun & Hb & Hc & _).
  by exists b, c, h'.
Defined.

Lemma map_opp_sub (u v : list Z) :
  map Z.opp (zip_with Z.add u (map Z.opp v)) = zip_with Z.sub v u.
Proof.
  revert v. induction u as [|x u IH]; intros [|y v]; simpl; try done.
  rewrite IH. f_equal. lia.
Qed.

(** X23: [__rsub__] with a plain array.  For an [Ad_array] [a] with the
    value [va] and the Jacobian [Ja] and a plain array [x] of the same
    length, [a.__rsub__(x)] returns an [Ad_array] with the value [x - va]
    and the Jacobian [-Ja]. *)
Theorem rsub_plain (h : heap) (a x : addr) (va vx : list Z) (Ja : matrix) :
  read_ad h a = Some (OVec va, OMat Ja) → h !! x = Some (OVec vx) →
  length vx = length va →
  ∃ c h',
    __rsub__ a x h = (Ok c, h')
    ∧ read_ad h' c = Some (OVec (zip_with Z.sub vx va), OMat (mneg Ja)).
Proof.
  intros Hr Hx Hlen.
  assert (wp (__rsub__ a x)
    (fun c h' => read_ad h' c = Some (OVec (zip_with Z.sub vx va), OMat (mneg Ja)))
    (fun _ => False) h) as Hwp.
  { pose proof (lookup_lt_Some _ _ _ Hx).
    unfold __rsub__, __sub__, _cast, Ad_array_1, Ad_array. wp_run. cbn [is_Ad].
    eapply (wp_negated_copy _ (OVec vx) (ONum 0)); [|done..|].
    { eapply read_ad_intro; solve_lookup. }
    intros b h1 Hpre1 _ Hb.
    eapply wp_mono;
      [eapply (add_run a b _ _ _ _ _ _ (fun _ => False));
         [eapply read_ad_prefix; [|exact Hr]; etrans; [|exact Hpre1]; solve_prefix
         | exact Hb | done.. | |] | |].
    - simpl. unfold broadcast2.
      by rewrite decide_True by (rewrite length_map; lia).
    - reflexivity.
    - simpl. intros d h2 [Hpre2 Hd]. unfold __neg__. apply wp_bind.
      eapply wp_negated_copy; [exact Hd | done.. |].
      intros c h3 Hpre3 _ Hc. apply wp_ret.
      by rewrite map_opp_sub in Hc.
    - done. }
  apply wp_elim in Hwp as (c & h' & Hrun & Hc). eauto.
Qed.

Lemma rsub_plain_witness :
  ∃ c h',
    __rsub__ 2 0 mul_heap = (Ok c, h')
    ∧ read_ad h' c = Some (OVec [0; 0]%Z, OMat (mneg (diags (ones 2)))).
Proof.
  exact (rsub_plain mul_heap 2 0 [3; 5]%Z [3; 5]%Z (diags (ones 2))
           eq_refl eq_refl eq_refl).
Defined.

(** ** Products with a number, and powers *)

(** X24: an [Ad_array] times a number.  For an [Ad_array] [a] with the
    value [va] and the Jacobian [Ja] and a Python number [k], [a * k] and
    [k * a], which Python evaluates as [a.__rmul__(k)], return
    [Ad_array]s with the same value [k va] and the same Jacobian [k Ja];
    [a.__rmul__(b)] for an [Ad_array] [b] raises [RuntimeError] and
    leaves the heap as it was. *)
Theorem mul_number (h : heap) (a s b : addr) (va : list Z) (Ja : matrix)
    (k : Z) (bv bj : addr) :
  read_ad h a = Some (OVec va, OMat Ja) → h !! s = Some (ONum k) →
  h !! b = Some (OAd bv bj) →
  (∃ c h', __mul__ a s h = (Ok c, h')
           ∧ read_ad h' c = Some (OVec (map (Z.mul k) va), OMat (mscale k Ja)))
  ∧ (∃ c h', __rmul__ a s h = (Ok c, h')
             ∧ read_ad h' c = Some (OVec (map (Z.mul k) va), OMat (mscale k Ja)))
  ∧ __rmul__ a b h = (Raise RuntimeError, h).
Proof.
  intros Hr Hs Hb. apply read_ad_inv in Hr as (v & j & Ha & Hv & Hj).
  split; [|split].
  - assert (wp (__mul__ a s)
      (fun c h' => read_ad h' c
         = Some (OVec (map (Z.mul k) va), OMat (mscale k Ja)))
      (fun _ => False) h) as Hwp.
    { unfold __mul__, _jac_mul_other. wp_run. cbn [is_Ad negb is_ndarray].
      wp_call wp_get_val; [solve_lookup|].
      wp_call wp_py_mul; [solve_lookup | solve_lookup | done | done | reflexivity |].
      apply wp_bind. wp_call wp_get_jac; [solve_lookup|].
      eapply wp_py_mul; [solve_lookup | solve_lookup | done | done | reflexivity |].
      apply wp_Ad_array. eapply read_ad_intro; [solve_lookup | | solve_lookup].
      replace (map (Z.mul k) va) with (map (fun x => (x * k)%Z) va)
        by (apply map_ext; intros; lia).
      solve_lookup. }
    apply wp_elim in Hwp as (c & h' & Hrun & Hc). eauto.
  - assert (wp (__rmul__ a s)
      (fun c h' => read_ad h' c
         = Some (OVec (map (Z.mul k) va), OMat (mscale k Ja)))
      (fun _ => False) h) as Hwp.
    { unfold __rmul__, _other_mul_jac. wp_run. cbn [is_Ad].
      wp_call wp_get_val; [solve_lookup|].
      wp_call wp_py_mul; [solve_lookup | solve_lookup | done | done | reflexivity |].
      apply wp_bind. wp_call wp_get_jac; [solve_lookup|].
      eapply wp_py_mul; [solve_lookup | solve_lookup | done | done | reflexivity |].
      apply wp_Ad_array. eapply read_ad_intro; solve_lookup. }
    apply wp_elim in Hwp as (c & h' & Hrun & Hc). eauto.
  - unfold __rmul__, hbind, load. by rewrite Hb.
Qed.

Lemma mul_number_witness :
  ∃ c h', __rmul__ 2 3 seed_heap_scaled = (Ok c, h')
          ∧ read_ad h' c = Some (OVec [6; 10]%Z, OMat (mscale 2 (diags (ones 2)))).
Proof.
  exact (proj1 (proj2 (mul_number seed_heap_scaled 2 3 2 [3; 5]%Z (diags (ones 2))
                         2 0 1 eq_refl eq_refl eq_refl))).
Defined.

(** X25: the power rule.  For an [Ad_array] [a] with the value [va] and a
    Jacobian [Ja] with one row for each entry, and a Python integer
    [n >= 1], [a ** n] returns an [Ad_array] with the value [va ** n],
    entry by entry, and the Jacobian [diag(n va ** (n - 1)) Ja]: entry
    [(i, j)] is [n va[i] ** (n - 1) Ja[i,j]]. *)
Theorem pow_rule (h : heap) (a e : addr) (va : list Z) (Ja : matrix) (n : Z) :
  read_ad h a = Some (OVec va, OMat Ja) → h !! e = Some (ONum n) →
  (1 ≤ n)%Z → nrows Ja = length va → mat_wf Ja →
  ∃ c J h',
    __pow__ a e h = (Ok c, h')
    ∧ read_ad h' c = Some (OVec (map (fun x => x ^ n)%Z va), OMat J)
    ∧ nrows J = nrows Ja ∧ ncols J = ncols Ja
    ∧ ∀ i j, entry J i j
             = (n * default 0 (va !! i) ^ (n - 1) * entry Ja i j)%Z.
Proof.
  intros Hr He Hn Hrows Hwf. apply read_ad_inv in Hr as (v & j & Ha & Hv & Hj).
  assert (wp (__pow__ a e)
    (fun c h' => read_ad h' c
       = Some (OVec (map (fun x => zpow x n) va),
               OMat (mkMat (ncols Ja)
                       (zip_with vec_scale
                          (map (Z.mul n) (map (fun x => zpow x (n - 1)) va))
                          (rows Ja)))))
    (fun _ => False) h) as Hwp.
  { unfold __pow__. wp_run. cbn [is_Ad negb].
    wp_call wp_get_val; [solve_lookup|].
    wp_call wp_binop; [solve_lookup | solve_lookup | |].
    { simpl. by rewrite decide_True by lia. }
    wp_run.
    wp_call wp_binop; [solve_lookup | solve_lookup | reflexivity |].
    wp_call wp_binop; [solve_lookup | solve_lookup | |].
    { simpl. by rewrite decide_True by lia. }
    wp_call wp_py_mul; [solve_lookup | solve_lookup | done | done | reflexivity |].
    wp_call wp_diagvec_mul_jac; [solve_lookup | solve_lookup | solve_lookup | |].
    { apply matmul_diags; [by rewrite !length_map | done]. }
    apply wp_Ad_array. eapply read_ad_intro; solve_lookup. }
  apply wp_elim in Hwp as (c & h' & Hrun & Hc).
  eexists c, _, h'. split; [done|]. split; [done|]. split; [|split; [done|]].
  - unfold nrows in *. simpl. rewrite length_zip_with, !length_map. lia.
  - intros i k. rewrite entry_scale_rows by (by rewrite !length_map).
    rewrite !list_lookup_fmap. unfold zpow.
    destruct (va !! i) as [x|] eqn:Hx; simpl; [lia|].
    apply lookup_ge_None in Hx. unfold entry.
    rewrite (lookup_ge_None_2 (rows Ja)) by (unfold nrows in Hrows; lia).
    simpl. lia.
Qed.

Lemma pow_rule_witness :
  ∃ c J h',
    __pow__ 2 3 seed_heap_scaled = (Ok c, h')
    ∧ read_ad h' c = Some (OVec [9; 25]%Z, OMat J)
    ∧ entry J 1 1 = 10%Z.
Proof.
  destruct (pow_rule seed_heap_scaled 2 3 [3; 5]%Z (diags (ones 2)) 2)
    as (c & J & h' & Hrun & Hc & _ & _ & HJ);
    try reflexivity; try apply mat_wf_diags; try lia.
  exists c, J, h'. split; [exact Hrun|]. split; [exact Hc|]. apply (HJ 1 1).
Defined.


(** ** [maximum] of a number and an [Ad_array] *)

(** X26: [maximum] with a number first.  For a Python number [x] and an
    [Ad_array] [b] whose value is an array, [maximum(x, b)] raises
    [AttributeError], in whatever format the Jacobian is stored: only a
    first operand that is no number is broadcast, so that the number
    itself reaches [vals[0].copy()], and a number has no [copy]. *)
Theorem maximum_number_first (getformat : addr → string) (h : heap)
    (x b : addr) (k : Z) (vb : list Z) (Jb : matrix) :
  h !! x = Some (ONum k) → read_ad h b = Some (OVec vb, OMat Jb) →
  (functions.maximum getformat x b h).1 = Raise AttributeError.
Proof.
  intros Hx Hr. apply read_ad_inv in Hr as (bv & bj & Hb & Hbv & Hbj).
  unfold functions.maximum, functions.zero_like_jac, functions.shape, get_jac,
    get_val, py_cmp, binop, py_copy, hbind, load, alloc, lift, raise, ret.
  repeat (first [ rewrite Hx | rewrite Hb | rewrite Hbj | rewrite Hbv
                | rewrite (lookup_old h _ _ _ Hx)
                | rewrite (lookup_old h _ _ _ Hb)
                | rewrite (lookup_old h _ _ _ Hbv)
                | rewrite (lookup_old _ [_] _ _ (lookup_old h _ _ _ Hx)) ];
          simpl).
  done.
Qed.

Lemma maximum_number_first_witness :
  (functions.maximum (fun _ => "csc") 0 3 number_heap).1 = Raise AttributeError.
Proof.
  exact (maximum_number_first (fun _ => "csc") number_heap 0 3 4 [3; 5]%Z
           (diags (ones 2)) eq_refl eq_refl).
Defined.

(** ** [characteristic_function] *)

(** X27: [characteristic_function].  On an [Ad_array] with the value
    [va] and the Jacobian [Ja] it returns an [Ad_array] whose value is one
    where [|va[i]| <= tol] and zero elsewhere, and whose Jacobian is the
    zero matrix of the shape of [Ja], whatever [Ja] holds; on a plain
    array, which has no [val], it raises [AttributeError] and leaves the
    heap as it was. *)
Theorem characteristic_function_indicator (tol : Z) (h : heap) (a x : addr)
    (va vx : list Z) (Ja : matrix) :
  read_ad h a = Some (OVec va, OMat Ja) → h !! x = Some (OVec vx) →
  (∃ c h',
     functions.characteristic_function tol a h = (Ok c, h')
     ∧ read_ad h' c
       = Some (OVec (map (fun y => if (Z.abs y <=? tol)%Z then 1 else 0)%Z va),
               OMat (zero_matrix (nrows Ja) (ncols Ja)))
     ∧ read_ad h' a = Some (OVec va, OMat Ja))
  ∧ functions.characteristic_function tol x h = (Raise AttributeError, h).
Proof.
  intros Hr Hx. split.
  - pose proof Hr as Hr'. apply read_ad_inv in Hr' as (v & j & Ha & Hv & Hj).
    pose proof (lookup_lt_Some _ _ _ Ha). pose proof (lookup_lt_Some _ _ _ Hv).
    pose proof (lookup_lt_Some _ _ _ Hj).
    assert (wp (functions.characteristic_function tol a)
      (fun c h' => read_ad h' c
         = Some (OVec (map (fun y => if (Z.abs y <=? tol)%Z then 1 else 0)%Z va),
                 OMat (zero_matrix (nrows Ja) (ncols Ja)))
         ∧ read_ad h' a = Some (OVec va, OMat Ja))
      (fun _ => False) h) as Hwp.
    { unfold functions.characteristic_function.
      wp_call wp_get_val; [solve_lookup|]. wp_run.
      wp_call wp_zero_like_jac; [solve_lookup | solve_lookup |].
      apply wp_Ad_array. split.
      - eapply read_ad_intro; [solve_lookup | | solve_lookup].
        rewrite map_map. solve_lookup.
      - eapply read_ad_intro; solve_lookup. }
    apply wp_elim in Hwp as (c & h' & Hrun & Hc & Ha'). eauto.
  - unfold functions.characteristic_function, get_val, hbind, load.
    by rewrite Hx.
Qed.

Lemma characteristic_function_indicator_witness :
  ∃ c h',
    functions.characteristic_function 3 2 mul_heap = (Ok c, h')
    ∧ read_ad h' c = Some (OVec [1; 0]%Z, OMat (zero_matrix 2 2)).
Proof.
  destruct (characteristic_function_indicator 3 mul_heap 2 0 [3; 5]%Z [3; 5]%Z
              (diags (ones 2)) eq_refl eq_refl)
    as [(c & h' & Hrun & Hc & _) _].
  by exists c, h'.
Defined.

(** ** [RegularizedHeaviside] *)

(** X28: [RegularizedHeaviside].  Called on an [Ad_array] with the value
    [va], it returns an [Ad_array] whose value is the step of [va] with
    zero at the entries that are zero, whatever [zerovalue] is, and whose
    Jacobian is the Jacobian of what the regularization returned, the
    same object and no copy; called on anything else it raises
    [TypeError]. *)
Theorem RegularizedHeaviside_spec (regularization : addr → M addr) (h h1 : heap)
    (a v j x r rv rj : addr) (va vx : list Z) (zerovalue : Z) :
  h !! a = Some (OAd v j) → h !! v = Some (OVec va) → h !! x = Some (OVec vx) →
  regularization a (h ++ [OVec (map (functions.np_heaviside 0) va)]) = (Ok r, h1) →
  h1 !! r = Some (OAd rv rj) →
  RegularizedHeaviside regularization a zerovalue h
  = (Ok (length h1), h1 ++ [OAd (length h) rj])
  ∧ RegularizedHeaviside regularization x zerovalue h = (Raise TypeError, h).
Proof.
  intros Ha Hv Hx Hreg Hr. split.
  - unfold RegularizedHeaviside, get_val, get_jac, np_map, unop, Ad_array,
      hbind, load, alloc, lift, ret.
    rewrite Ha. simpl. rewrite Ha. simpl. rewrite Hv. simpl.
    rewrite Hreg, Hr. done.
  - unfold RegularizedHeaviside, hbind, load. by rewrite Hx.
Qed.

Lemma RegularizedHeaviside_spec_witness :
  RegularizedHeaviside ret 2 5 mul_heap
  = (Ok 4, mul_heap ++ [OVec [1; 1]%Z] ++ [OAd 3 1]).
Proof.
  destruct (RegularizedHeaviside_spec ret mul_heap
              (mul_heap ++ [OVec [1; 1]%Z]) 2 0 1 0 2 0 1 [3; 5]%Z [3; 5]%Z 5
              eq_refl eq_refl eq_refl eq_refl eq_refl) as [Hrun _].
  exact Hrun.
Defined.

(** ** The comparisons *)

(** X29: the comparisons.  [a < b], [a <= b], [a > b], [a >= b] and
    [a == b] for an [Ad_array] [a] with the value [va] return a plain
    array of booleans, the comparison of the values entry by entry; the
    Jacobians play no part, and the other operand may be an [Ad_array]
    with the value [vb] or the plain array [vb]. *)
Theorem compare_values (f : Z → Z → bool) (h : heap) (a b x : addr)
    (av aj bv bj : addr) (va vb : list Z) :
  h !! a = Some (OAd av aj) → h !! av = Some (OVec va) →
  h !! b = Some (OAd bv bj) → h !! bv = Some (OVec vb) →
  h !! x = Some (OVec vb) →
  length va = length vb →
  (∃ c h', compare f a b h = (Ok c, h')
           ∧ h' !! c = Some (OBools (zip_with f va vb)))
  ∧ (∃ c h', compare f a x h = (Ok c, h')
             ∧ h' !! c = Some (OBools (zip_with f va vb))).
Proof.
  intros Ha Hav Hb Hbv Hx Hlen.
  pose proof (lookup_lt_Some _ _ _ Hx).
  assert (Hcmp : cmp_leaf f (OVec va) (OVec vb) = Ok (OBools (zip_with f va vb))).
  { simpl. unfold broadcast2b. by rewrite decide_True. }
  split.
  - assert (wp (compare f a b)
              (fun c h' => h' !! c = Some (OBools (zip_with f va vb)))
              (fun _ => False) h) as Hwp.
    { unfold compare, _cast, py_cmp.
      wp_call wp_get_val; [solve_lookup|]. wp_run.
      wp_call wp_get_val; [solve_lookup|].
      eapply wp_binop; [solve_lookup | solve_lookup | exact Hcmp |]. solve_lookup. }
    apply wp_elim in Hwp as (c & h' & Hrun & Hc). eauto.
  - assert (wp (compare f a x)
              (fun c h' => h' !! c = Some (OBools (zip_with f va vb)))
              (fun _ => False) h) as Hwp.
    { unfold compare, _cast, Ad_array_1, Ad_array, py_cmp.
      wp_call wp_get_val; [solve_lookup|]. wp_run.
      wp_call wp_get_val; [solve_lookup|].
      eapply wp_binop; [solve_lookup | solve_lookup | exact Hcmp |]. solve_lookup. }
    apply wp_elim in Hwp as (c & h' & Hrun & Hc). eauto.
Qed.

Lemma compare_values_witness :
  ∃ c h', compare Z.ltb 2 5 sub_heap = (Ok c, h')
          ∧ h' !! c = Some (OBools [false; false]).
Proof.
  exact (proj1 (compare_values Z.ltb sub_heap 2 5 3 0 1 3 4 [3; 5]%Z [1; 2]%Z
                  eq_refl eq_refl eq_refl eq_refl eq_refl eq_refl)).
Defined.


(** ** Scaling the columns of a Jacobian *)

Lemma row_mul_units (a : list Z) : ∀ k n (r : list Z),
  length r = length a → n = k + length a →
  row_mul n r (imap (fun i x => <[k + i := x]> (replicate n 0%Z)) a)
  = replicate k 0%Z ++ zip_with Z.mul r a.
Proof.
  induction a as [|x a IH]; intros k n [|y r] Hr Hn; simpl in *; try lia.
  - subst n. by rewrite Nat.add_0_r, app_nil_r.
  - rewrite row_mul_cons.
    rewrite (imap_ext _ (fun i x => <[S k + i := x]> (replicate n 0%Z)))
      by (intros; unfold compose; f_equal; lia).
    rewrite (IH (S k) n r) by lia.
    apply list_eq. intros p.
    rewrite vec_add_lookup, vec_scale_lookup, unit_row_lookup by lia.
    assert (Hlt : length (zip_with Z.mul r a) = length a).
    { rewrite length_zip_with. lia. }
    set (t := zip_with Z.mul r a) in *.
    destruct (decide (p < n)) as [Hp|Hp]; simpl;
      change (0%Z :: replicate k 0%Z ++ t) with (replicate (S k) 0%Z ++ t).
    + destruct (decide (p < k)) as [Hpk|Hpk].
      * rewrite decide_False by lia.
        rewrite (lookup_app_l (replicate (S k) 0%Z)) by (rewrite length_replicate; lia).
        rewrite (lookup_app_l (replicate k 0%Z)) by (rewrite length_replicate; lia).
        rewrite !lookup_replicate_2 by lia. f_equal. lia.
      * rewrite (lookup_app_r (replicate k 0%Z)) by (rewrite length_replicate; lia).
        rewrite length_replicate.
        destruct (decide (k + 0 = p)) as [Hkp|Hkp].
        -- rewrite (lookup_app_l (replicate (S k) 0%Z))
             by (rewrite length_replicate; lia).
           rewrite lookup_replicate_2 by lia.
           replace (p - k) with 0 by lia. simpl. f_equal. lia.
        -- rewrite (lookup_app_r (replicate (S k) 0%Z))
             by (rewrite length_replicate; lia).
           rewrite length_replicate.
           replace (p - k) with (S (p - S k)) by lia. simpl.
           destruct (lookup_lt_is_Some_2 t (p - S k)) as [q Hq]; [lia|].
           rewrite Hq. f_equal. lia.
    + symmetry. apply lookup_ge_None.
      rewrite length_app, length_replicate. simpl. lia.
Qed.

(** [J * sps.diags(a)] scales column [j] of [J] by [a[j]]. *)
Lemma matmul_diags_r (a : list Z) (J : matrix) :
  ncols J = length a → mat_wf J →
  matmul J (diags a)
  = Ok (mkMat (length a) (map (fun r => zip_with Z.mul r a) (rows J))).
Proof.
  intros Hn Hwf. unfold matmul.
  rewrite decide_True by (unfold nrows; rewrite length_rows_diags; lia).
  do 2 f_equal. apply map_ext_in. intros r Hr.
  apply list_elem_of_In in Hr. unfold mat_wf in Hwf. rewrite Forall_forall in Hwf.
  pose proof (Hwf r Hr) as Hlen.
  pose proof (row_mul_units a 0 (length a) r ltac:(lia) eq_refl) as Hrow.
  simpl in Hrow. unfold diags. simpl. by rewrite Hrow.
Qed.

(** X30: [jac_mul_diagvec], next to [diagvec_mul_jac].  For an
    [Ad_array] with a Jacobian [Ja] of [n] rows and [m] columns, both
    well-formed, [diagvec_mul_jac(d)] for an array [d] of length [n]
    returns [diag(d) Ja], whose entry [(i, j)] is [d[i] Ja[i,j]], and
    [jac_mul_diagvec(e)] for an array [e] of length [m] returns
    [Ja diag(e)], whose entry [(i, j)] is [Ja[i,j] e[j]]; neither
    changes the [Ad_array]. *)
Theorem jac_mul_diagvec_columns (h : heap) (a d e : addr) (va vd ve : list Z)
    (Ja : matrix) :
  read_ad h a = Some (OVec va, OMat Ja) →
  h !! d = Some (OVec vd) → h !! e = Some (OVec ve) →
  nrows Ja = length vd → ncols Ja = length ve → mat_wf Ja →
  (∃ c J h', diagvec_mul_jac a d h = (Ok c, h')
             ∧ h' !! c = Some (OMat J)
             ∧ read_ad h' a = Some (OVec va, OMat Ja)
             ∧ ∀ i j, entry J i j = (default 0 (vd !! i) * entry Ja i j)%Z)
  ∧ (∃ c J h', jac_mul_diagvec a e h = (Ok c, h')
               ∧ h' !! c = Some (OMat J)
               ∧ read_ad h' a = Some (OVec va, OMat Ja)
               ∧ ∀ i j, entry J i j = (entry Ja i j * default 0 (ve !! j))%Z).
Proof.
  intros Hr Hd He Hn Hm Hwf.
  apply read_ad_inv in Hr as (v & j & Ha & Hv & Hj). split.
  - assert (wp (diagvec_mul_jac a d)
      (fun c h' => h' !! c
           = Some (OMat (mkMat (ncols Ja) (zip_with vec_scale vd (rows Ja))))
         ∧ read_ad h' a = Some (OVec va, OMat Ja))
      (fun _ => False) h) as Hwp.
    { eapply wp_diagvec_mul_jac; [solve_lookup | solve_lookup | solve_lookup | |].
      { by apply matmul_diags. }
      split; [solve_lookup | eapply read_ad_intro; solve_lookup]. }
    apply wp_elim in Hwp as (c & h' & Hrun & Hc & Ha').
    eexists c, _, h'. do 3 (split; [done|]).
    intros i k. by apply entry_scale_rows.
  - assert (wp (jac_mul_diagvec a e)
      (fun c h' => h' !! c
           = Some (OMat (mkMat (length ve)
                           (map (fun r => zip_with Z.mul r ve) (rows Ja))))
         ∧ read_ad h' a = Some (OVec va, OMat Ja))
      (fun _ => False) h) as Hwp.
    { unfold jac_mul_diagvec. wp_run.
      apply wp_try_no_raise. unfold sps_diags. wp_run.
      wp_call wp_get_jac; [solve_lookup|]. wp_run. simpl.
      eapply wp_py_mul; [solve_lookup | solve_lookup | done | done | |].
      - simpl. by rewrite matmul_diags_r.
      - split; [solve_lookup | eapply read_ad_intro; solve_lookup]. }
    apply wp_elim in Hwp as (c & h' & Hrun & Hc & Ha').
    eexists c, _, h'. do 3 (split; [done|]).
    intros i k. unfold entry. simpl. rewrite list_lookup_fmap.
    destruct (rows Ja !! i) as [r|]; simpl; [|lia].
    rewrite lookup_zip_with.
    destruct (r !! k) as [p|] eqn:Hp; simpl; [|lia].
    destruct (ve !! k) as [q|] eqn:Hq; simpl; [done | lia].
Qed.

Lemma jac_mul_diagvec_columns_witness :
  ∃ c J h', jac_mul_diagvec 2 0 mul_heap = (Ok c, h')
            ∧ h' !! c = Some (OMat J)
            ∧ entry J 1 1 = 5%Z.
Proof.
  destruct (jac_mul_diagvec_columns mul_heap 2 0 0 [3; 5]%Z [3; 5]%Z [3; 5]%Z
              (diags (ones 2)))
    as [_ (c & J & h' & Hrun & Hc & _ & HJ)];
    try reflexivity; try apply mat_wf_diags.
  exists c, J, h'. split; [exact Hrun|]. split; [exact Hc|]. apply (HJ 1 1).
Defined.
